(** * purge.py -- purge old tags from a quay.io repository

    A shallow embedding of [src/purge.py] and of the parts of the Python
    standard library the script runs through, followed by the properties
    the specification states about it.

    Conventions of the model.
    - A Python [str] is a Rocq [string], one [ascii] per code point; the
      model therefore covers strings whose code points are below 256.
    - A Python [int] is a [Z].  A Python [float] only occurs as the result
      of [timedelta.total_seconds()] and is modelled by its exact value
      (module [Float]).
    - Values decoded from JSON are [Py.pyval]; JSON numbers with a
      fraction or an exponent are not part of the model.
    - The process environment (arguments, environment variables, the
      clock and the registry behind [urlopen]) is an [environment]; what
      the process does to the outside (standard output, HTTP requests
      issued, clock readings taken) is recorded in a [world]. *)

From Stdlib Require Import ZArith QArith List String Ascii Bool Lia DecimalString.
Import ListNotations.
Close Scope Q_scope.
Open Scope string_scope.
Open Scope Z_scope.

(** ** Python values and the built-ins the script uses *)

Module Py.

(** The exceptions that end a run of the script. *)
Inductive exn : Type :=
| SystemExit (status : Z)
| KeyError (key : string)
| TypeError
| AttributeError
| ValueError
| JSONDecodeError
| HTTPError (status : Z)
| URLError
| OtherError (name : string).

Inductive result (A : Type) : Type :=
| Ok (a : A)
| Raise (e : exn).
Arguments Ok {A} a.
Arguments Raise {A} e.

Definition code (c : ascii) : N := N_of_ascii c.

Definition in_range (lo hi : N) (c : ascii) : bool :=
  ((lo <=? code c) && (code c <=? hi))%N.

(** [\d] of [re] and the digits [int()] accepts. *)
Definition is_digit (c : ascii) : bool := in_range 48 57 c.

(** [\s] of [re] ([str.isspace]). *)
Definition is_space (c : ascii) : bool :=
  in_range 9 13 c || in_range 28 32 c || (code c =? 133)%N || (code c =? 160)%N.

(** The white space [int()] skips around a literal. *)
Definition is_int_space (c : ascii) : bool :=
  in_range 9 13 c || (code c =? 32)%N || (code c =? 133)%N || (code c =? 160)%N.

(** [str.isprintable] on one character. *)
Definition is_printable (c : ascii) : bool :=
  negb (in_range 0 31 c || in_range 127 160 c || (code c =? 173)%N).

Definition lower (c : ascii) : ascii :=
  if in_range 65 90 c then ascii_of_N (code c + 32) else c.

Definition str1 (c : ascii) : string := String c EmptyString.

Definition dquote : ascii := ascii_of_N 34.
Definition squote : ascii := ascii_of_N 39.
Definition backslash : ascii := ascii_of_N 92.

Fixpoint contains (c : ascii) (s : string) : bool :=
  match s with
  | EmptyString => false
  | String d s' => (c =? d)%char || contains c s'
  end.

Fixpoint join (sep : string) (l : list string) : string :=
  match l with
  | [] => EmptyString
  | [x] => x
  | x :: l' => x ++ sep ++ join sep l'
  end.

(** [str(n)] for an [int]. *)
Definition int_str (n : Z) : string := NilZero.string_of_int (Z.to_int n).

Definition hex_digit (n : N) : ascii :=
  if (n <? 10)%N then ascii_of_N (48 + n) else ascii_of_N (87 + n).

Definition escape (quote c : ascii) : string :=
  if (c =? quote)%char || (c =? backslash)%char then String backslash (str1 c)
  else if (code c =? 9)%N then String backslash "t"
  else if (code c =? 10)%N then String backslash "n"
  else if (code c =? 13)%N then String backslash "r"
  else if is_printable c then str1 c
  else String backslash
         (String "x" (String (hex_digit (code c / 16)) (str1 (hex_digit (code c mod 16))))).

Fixpoint escape_all (quote : ascii) (s : string) : string :=
  match s with
  | EmptyString => EmptyString
  | String c s' => escape quote c ++ escape_all quote s'
  end.

(** [repr(s)] for a [str]. *)
Definition str_repr (s : string) : string :=
  let quote := if contains squote s && negb (contains dquote s) then dquote else squote in
  String quote (escape_all quote s ++ str1 quote).

(** What [json.load] produces, and what the fields of the two dataclasses
    hold (a dataclass does not check its annotations). *)
#[warnings="-register-all"]
Inductive pyval : Type :=
| PyNone
| PyBool (b : bool)
| PyInt (n : Z)
| PyStr (s : string)
| PyList (l : list pyval)
| PyDict (d : list (string * pyval)).

Fixpoint repr (v : pyval) : string :=
  match v with
  | PyNone => "None"
  | PyBool true => "True"
  | PyBool false => "False"
  | PyInt n => int_str n
  | PyStr s => str_repr s
  | PyList l => "[" ++ join ", " (map repr l) ++ "]"
  | PyDict d =>
      "{" ++ join ", " (map (fun kv : string * pyval => let (k, x) := kv in str_repr k ++ ": " ++ repr x) d) ++ "}"
  end.

(** [str(v)], which is also what an f-string field [{v}] renders. *)
Definition str (v : pyval) : string :=
  match v with
  | PyStr s => s
  | _ => repr v
  end.

(** Truth value of [v] in an [if]. *)
Definition truth (v : pyval) : bool :=
  match v with
  | PyNone => false
  | PyBool b => b
  | PyInt n => negb (n =? 0)%Z
  | PyStr s => negb (s =? EmptyString)%string
  | PyList l => match l with [] => false | _ => true end
  | PyDict d => match d with [] => false | _ => true end
  end.

(** [d.get(key)]: the value bound to [key], [None] when there is none. *)
Fixpoint dict_lookup (key : string) (d : list (string * pyval)) : option pyval :=
  match d with
  | [] => None
  | (k, v) :: d' => if (k =? key)%string then Some v else dict_lookup key d'
  end.

Definition dict_get (key : string) (d : list (string * pyval)) : pyval :=
  match dict_lookup key d with
  | Some v => v
  | None => PyNone
  end.

(** *** [int(s)] for a [str] *)

Definition digit_value (c : ascii) : Z := Z.of_N (code c) - 48.

Fixpoint lstrip (s : string) : string :=
  match s with
  | String c s' => if is_int_space c then lstrip s' else s
  | EmptyString => s
  end.

Fixpoint all_int_space (s : string) : bool :=
  match s with
  | String c s' => is_int_space c && all_int_space s'
  | EmptyString => true
  end.

(** Reads the rest of a literal after a digit: digits, each optionally
    preceded by one underscore.  Returns the value, the number of digits
    read and what follows. *)
Fixpoint int_digits (s : string) (acc : Z) (count : nat) : option (Z * nat * string) :=
  match s with
  | EmptyString => Some (acc, count, s)
  | String c s' =>
      if is_digit c then int_digits s' (10 * acc + digit_value c) (S count)
      else if (c =? "_")%char then
        match s' with
        | String d s'' =>
            if is_digit d then int_digits s'' (10 * acc + digit_value d) (S count)
            else None
        | EmptyString => None
        end
      else Some (acc, count, s)
  end.

Definition int_magnitude (max_str_digits : nat) (s : string) : option Z :=
  match s with
  | String c s' =>
      if is_digit c then
        match int_digits s' (digit_value c) 1 with
        | Some (v, count, rest) =>
            if all_int_space rest then
              if ((640 <? count) && (0 <? max_str_digits) && (max_str_digits <? count))%nat
              then None else Some v
            else None
        | None => None
        end
      else None
  | EmptyString => None
  end.

(** [int(s)]; [None] stands for [ValueError].  [max_str_digits] is
    [sys.get_int_max_str_digits()], with 0 for no limit. *)
Definition int_of_str (max_str_digits : nat) (s : string) : option Z :=
  match lstrip s with
  | String "+" s' => int_magnitude max_str_digits s'
  | String "-" s' => option_map Z.opp (int_magnitude max_str_digits s')
  | s' => int_magnitude max_str_digits s'
  end.

End Py.

(** ** Floating-point results

    [timedelta.total_seconds()] divides two integers; Python rounds the
    exact quotient to the nearest binary64 value, ties to even.  A value
    is kept as [mant * 2^expo], so that [int(x)] and the comparison of
    [x] with an [int] are exact, as they are in Python.  Quotients beyond
    the binary64 range (an [OverflowError]) do not occur for the
    durations of the script and are not modelled. *)

Module Float.

Record float : Type := { mant : Z; expo : Z }.

(** [2^l <= n / d], for positive [n] and [d]. *)
Definition ge_pow2 (n d l : Z) : bool :=
  if 0 <=? l then d * 2 ^ l <=? n else d <=? n * 2 ^ (- l).

(** The binary exponent of [n / d]: [2^e <= n / d < 2^(e+1)]. *)
Definition ilog2 (n d : Z) : Z :=
  let l := Z.log2 n - Z.log2 d in
  if ge_pow2 n d l then l else l - 1.

Definition round_half_even (num den : Z) : Z :=
  let q := num / den in
  let r := num mod den in
  if 2 * r <? den then q
  else if den <? 2 * r then q + 1
  else if Z.even q then q else q + 1.

(** [a / b] for two [int]s, [b] positive. *)
Definition true_divide (a b : Z) : float :=
  if (a =? 0)%Z then {| mant := 0; expo := 0 |}
  else
    let n := Z.abs a in
    let e := Z.max (ilog2 n b - 52) (-1074) in
    let m := if 0 <=? e then round_half_even n (b * 2 ^ e)
             else round_half_even (n * 2 ^ (- e)) b in
    {| mant := Z.sgn a * m; expo := e |}.

(** [int(x)]: truncation towards zero. *)
Definition to_int (x : float) : Z :=
  if 0 <=? expo x then mant x * 2 ^ expo x
  else Z.quot (mant x) (2 ^ (- expo x)).

(** [x > n] for an [int] [n]. *)
Definition gt_int (x : float) (n : Z) : bool :=
  if 0 <=? expo x then n <? mant x * 2 ^ expo x
  else n * 2 ^ (- expo x) <? mant x.

(** The value of [x], as a rational. *)
Definition to_Q (x : float) : Q :=
  if 0 <=? expo x then inject_Z (mant x * 2 ^ expo x)
  else Qmake (mant x) (Z.to_pos (2 ^ (- expo x))).

End Float.

(** ** [datetime]: durations, instants and their difference *)

Module Datetime.

(** A [timedelta], normalised as Python keeps it:
    [0 <= seconds < 86400] and [0 <= microseconds < 1000000]. *)
Record timedelta : Type := { days : Z; seconds : Z; microseconds : Z }.

Definition to_microseconds (d : timedelta) : Z :=
  (days d * 86400 + seconds d) * 1000000 + microseconds d.

Definition of_microseconds (us : Z) : timedelta :=
  {| days := us / 86400000000;
     seconds := (us / 1000000) mod 86400;
     microseconds := us mod 1000000 |}.

(** [timedelta(days, seconds, microseconds)] with any integer arguments.
    The [OverflowError] beyond 999999999 days is out of reach of the
    differences of datetimes the script forms, and is not modelled. *)
Definition mk_timedelta (d s us : Z) : timedelta :=
  of_microseconds ((d * 86400 + s) * 1000000 + us).

Definition timedelta_add (a b : timedelta) : timedelta :=
  mk_timedelta (days a + days b) (seconds a + seconds b) (microseconds a + microseconds b).

Definition timedelta_sub (a b : timedelta) : timedelta :=
  mk_timedelta (days a - days b) (seconds a - seconds b) (microseconds a - microseconds b).

Definition timedelta_eqb (a b : timedelta) : bool :=
  ((days a =? days b) && (seconds a =? seconds b) && (microseconds a =? microseconds b))%Z.

(** [d.total_seconds()]. *)
Definition total_seconds (d : timedelta) : Float.float :=
  Float.true_divide ((days d * 86400 + seconds d) * 10 ^ 6 + microseconds d) (10 ^ 6).

(** ["%0<width>d" % n]. *)
Definition zero_pad (width : nat) (n : Z) : string :=
  let digits := Py.int_str (Z.abs n) in
  let sign := if n <? 0 then "-" else EmptyString in
  let fill := (width - String.length sign - String.length digits)%nat in
  sign ++ String.concat EmptyString (repeat "0" fill) ++ digits.

(** [str(d)]. *)
Definition timedelta_str (d : timedelta) : string :=
  let ss := seconds d mod 60 in
  let mm := seconds d / 60 in
  let hh := mm / 60 in
  let mm := mm mod 60 in
  let s := Py.int_str hh ++ ":" ++ zero_pad 2 mm ++ ":" ++ zero_pad 2 ss in
  let s := if (days d =? 0)%Z then s
           else Py.int_str (days d) ++ " day"
                ++ (if (Z.abs (days d) =? 1)%Z then EmptyString else "s") ++ ", " ++ s in
  if (microseconds d =? 0)%Z then s
  else s ++ "." ++ zero_pad 6 (microseconds d).

(** An aware [datetime]; its [tzinfo] is a fixed-offset [timezone]. *)
Record datetime : Type := {
  year : Z; month : Z; day : Z;
  hour : Z; minute : Z; second : Z; microsecond : Z;
  utcoffset : timedelta
}.

Definition is_leap (y : Z) : bool :=
  ((y mod 4 =? 0) && (negb (y mod 100 =? 0) || (y mod 400 =? 0)))%Z.

Definition days_before_year (y : Z) : Z :=
  let y := y - 1 in y * 365 + y / 4 - y / 100 + y / 400.

Definition DAYS_IN_MONTH : list Z := [31; 28; 31; 30; 31; 30; 31; 31; 30; 31; 30; 31].
Definition DAYS_BEFORE_MONTH : list Z := [0; 31; 59; 90; 120; 151; 181; 212; 243; 273; 304; 334].

Definition days_in_month (y m : Z) : Z :=
  if (m =? 2)%Z && is_leap y then 29 else nth (Z.to_nat (m - 1)) DAYS_IN_MONTH 0.

Definition days_before_month (y m : Z) : Z :=
  nth (Z.to_nat (m - 1)) DAYS_BEFORE_MONTH 0 + (if (2 <? m) && is_leap y then 1 else 0).

Definition ymd2ord (y m d : Z) : Z :=
  days_before_year y + days_before_month y m + d.

Definition toordinal (t : datetime) : Z := ymd2ord (year t) (month t) (day t).

(** The checks of the [datetime] constructor and of [timezone]. *)
Definition check_date_fields (y m d : Z) : bool :=
  (1 <=? y) && (y <=? 9999) && (1 <=? m) && (m <=? 12)
  && (1 <=? d) && (d <=? days_in_month y m).

Definition check_time_fields (h mi s us : Z) : bool :=
  (0 <=? h) && (h <=? 23) && (0 <=? mi) && (mi <=? 59)
  && (0 <=? s) && (s <=? 59) && (0 <=? us) && (us <=? 999999).

Definition check_offset (off : timedelta) : bool :=
  (- 86400000000 <? to_microseconds off) && (to_microseconds off <? 86400000000).

Definition valid (t : datetime) : bool :=
  check_date_fields (year t) (month t) (day t)
  && check_time_fields (hour t) (minute t) (second t) (microsecond t)
  && check_offset (utcoffset t).

(** [t.replace(microsecond=0)]. *)
Definition replace_microsecond_0 (t : datetime) : datetime :=
  {| year := year t; month := month t; day := day t;
     hour := hour t; minute := minute t; second := second t; microsecond := 0;
     utcoffset := utcoffset t |}.

(** [a - b] for two aware datetimes. *)
Definition sub (a b : datetime) : timedelta :=
  let secs1 := second a + minute a * 60 + hour a * 3600 in
  let secs2 := second b + minute b * 60 + hour b * 3600 in
  let base := mk_timedelta (toordinal a - toordinal b) (secs1 - secs2)
                           (microsecond a - microsecond b) in
  if timedelta_eqb (utcoffset a) (utcoffset b) then base
  else timedelta_sub (timedelta_add base (utcoffset b)) (utcoffset a).

End Datetime.

(** ** [datetime.strptime] for the format of the script

    [_strptime] turns the format into a regular expression, compiled
    with [IGNORECASE], matches it at the start of the string and rejects
    what the match leaves over.  [re] tries alternatives from left to
    right and repetitions greedily and keeps the first match; [rmatch]
    does the same.  Weekday and month names are those of the C locale.
    The model agrees with CPython 3.11 on the strings it was run against,
    among them offsets with seconds and with a fraction of a second. *)

Module Strptime.
Import Py Datetime.

Inductive regex : Type :=
| Eps
| Lit (c : ascii)                 (* a letter or sign, case ignored *)
| LitCase (c : ascii)             (* [(?-i:c)] *)
| Class (p : ascii -> bool)       (* [\d], [\s], [[0-5]] *)
| Seq (r1 r2 : regex)
| Alt (r1 r2 : regex)
| Opt (r : regex)                 (* [r?] *)
| Plus (p : ascii -> bool)        (* [c+] for a class [c] *)
| Group (name : string) (r : regex).   (* [(?P<name>r)] *)

Definition captures : Type := list (string * string).

(** The part of [s] that precedes its suffix [rest]. *)
Definition consumed (s rest : string) : string :=
  substring 0 (String.length s - String.length rest) s.

Fixpoint plus {A : Type} (p : ascii -> bool) (s : string) (k : string -> option A) : option A :=
  match s with
  | String c s' =>
      if p c then
        match plus p s' k with
        | Some x => Some x
        | None => k s'
        end
      else None
  | EmptyString => None
  end.

Fixpoint rmatch {A : Type} (r : regex) (s : string) (caps : captures)
    (k : string -> captures -> option A) : option A :=
  match r with
  | Eps => k s caps
  | Lit c =>
      match s with
      | String d s' => if (lower d =? lower c)%char then k s' caps else None
      | EmptyString => None
      end
  | LitCase c =>
      match s with
      | String d s' => if (d =? c)%char then k s' caps else None
      | EmptyString => None
      end
  | Class p =>
      match s with
      | String d s' => if p d then k s' caps else None
      | EmptyString => None
      end
  | Seq r1 r2 => rmatch r1 s caps (fun s' caps' => rmatch r2 s' caps' k)
  | Alt r1 r2 =>
      match rmatch r1 s caps k with
      | Some x => Some x
      | None => rmatch r2 s caps k
      end
  | Opt r1 =>
      match rmatch r1 s caps k with
      | Some x => Some x
      | None => k s caps
      end
  | Plus p => plus p s (fun s' => k s' caps)
  | Group name r1 =>
      rmatch r1 s caps (fun s' caps' => k s' ((name, consumed s s') :: caps'))
  end.

(** [pattern.match(s)]: what the first match leaves over, and its groups. *)
Definition re_match (r : regex) (s : string) : option (string * captures) :=
  rmatch r s [] (fun rest caps => Some (rest, caps)).

Fixpoint group (name : string) (caps : captures) : string :=
  match caps with
  | [] => EmptyString
  | (n, v) :: caps' => if (n =? name)%string then v else group name caps'
  end.

(** *** The expression for ['%a, %d %b %Y %H:%M:%S %z'] *)

Fixpoint seq (l : list regex) : regex :=
  match l with
  | [] => Eps
  | [r] => r
  | r :: l' => Seq r (seq l')
  end.

Fixpoint alt (l : list regex) : regex :=
  match l with
  | [] => Eps
  | [r] => r
  | r :: l' => Alt r (alt l')
  end.

Fixpoint word (w : string) : regex :=
  match w with
  | EmptyString => Eps
  | String c EmptyString => Lit c
  | String c w' => Seq (Lit c) (word w')
  end.

Definition range (lo hi : ascii) : regex := Class (in_range (code lo) (code hi)).
Definition digit : regex := Class is_digit.                 (* [\d] *)
Definition spaces : regex := Plus is_space.                 (* [\s+] *)
Definition sign : regex :=                                  (* [[+-]] *)
  Class (fun c => (c =? "+")%char || (c =? "-")%char).

(** [r{1,n+1}] for a one-character [r]. *)
Fixpoint upto (n : nat) (r : regex) : regex :=
  match n with
  | O => r
  | S n' => Seq r (Opt (upto n' r))
  end.

Definition a_weekday : list string := ["mon"; "tue"; "wed"; "thu"; "fri"; "sat"; "sun"].
Definition a_month : list string :=
  [EmptyString; "jan"; "feb"; "mar"; "apr"; "may"; "jun"; "jul"; "aug"; "sep"; "oct"; "nov"; "dec"].

(** [3[0-1]|[1-2]\d|0[1-9]|[1-9]| [1-9]] *)
Definition re_d : regex :=
  alt [Seq (Lit "3") (range "0" "1"); Seq (range "1" "2") digit;
       Seq (Lit "0") (range "1" "9"); range "1" "9"; Seq (Lit " ") (range "1" "9")].

(** [\d\d\d\d] *)
Definition re_Y : regex := seq [digit; digit; digit; digit].

(** [2[0-3]|[0-1]\d|\d] *)
Definition re_H : regex :=
  alt [Seq (Lit "2") (range "0" "3"); Seq (range "0" "1") digit; digit].

(** [[0-5]\d|\d] *)
Definition re_M : regex := alt [Seq (range "0" "5") digit; digit].

(** [6[0-1]|[0-5]\d|\d] *)
Definition re_S : regex :=
  alt [Seq (Lit "6") (range "0" "1"); Seq (range "0" "5") digit; digit].

(** [[+-]\d\d:?[0-5]\d(:?[0-5]\d(\.\d{1,6})?)?|(?-i:Z)] *)
Definition re_z : regex :=
  Alt (seq [sign; digit; digit; Opt (Lit ":"); range "0" "5"; digit;
            Opt (seq [Opt (Lit ":"); range "0" "5"; digit;
                      Opt (Seq (Lit ".") (upto 5 digit))])])
      (LitCase "Z").

Definition format_regex : regex :=
  seq [Group "a" (alt (map word a_weekday)); Lit ","; spaces;
       Group "d" re_d; spaces;
       Group "b" (alt (map word (tl a_month))); spaces;
       Group "Y" re_Y; spaces;
       Group "H" re_H; Lit ":"; Group "M" re_M; Lit ":"; Group "S" re_S; spaces;
       Group "z" re_z].

(** *** From the groups to a [datetime] *)

Fixpoint lower_str (s : string) : string :=
  match s with
  | EmptyString => s
  | String c s' => String (lower c) (lower_str s')
  end.

(** [l.index(x)]. *)
Fixpoint index (x : string) (l : list string) : option Z :=
  match l with
  | [] => None
  | y :: l' => if (y =? x)%string then Some 0 else option_map Z.succ (index x l')
  end.

(** [s[from_:]] and [s[from_:to_]]. *)
Definition slice_from (from_ : nat) (s : string) : string :=
  substring from_ (String.length s) s.
Definition slice (from_ to_ : nat) (s : string) : string :=
  substring from_ (to_ - from_) s.

Definition int (s : string) : option Z := int_of_str 0 s.

Definition bind {A B : Type} (o : option A) (f : A -> option B) : option B :=
  match o with
  | Some a => f a
  | None => None
  end.

(** The offset of a [%z] field: whole seconds and microseconds. *)
Definition gmtoff (z0 : string) : option (Z * Z) :=
  if (z0 =? "Z")%string then Some (0, 0)
  else
    bind (if (slice 3 4 z0 =? ":")%string then
            let z := slice 0 3 z0 ++ slice_from 4 z0 in
            if (5 <? String.length z)%nat then
              if (slice 5 6 z =? ":")%string
              then Some (slice 0 5 z ++ slice_from 6 z)
              else None
            else Some z
          else Some z0) (fun z =>
    bind (int (slice 1 3 z)) (fun hours =>
    bind (int (slice 3 5 z)) (fun minutes =>
    bind (if (slice 5 7 z =? EmptyString)%string then Some 0 else int (slice 5 7 z)) (fun seconds =>
    let gmtoff := hours * 60 * 60 + minutes * 60 + seconds in
    let gmtoff_remainder := slice_from 8 z in
    let gmtoff_remainder_padding :=
      String.concat EmptyString (repeat "0" (6 - String.length gmtoff_remainder)) in
    bind (int (gmtoff_remainder ++ gmtoff_remainder_padding)) (fun gmtoff_fraction =>
    if (slice 0 1 z =? "-")%string
    then Some (- gmtoff, - gmtoff_fraction)
    else Some (gmtoff, gmtoff_fraction)))))).

Definition of_groups (found : captures) : option datetime :=
  bind (int (group "Y" found)) (fun year =>
  bind (index (lower_str (group "b" found)) a_month) (fun month =>
  bind (int (group "d" found)) (fun day =>
  bind (int (group "H" found)) (fun hour =>
  bind (int (group "M" found)) (fun minute =>
  bind (int (group "S" found)) (fun second =>
  bind (gmtoff (group "z" found)) (fun off =>
  let t := {| year := year; month := month; day := day;
              hour := hour; minute := minute; second := second; microsecond := 0;
              utcoffset := mk_timedelta 0 (fst off) (snd off) |} in
  if valid t then Some t else None))))))).

(** [datetime.datetime.strptime(v, '%a, %d %b %Y %H:%M:%S %z')]. *)
Definition strptime (v : pyval) : result datetime :=
  match v with
  | PyStr data_string =>
      match re_match format_regex data_string with
      | Some (EmptyString, found) =>
          match of_groups found with
          | Some t => Ok t
          | None => Raise ValueError
          end
      | _ => Raise ValueError
      end
  | _ => Raise TypeError
  end.

End Strptime.

(** ** [argparse] for the parser of the script

    The parser has two positional arguments, [repository] and [age]
    (converted by [int]), the flag [--purge] and the [-h]/[--help] that
    [ArgumentParser] adds.  [parse_args] follows [argparse] of
    CPython 3.11: every argument string is first classified as an option
    or a positional, then the strings are consumed from left to right.
    A usage error is [SystemExit 2]; [-h] prints the help message and
    ends the run with [SystemExit 0]. *)

Module Argparse.
Import Py.

Inductive action : Type := help | store_purge.

Definition option_string_actions : list (string * action) :=
  [("-h", help); ("--help", help); ("--purge", store_purge)].

Fixpoint lookup_option (s : string) (l : list (string * action)) : option action :=
  match l with
  | [] => None
  | (o, a) :: l' => if (o =? s)%string then Some a else lookup_option s l'
  end.

(** [s.split('=', 1)] when [s] contains ['=']. *)
Fixpoint split_eq (s : string) : option (string * string) :=
  match s with
  | EmptyString => None
  | String c s' =>
      if (c =? "=")%char then Some (EmptyString, s')
      else match split_eq s' with
           | Some (a, b) => Some (String c a, b)
           | None => None
           end
  end.

(** An option found in an argument string: its action ([None] when the
    parser has no such option), the option string, the text after [=]. *)
Definition option_tuple : Type := (option action * string * option string)%type.

Definition char_at (n : nat) (s : string) : ascii :=
  match String.get n s with
  | Some c => c
  | None => zero
  end.

(** [_get_option_tuples], for an argument string of two characters or
    more that starts with [-]: the options it may abbreviate. *)
Definition get_option_tuples (arg_string : string) : list option_tuple :=
  if (char_at 1 arg_string =? "-")%char then
    let (option_prefix, explicit_arg) :=
      match split_eq arg_string with
      | Some (a, b) => (a, Some b)
      | None => (arg_string, None)
      end in
    flat_map (fun oa : string * action =>
                if String.prefix option_prefix (fst oa)
                then [(Some (snd oa), fst oa, explicit_arg)] else [])
             option_string_actions
  else
    let short_option_prefix := substring 0 2 arg_string in
    let short_explicit_arg := substring 2 (String.length arg_string) arg_string in
    flat_map (fun oa : string * action =>
                if (fst oa =? short_option_prefix)%string
                then [(Some (snd oa), fst oa, Some short_explicit_arg)]
                else if String.prefix arg_string (fst oa)
                then [(Some (snd oa), fst oa, None)] else [])
             option_string_actions.

Fixpoint skip_digits (s : string) : string :=
  match s with
  | String c s' => if is_digit c then skip_digits s' else s
  | EmptyString => s
  end.

(** [$]: the end of the string, or a newline that ends it. *)
Definition at_end (s : string) : bool :=
  match s with
  | EmptyString => true
  | String c EmptyString => (code c =? 10)%N
  | _ => false
  end.

Definition starts_with_digit (s : string) : bool :=
  match s with
  | String c _ => is_digit c
  | EmptyString => false
  end.

(** [_negative_number_matcher], ['^-\d+$|^-\d*\.\d+$']. *)
Definition negative_number (s : string) : bool :=
  match s with
  | String "-" s' =>
      (starts_with_digit s' && at_end (skip_digits s'))
      || match skip_digits s' with
         | String "." s'' => starts_with_digit s'' && at_end (skip_digits s'')
         | _ => false
         end
  | _ => false
  end.

(** [_parse_optional]: [Ok None] for a positional, [Ok (Some t)] for an
    option, a usage error for an ambiguous abbreviation. *)
Definition parse_optional (arg_string : string) : result (option option_tuple) :=
  match arg_string with
  | EmptyString => Ok None
  | String c _ =>
      if negb (c =? "-")%char then Ok None
      else
        match lookup_option arg_string option_string_actions with
        | Some a => Ok (Some (Some a, arg_string, None))
        | None =>
            if (String.length arg_string =? 1)%nat then Ok None
            else
              match
                match split_eq arg_string with
                | Some (option_string, explicit_arg) =>
                    match lookup_option option_string option_string_actions with
                    | Some a => Some (Some a, option_string, Some explicit_arg)
                    | None => None
                    end
                | None => None
                end
              with
              | Some t => Ok (Some t)
              | None =>
                  match get_option_tuples arg_string with
                  | _ :: _ :: _ => Raise (SystemExit 2)
                  | [t] => Ok (Some t)
                  | [] =>
                      if negative_number arg_string then Ok None
                      else if contains " " arg_string then Ok None
                      else Ok (Some (None, arg_string, None))
                  end
              end
        end
  end.

(** An argument string with its class in the pattern of
    [_parse_known_args]: ['A'], ['-'] for the first [--], or ['O']. *)
Inductive item : Type :=
| IA (arg_string : string)
| IDash
| IO (t : option_tuple).

Fixpoint classify (arg_strings : list string) : result (list item) :=
  match arg_strings with
  | [] => Ok []
  | a :: rest =>
      if (a =? "--")%string then Ok (IDash :: map IA rest)
      else
        match parse_optional a with
        | Raise e => Raise e
        | Ok o =>
            match classify rest with
            | Raise e => Raise e
            | Ok items => Ok (match o with Some t => IO t | None => IA a end :: items)
            end
        end
  end.

(** The items before the first option, then each option with the items
    that follow it up to the next one. *)
Fixpoint segments (items : list item) : list item * list (option_tuple * list item) :=
  match items with
  | [] => ([], [])
  | IO t :: rest => let (run, segs) := segments rest in ([], (t, run) :: segs)
  | x :: rest => let (run, segs) := segments rest in (x :: run, segs)
  end.

(** [_match_arguments_partial] on a run without options: the argument
    strings of up to [n] positionals, each matched by [-*A-*], and
    whether strings are left over. *)
Fixpoint match_partial (n : nat) (lead : list string) (cur : option (list string))
    (run : list item) : list (list string) * bool :=
  let closed := match cur with Some g => [g] | None => [] end in
  match run with
  | [] => (closed, match lead with [] => false | _ => true end)
  | IDash :: run' =>
      match cur with
      | Some g => match_partial n lead (Some (g ++ ["--"])%list) run'
      | None => match_partial n (lead ++ ["--"])%list None run'
      end
  | IA a :: run' =>
      match n with
      | O => (closed, true)
      | S n' =>
          let (groups, left) := match_partial n' [] (Some (lead ++ [a])%list) run' in
          ((closed ++ groups)%list, left)
      end
  | IO _ :: _ => (closed, true)
  end.

(** A positional argument: where it is stored and its [type]. *)
Record positional : Type := { dest : string; type_ : string -> option pyval }.

Definition namespace : Type := list (string * pyval).

Fixpoint setattr (ns : namespace) (name : string) (v : pyval) : namespace :=
  match ns with
  | [] => [(name, v)]
  | (k, x) :: ns' =>
      if (k =? name)%string then (k, v) :: ns' else (k, x) :: setattr ns' name v
  end.

Fixpoint remove_first (x : string) (l : list string) : list string :=
  match l with
  | [] => []
  | y :: l' => if (y =? x)%string then l' else y :: remove_first x l'
  end.

Fixpoint get_value_all (p : positional) (l : list string) : result (list pyval) :=
  match l with
  | [] => Ok []
  | a :: l' =>
      match type_ p a with
      | None => Raise (SystemExit 2)
      | Some v =>
          match get_value_all p l' with
          | Ok vs => Ok (v :: vs)
          | Raise e => Raise e
          end
      end
  end.

(** [_get_values] for a positional without [nargs]. *)
Definition get_values (p : positional) (arg_strings : list string) : result pyval :=
  match remove_first "--" arg_strings with
  | [a] =>
      match type_ p a with
      | Some v => Ok v
      | None => Raise (SystemExit 2)
      end
  | l =>
      match get_value_all p l with
      | Ok vs => Ok (PyList vs)
      | Raise e => Raise e
      end
  end.

Record state : Type := {
  positionals : list positional;    (* those not yet consumed *)
  values : namespace;
  extras : bool                     (* some argument string was not used *)
}.

Fixpoint take_positionals (ps : list positional) (groups : list (list string))
    (ns : namespace) : result (list positional * namespace) :=
  match groups, ps with
  | g :: groups', p :: ps' =>
      match get_values p g with
      | Ok v => take_positionals ps' groups' (setattr ns (dest p) v)
      | Raise e => Raise e
      end
  | _, _ => Ok (ps, ns)
  end.

(** [consume_positionals] on a run, then what is left of the run goes
    to the extras. *)
Definition consume_positionals (run : list item) (st : state) : result state :=
  let (groups, left) := match_partial (List.length (positionals st)) [] None run in
  match take_positionals (positionals st) groups (values st) with
  | Ok (ps, ns) => Ok {| positionals := ps; values := ns; extras := extras st || left |}
  | Raise e => Raise e
  end.

(** The options written after the first one in a single-dash argument
    string, as in [-hh] for [-h -h]. *)
Fixpoint chain (e : string) : result (list action) :=
  match e with
  | EmptyString => Ok []
  | String c e' =>
      match lookup_option (String "-" (str1 c)) option_string_actions with
      | None => Raise (SystemExit 2)
      | Some a =>
          match e' with
          | EmptyString => Ok [a]
          | _ =>
              if (c =? "-")%char then Raise (SystemExit 2)
              else match chain e' with
                   | Ok l => Ok (a :: l)
                   | Raise x => Raise x
                   end
          end
      end
  end.

(** Neither option of this parser takes an argument: text after [=], or
    after a double-dash option, is a usage error. *)
Definition actions_of (a : action) (option_string : string)
    (explicit_arg : option string) : result (list action) :=
  match explicit_arg with
  | None => Ok [a]
  | Some e =>
      if negb (char_at 1 option_string =? "-")%char && negb (e =? EmptyString)%string then
        match chain e with
        | Ok l => Ok (a :: l)
        | Raise x => Raise x
        end
      else Raise (SystemExit 2)
  end.

Fixpoint take_actions (l : list action) (ns : namespace) : result namespace :=
  match l with
  | [] => Ok ns
  | help :: _ => Raise (SystemExit 0)
  | store_purge :: l' => take_actions l' (setattr ns "purge" (PyBool true))
  end.

Definition consume_optional (t : option_tuple) (st : state) : result state :=
  match t with
  | (None, _, _) =>
      Ok {| positionals := positionals st; values := values st; extras := true |}
  | (Some a, option_string, explicit_arg) =>
      match actions_of a option_string explicit_arg with
      | Raise e => Raise e
      | Ok l =>
          match take_actions l (values st) with
          | Ok ns => Ok {| positionals := positionals st; values := ns; extras := extras st |}
          | Raise e => Raise e
          end
      end
  end.

Fixpoint consume (segs : list (option_tuple * list item)) (st : state) : result state :=
  match segs with
  | [] => Ok st
  | (t, run) :: segs' =>
      match consume_optional t st with
      | Raise e => Raise e
      | Ok st1 =>
          match consume_positionals run st1 with
          | Raise e => Raise e
          | Ok st2 => consume segs' st2
          end
      end
  end.

Section Parser.

(** [sys.get_int_max_str_digits()]. *)
Variable max_str_digits : nat.

Definition repository_action : positional :=
  {| dest := "repository"; type_ := fun s => Some (PyStr s) |}.

Definition age_action : positional :=
  {| dest := "age"; type_ := fun s => option_map PyInt (int_of_str max_str_digits s) |}.

Definition initial : state :=
  {| positionals := [repository_action; age_action];
     values := [("repository", PyNone); ("age", PyNone); ("purge", PyBool false)];
     extras := false |}.

(** [parser.parse_args(arg_strings)]; the result is [args.__dict__]. *)
Definition parse_args (arg_strings : list string) : result namespace :=
  match classify arg_strings with
  | Raise e => Raise e
  | Ok items =>
      let (run, segs) := segments items in
      match consume_positionals run initial with
      | Raise e => Raise e
      | Ok st1 =>
          match consume segs st1 with
          | Raise e => Raise e
          | Ok st2 =>
              match positionals st2 with
              | _ :: _ => Raise (SystemExit 2)       (* required arguments missing *)
              | [] => if extras st2 then Raise (SystemExit 2) else Ok (values st2)
              end
          end
      end
  end.

End Parser.

End Argparse.

(** ** The script *)

Module Purge.
Import Py Datetime.

(** A [urllib.request.Request]. *)
Record request : Type := {
  url : string;
  method : string;
  headers : list (string * string)
}.

(** The response [urlopen] returns, kept as what [json.load(response)]
    makes of it. *)
Record response : Type := { json_load : result pyval }.

(** What a run is given. *)
Record environment : Type := {
  argv : list string;                     (* [sys.argv[1:]] *)
  environ : list (string * string);       (* [os.environ] *)
  int_max_str_digits : nat;               (* [sys.get_int_max_str_digits()] *)
  help_message : string;                  (* what [parser.print_help()] writes *)
  utcnow : nat -> datetime;               (* the readings of [datetime.now(timezone.utc)], in order *)
  registry : nat -> request -> result response
                                          (* what [urlopen] does with the n-th request issued *)
}.

(** What a run has done so far. *)
Record world : Type := {
  stdout : string;
  requests : list request;                (* the calls of [urlopen], in order *)
  clock_reads : nat
}.

Definition start : world := {| stdout := EmptyString; requests := []; clock_reads := 0 |}.

(** A statement reads the environment, changes the world, and returns a
    value or raises. *)
Definition M (A : Type) : Type := environment -> world -> result A * world.

Definition ret {A : Type} (a : A) : M A := fun _ w => (Ok a, w).

Definition raise {A : Type} (e : exn) : M A := fun _ w => (Raise e, w).

Definition bind {A B : Type} (c : M A) (k : A -> M B) : M B :=
  fun env w =>
    match c env w with
    | (Ok a, w') => k a env w'
    | (Raise e, w') => (Raise e, w')
    end.

Notation "x <- c ;; k" := (bind c (fun x => k))
  (at level 61, c at next level, right associativity).
Notation "c ;;; k" := (bind c (fun _ => k))
  (at level 61, right associativity).

Definition lift {A : Type} (r : result A) : M A := fun _ w => (r, w).

Definition nl : string := str1 (ascii_of_N 10).

(** [print(s, end=end_)]. *)
Definition print (s end_ : string) : M unit :=
  fun _ w =>
    (Ok tt, {| stdout := stdout w ++ s ++ end_;
               requests := requests w; clock_reads := clock_reads w |}).

(** [urllib.request.urlopen(r)]. *)
Definition urlopen (r : request) : M response :=
  fun env w =>
    (registry env (List.length (requests w)) r,
     {| stdout := stdout w; requests := (requests w ++ [r])%list;
        clock_reads := clock_reads w |}).

(** [datetime.datetime.now(datetime.timezone.utc)]. *)
Definition now_utc : M datetime :=
  fun env w =>
    (Ok (utcnow env (clock_reads w)),
     {| stdout := stdout w; requests := requests w; clock_reads := S (clock_reads w) |}).

Fixpoint lookup (key : string) (l : list (string * string)) : option string :=
  match l with
  | [] => None
  | (k, v) :: l' => if (k =? key)%string then Some v else lookup key l'
  end.

(** [os.environ[key]]. *)
Definition environ_getitem (key : string) : M string :=
  fun env w =>
    (match lookup key (environ env) with
     | Some v => Ok v
     | None => Raise (KeyError key)
     end, w).

(** [parser.parse_args()]. *)
Definition parse_args : M Argparse.namespace :=
  fun env w =>
    match Argparse.parse_args (int_max_str_digits env) (argv env) with
    | Ok args => (Ok args, w)
    | Raise (SystemExit 0) => (print (help_message env) EmptyString ;;; raise (SystemExit 0)) env w
    | Raise e => (Raise e, w)
    end.

(** [[f(x) for x in l]] *)
Fixpoint mapM {A B : Type} (f : A -> M B) (l : list A) : M (list B) :=
  match l with
  | [] => ret []
  | x :: l' => y <- f x ;; ys <- mapM f l' ;; ret (y :: ys)
  end.

(** [[x for x in l if p(x)]] *)
Fixpoint filterM {A : Type} (p : A -> M bool) (l : list A) : M (list A) :=
  match l with
  | [] => ret []
  | x :: l' => b <- p x ;; xs <- filterM p l' ;; ret (if b then x :: xs else xs)
  end.

(** [for x in l: body(x)] *)
Fixpoint forM {A : Type} (l : list A) (body : A -> M unit) : M unit :=
  match l with
  | [] => ret tt
  | x :: l' => body x ;;; forM l' body
  end.

(** [data[key]] for a decoded JSON value and a [str] key. *)
Definition getitem (data : pyval) (key : string) : result pyval :=
  match data with
  | PyDict d =>
      match dict_lookup key d with
      | Some v => Ok v
      | None => Raise (KeyError key)
      end
  | _ => Raise TypeError
  end.

Fixpoint chars (s : string) : list pyval :=
  match s with
  | EmptyString => []
  | String c s' => PyStr (str1 c) :: chars s'
  end.

(** The values a [for] over [v] goes through. *)
Definition iter (v : pyval) : result (list pyval) :=
  match v with
  | PyList l => Ok l
  | PyDict d => Ok (map (fun kv => PyStr (fst kv)) d)
  | PyStr s => Ok (chars s)
  | _ => Raise TypeError
  end.

(** [x > v] for a [float] [x]. *)
Definition float_gt (x : Float.float) (v : pyval) : result bool :=
  match v with
  | PyInt n => Ok (Float.gt_int x n)
  | PyBool b => Ok (Float.gt_int x (if b then 1 else 0))
  | _ => Raise TypeError
  end.

(** A dataclass: its declared fields, and its constructor called with
    one keyword argument per field. *)
Class Dataclass (T : Type) : Type := {
  fields : list string;
  init : list (string * pyval) -> T
}.

(** [deserialize(value, value_type)] *)
Definition deserialize {T : Type} `{Dataclass T} (value : pyval) : result T :=
  match value with
  | PyDict d =>
      let kvp := map (fun name => (name, dict_get name d)) fields in
      Ok (init kvp)
  | _ => Raise AttributeError
  end.

Module Config.

Record t : Type := { repository : pyval; age : pyval; purge : pyval }.

#[global] Instance dataclass : Dataclass t := {
  fields := ["repository"; "age"; "purge"];
  init kvp := {| repository := dict_get "repository" kvp;
                 age := dict_get "age" kvp;
                 purge := dict_get "purge" kvp |}
}.

End Config.

Module Tag.

Record t : Type := {
  name : pyval;
  reversion : pyval;
  start_ts : pyval;
  manifest_digest : pyval;
  is_manifest_list : pyval;
  size : pyval;
  last_modified : pyval
}.

#[global] Instance dataclass : Dataclass t := {
  fields := ["name"; "reversion"; "start_ts"; "manifest_digest"; "is_manifest_list";
             "size"; "last_modified"];
  init kvp := {| name := dict_get "name" kvp;
                 reversion := dict_get "reversion" kvp;
                 start_ts := dict_get "start_ts" kvp;
                 manifest_digest := dict_get "manifest_digest" kvp;
                 is_manifest_list := dict_get "is_manifest_list" kvp;
                 size := dict_get "size" kvp;
                 last_modified := dict_get "last_modified" kvp |}
}.

Definition last_modified_datetime (tag : t) : result datetime :=
  Strptime.strptime (last_modified tag).

(** The age of [tag] when the clock reads [now]. *)
Definition age_at (now : datetime) (tag : t) : result timedelta :=
  match last_modified_datetime tag with
  | Ok modified => Ok (sub (replace_microsecond_0 now) modified)
  | Raise e => Raise e
  end.

Definition age (tag : t) : M timedelta :=
  now <- now_utc ;; lift (age_at now tag).

End Tag.

(** Line 38. *)
Definition select_expired (config : Config.t) (tags : list Tag.t) : M (list Tag.t) :=
  filterM (fun tag =>
             a <- Tag.age tag ;;
             lift (float_gt (total_seconds a) (Config.age config)))
          tags.

(** The body of the loop, lines 41 to 46. *)
Definition report_tag (config : Config.t) (endpoint : string)
    (headers : list (string * string)) (tag : Tag.t) : M unit :=
  a1 <- Tag.age tag ;;
  a2 <- Tag.age tag ;;
  print (str (Config.repository config) ++ ":" ++ str (Tag.name tag) ++ "  "
         ++ int_str (Float.to_int (total_seconds a1)) ++ "  ["
         ++ timedelta_str a2 ++ "]")
        (if truth (Config.purge config) then "  " else nl) ;;;
  if truth (Config.purge config) then
    let request := {| url := endpoint ++ str (Tag.name tag);
                      method := "DELETE"; headers := headers |} in
    _ <- urlopen request ;;
    print "deleted" nl
  else ret tt.

(** Lines 40 to 46. *)
Definition report (config : Config.t) (endpoint : string)
    (headers : list (string * string)) (expired_tags : list Tag.t) : M unit :=
  forM expired_tags (report_tag config endpoint headers).

(** Lines 20 to 30: the configuration, the request headers and the
    endpoint. *)
Definition configure : M (Config.t * list (string * string) * string) :=
  args <- parse_args ;;
  token <- environ_getitem "QUAY_TOKEN" ;;
  config <- lift (deserialize (T := Config.t) (PyDict args)) ;;
  let headers := [("Authorization", "Bearer " ++ token)] in
  let endpoint := "https://quay.io/api/v1/repository/"
                  ++ str (Config.repository config) ++ "/tag/" in
  ret (config, headers, endpoint).

(** Lines 32 to 37: the list request and the tags it returns. *)
Definition list_tags (headers : list (string * string)) (endpoint : string)
    : M (list Tag.t) :=
  let request := {| url := endpoint ++ "?onlyActiveTags=true";
                    method := "GET"; headers := headers |} in
  response <- urlopen request ;;
  data <- lift (json_load response) ;;
  values <- lift (match getitem data "tags" with
                  | Ok v => iter v
                  | Raise e => Raise e
                  end) ;;
  mapM (fun value => lift (deserialize (T := Tag.t) value)) values.

(** Lines 32 to 46: list, filter, report. *)
Definition list_filter_report (config : Config.t) (headers : list (string * string))
    (endpoint : string) : M unit :=
  tags <- list_tags headers endpoint ;;
  expired_tags <- select_expired config tags ;;
  report config endpoint headers expired_tags.

Definition main : M unit :=
  c <- configure ;;
  let '(config, headers, endpoint) := c in
  list_filter_report config headers endpoint.

End Purge.

(** * Vocabulary of the statements *)

Import Py Datetime Purge.

(** The members of [l] whose flag in [keep] is set. *)
Fixpoint mask {A : Type} (keep : list bool) (l : list A) : list A :=
  match keep, l with
  | b :: keep', x :: l' => if b then x :: mask keep' l' else mask keep' l'
  | _, _ => []
  end.

(** [l1] is [l2] with some members left out. *)
Inductive sublist {A : Type} : list A -> list A -> Prop :=
| sublist_nil : sublist [] []
| sublist_keep x l1 l2 : sublist l1 l2 -> sublist (x :: l1) (x :: l2)
| sublist_drop x l1 l2 : sublist l1 l2 -> sublist l1 (x :: l2).

(** [w] after [k] more readings of the clock. *)
Definition advance (k : nat) (w : world) : world :=
  {| stdout := stdout w; requests := requests w; clock_reads := k + clock_reads w |}.

(** The text of the report line of [tag], for the two ages the f-string reads. *)
Definition report_line (config : Config.t) (tag : Tag.t) (a1 a2 : timedelta) : string :=
  str (Config.repository config) ++ ":" ++ str (Tag.name tag) ++ "  "
  ++ int_str (Float.to_int (total_seconds a1)) ++ "  [" ++ timedelta_str a2 ++ "]".

Definition delete_request (endpoint : string) (headers : list (string * string))
    (tag : Tag.t) : request :=
  {| url := endpoint ++ str (Tag.name tag); method := "DELETE"; headers := headers |}.

(** What follows the report line of a tag once the tag is dealt with. *)
Definition terminator (config : Config.t) : string :=
  if truth (Config.purge config) then "  " ++ "deleted" ++ nl else nl.

(** [ln] is a report line of [tag]: its two ages are ages of the tag at
    readings of the clock of [env]. *)
Definition is_line_of (env : environment) (config : Config.t) (tag : Tag.t)
    (ln : string) : Prop :=
  exists (k1 k2 : nat) (a1 a2 : timedelta),
    Tag.age_at (utcnow env k1) tag = Ok a1
    /\ Tag.age_at (utcnow env k2) tag = Ok a2
    /\ ln = report_line config tag a1 a2.

Fixpoint concat_all (l : list string) : string :=
  match l with
  | [] => EmptyString
  | x :: l' => x ++ concat_all l'
  end.

Definition list_request (endpoint : string) (headers : list (string * string)) : request :=
  {| url := endpoint ++ "?onlyActiveTags=true"; method := "GET"; headers := headers |}.

(** The condition of line 38 for one tag. *)
Definition is_expired (config : Config.t) (tag : Tag.t) : M bool :=
  a <- Tag.age tag ;; lift (float_gt (total_seconds a) (Config.age config)).

Definition is_expired_at (config : Config.t) (now : datetime) (tag : Tag.t) : result bool :=
  match Tag.age_at now tag with
  | Ok a => float_gt (total_seconds a) (Config.age config)
  | Raise e => Raise e
  end.

(** What the registry answers to [r], issued in [w], once decoded. *)
Definition answer (env : environment) (w : world) (r : request) : result pyval :=
  match registry env (List.length (requests w)) r with
  | Ok resp => json_load resp
  | Raise e => Raise e
  end.

(** [[f(x) for x in l]] for an [f] without effects. *)
Fixpoint traverse {A B : Type} (f : A -> result B) (l : list A) : result (list B) :=
  match l with
  | [] => Ok []
  | x :: l' =>
      match f x with
      | Ok y => match traverse f l' with
                | Ok ys => Ok (y :: ys)
                | Raise e => Raise e
                end
      | Raise e => Raise e
      end
  end.

(** The tags in a decoded answer, line 37. *)
Definition tags_of (data : pyval) : result (list Tag.t) :=
  match getitem data "tags" with
  | Ok v =>
      match iter v with
      | Ok values => traverse (deserialize (T := Tag.t)) values
      | Raise e => Raise e
      end
  | Raise e => Raise e
  end.

(** [w] once the request [r] has been issued. *)
Definition issued (r : request) (w : world) : world :=
  {| stdout := stdout w; requests := (requests w ++ [r])%list; clock_reads := clock_reads w |}.

Definition config_of (args : Argparse.namespace) : Config.t :=
  {| Config.repository := dict_get "repository" args;
     Config.age := dict_get "age" args;
     Config.purge := dict_get "purge" args |}.

Definition endpoint_of (config : Config.t) : string :=
  "https://quay.io/api/v1/repository/" ++ str (Config.repository config) ++ "/tag/".

Definition headers_of (token : string) : list (string * string) :=
  [("Authorization", "Bearer " ++ token)].

(** Microseconds from 0001-01-01T00:00:00 UTC to the instant [t]. *)
Definition instant (t : datetime) : Z :=
  ((toordinal t * 86400 + (second t + minute t * 60 + hour t * 3600)) * 1000000
   + microsecond t) - to_microseconds (utcoffset t).

Module ArgparseSpec.
Import Argparse.

Definition is_positional (it : item) : bool :=
  match it with
  | IA _ => true
  | _ => false
  end.

(** The number of argument strings [argparse] takes for positionals. *)
Definition count_positional (items : list item) : nat :=
  List.length (filter is_positional items).

(** The strings [argparse] takes for positionals, in order. *)
Fixpoint positional_strings (items : list item) : list string :=
  match items with
  | [] => []
  | IA s :: items' => s :: positional_strings items'
  | _ :: items' => positional_strings items'
  end.

Definition is_help (a : action) : bool :=
  match a with
  | help => true
  | store_purge => false
  end.

(** The argument string asks for the help message. *)
Definition asks_help (it : item) : bool :=
  match it with
  | IO (Some a, option_string, explicit_arg) =>
      match actions_of a option_string explicit_arg with
      | Ok l => existsb is_help l
      | Raise _ => false
      end
  | _ => false
  end.

End ArgparseSpec.

(** The result is a usage error, or a state that [P] describes. *)
Definition usage_or {A : Type} (P : A -> Prop) (r : result A) : Prop :=
  match r with
  | Ok a => P a
  | Raise e => e = SystemExit 2
  end.

Fixpoint count_in_segments (segs : list (Argparse.option_tuple * list Argparse.item)) : nat :=
  match segs with
  | [] => 0
  | (_, run) :: segs' => ArgparseSpec.count_positional run + count_in_segments segs'
  end.


(** An item of a command line without [--]. *)
Definition plain (it : Argparse.item) : Prop :=
  match it with
  | Argparse.IA s => s <> "--"
  | Argparse.IDash => False
  | Argparse.IO _ => True
  end.

(** A run, as [segments] cuts it, of plain items is a list of
    positional strings. *)
Definition is_run (run : list Argparse.item) : Prop :=
  Forall (fun it => match it with Argparse.IA s => s <> "--" | _ => False end) run.

Fixpoint strings_in_segments (segs : list (Argparse.option_tuple * list Argparse.item)) : list string :=
  match segs with
  | [] => []
  | (_, run) :: segs' => (ArgparseSpec.positional_strings run ++ strings_in_segments segs')%list
  end.

(** Following the specification: a tag serialized as a record with its
    seven named fields. *)
Definition serialize (tag : Tag.t) : pyval :=
  PyDict [("name", Tag.name tag); ("reversion", Tag.reversion tag);
          ("start_ts", Tag.start_ts tag); ("manifest_digest", Tag.manifest_digest tag);
          ("is_manifest_list", Tag.is_manifest_list tag); ("size", Tag.size tag);
          ("last_modified", Tag.last_modified tag)].

(** ** A registry with three tags, seen at 15:04:15 UTC on 2 January 2006 *)

Module Example.

Definition now : datetime :=
  {| year := 2006; month := 1; day := 2; hour := 15; minute := 4; second := 15;
     microsecond := 250000; utcoffset := mk_timedelta 0 0 0 |}.

Definition tag (name last_modified : string) : Tag.t :=
  {| Tag.name := PyStr name; Tag.reversion := PyBool false;
     Tag.start_ts := PyInt 1136214245; Tag.manifest_digest := PyStr "sha256:0a";
     Tag.is_manifest_list := PyBool false; Tag.size := PyInt 1024;
     Tag.last_modified := PyStr last_modified |}.

(** Ten seconds old, eleven seconds old, and ten seconds in the future. *)
Definition v1 : Tag.t := tag "v1" "Mon, 02 Jan 2006 15:04:05 +0000".
Definition v2 : Tag.t := tag "v2" "Mon, 02 Jan 2006 16:04:04 +0100".
Definition v3 : Tag.t := tag "v3" "Mon, 02 Jan 2006 15:04:25 -0000".

(** Last modified at 15:04:05 in a zone half a second ahead of UTC. *)
Definition v4 : Tag.t := tag "v4" "Mon, 02 Jan 2006 15:04:05 +000000.5".

Definition record (t : Tag.t) : pyval :=
  PyDict [("name", Tag.name t); ("reversion", Tag.reversion t);
          ("start_ts", Tag.start_ts t); ("manifest_digest", Tag.manifest_digest t);
          ("is_manifest_list", Tag.is_manifest_list t); ("size", Tag.size t);
          ("last_modified", Tag.last_modified t); ("end_ts", PyNone)].

Definition listing : pyval :=
  PyDict [("tags", PyList [record v1; record v2; record v3]); ("page", PyInt 1);
          ("has_additional", PyBool false)].

(** The registry answers the list request with [listing] and accepts
    the deletes, except that the request number [refused] gets a 401. *)
Definition env (args : list string) (refused : nat) : environment :=
  {| argv := args;
     environ := [("HOME", "/root"); ("QUAY_TOKEN", "s3cr3t")];
     int_max_str_digits := 4300;
     help_message := "usage: purge.py [-h] [--purge] repository age";
     utcnow := fun _ => now;
     registry := fun k _ =>
       if (k =? refused)%nat then Raise (HTTPError 401)
       else Ok {| json_load := Ok listing |} |}.

(** The same without the token. *)
Definition env_without_token (args : list string) : environment :=
  {| argv := args;
     environ := [("HOME", "/root")];
     int_max_str_digits := 4300;
     help_message := "usage: purge.py [-h] [--purge] repository age";
     utcnow := fun _ => now;
     registry := fun _ _ => Ok {| json_load := Ok listing |} |}.

Definition config (age : Z) (purge : bool) : Config.t :=
  {| Config.repository := PyStr "ansible/demo"; Config.age := PyInt age;
     Config.purge := PyBool purge |}.

Definition endpoint : string := "https://quay.io/api/v1/repository/ansible/demo/tag/".
Definition headers : list (string * string) := [("Authorization", "Bearer s3cr3t")].

End Example.


(** ** Further vocabulary *)

(** [l1] is the beginning of [l2]. *)
Definition starts {A : Type} (l1 l2 : list A) : Prop := exists rest, l2 = (l1 ++ rest)%list.

(** The decoded answer to the list request is not an object whose
    [tags] is a sequence of objects; the exception line 35 or line 37
    raises on it. *)
Inductive malformed : pyval -> exn -> Prop :=
| not_subscriptable (data : pyval) :
    (forall d, data <> PyDict d) -> malformed data TypeError
| no_tags (d : list (string * pyval)) :
    dict_lookup "tags" d = None -> malformed (PyDict d) (KeyError "tags")
| tags_not_iterable (d : list (string * pyval)) (v : pyval) (e : exn) :
    dict_lookup "tags" d = Some v -> iter v = Raise e -> malformed (PyDict d) e
| element_not_object (d : list (string * pyval)) (v x : pyval) (values : list pyval) :
    dict_lookup "tags" d = Some v -> iter v = Ok values ->
    In x values -> (forall d', x <> PyDict d') ->
    malformed (PyDict d) AttributeError.


(** [argparse] takes the argument string for a positional. *)
Definition positional_string (s : string) : Prop :=
  Argparse.parse_optional s = Ok None /\ s <> "--".

(** An item of a command line made of positional strings and of the
    flag [--purge], written in full or abbreviated. *)
Definition positional_or_purge (it : Argparse.item) : Prop :=
  match it with
  | Argparse.IA s => s <> "--"
  | Argparse.IDash => False
  | Argparse.IO t => exists o, t = (Some Argparse.store_purge, o, None)
  end.

Definition is_option (it : Argparse.item) : bool :=
  match it with
  | Argparse.IO _ => true
  | _ => false
  end.

(** The parser once it has taken [k] of the two positional strings [r]
    and [a], the latter being the integer [n]. *)
Definition taken (max_str_digits : nat) (r : string) (n : Z) (k : nat) (purge : bool)
    : Argparse.state :=
  {| Argparse.positionals :=
       skipn k [Argparse.repository_action; Argparse.age_action max_str_digits];
     Argparse.values := [("repository", if (1 <=? k)%nat then PyStr r else PyNone);
                         ("age", if (2 <=? k)%nat then PyInt n else PyNone);
                         ("purge", PyBool purge)];
     Argparse.extras := false |}.

(** The names of the days as the registry writes them. *)
Definition weekdays : list string := ["Mon"; "Tue"; "Wed"; "Thu"; "Fri"; "Sat"; "Sun"].

(** Two lists of groups that differ at most in the weekday. *)
Definition same_but_weekday (c c' : Strptime.captures) : Prop :=
  forall name, name <> "a" -> Strptime.group name c = Strptime.group name c'.

(** What [strptime] makes of a match. *)
Definition outcome (m : string * Strptime.captures) : string * option datetime :=
  (fst m, Strptime.of_groups (snd m)).

(** ** More registries *)

Module Sample.

(** A record of the listing that has only a name. *)
Definition bare : Tag.t :=
  {| Tag.name := PyStr "v9"; Tag.reversion := PyNone; Tag.start_ts := PyNone;
     Tag.manifest_digest := PyNone; Tag.is_manifest_list := PyNone;
     Tag.size := PyNone; Tag.last_modified := PyNone |}.

Definition listing : pyval :=
  PyDict [("tags", PyList [Example.record Example.v1; PyDict [("name", PyStr "v9")]])].

(** The registry answers every request with [data]. *)
Definition env (args : list string) (data : pyval) : environment :=
  {| argv := args;
     environ := [("QUAY_TOKEN", "s3cr3t")];
     int_max_str_digits := 4300;
     help_message := "usage: purge.py [-h] [--purge] repository age";
     utcnow := fun _ => Example.now;
     registry := fun _ _ => Ok {| json_load := Ok data |} |}.

(** What [strptime] makes of the [last_modified] of [Example.v1]. *)
Definition modified_utc : datetime :=
  {| year := 2006; month := 1; day := 2; hour := 15; minute := 4; second := 5;
     microsecond := 0; utcoffset := {| days := 0; seconds := 0; microseconds := 0 |} |}.

(** The instant of [Example.v1], told in a zone an hour ahead of UTC. *)
Definition v1_cet : Tag.t := Example.tag "v1" "Mon, 02 Jan 2006 16:04:05 +0100".

Definition modified_cet : datetime :=
  {| year := 2006; month := 1; day := 2; hour := 16; minute := 4; second := 5;
     microsecond := 0; utcoffset := {| days := 0; seconds := 3600; microseconds := 0 |} |}.

(** What a dry run for an [age] of 9 leaves behind. *)
Definition after_dry_run : world :=
  {| stdout := "ansible/demo:v1  10  [0:00:10]" ++ nl
               ++ "ansible/demo:v2  11  [0:00:11]" ++ nl;
     requests := [list_request Example.endpoint Example.headers];
     clock_reads := 7 |}.

(** Last modified at midnight in a zone a microsecond ahead of UTC. *)
Definition v5 : Tag.t := Example.tag "v5" "Mon, 01 Jan 1400 00:00:00 +000000.000001".

(** A day after [Example.now]. *)
Definition later : datetime :=
  {| year := 2006; month := 1; day := 3; hour := 15; minute := 4; second := 15;
     microsecond := 250000; utcoffset := mk_timedelta 0 0 0 |}.

(** The registry answers every request with [data], and the clock
    advances by a day at each reading. *)
Definition advancing (data : pyval) : environment :=
  {| argv := [];
     environ := [("QUAY_TOKEN", "s3cr3t")];
     int_max_str_digits := 4300;
     help_message := "usage: purge.py [-h] [--purge] repository age";
     utcnow := fun k =>
       {| year := 2006; month := 1; day := 2 + Z.of_nat (Nat.min k 20);
          hour := 15; minute := 4; second := 15;
          microsecond := 250000; utcoffset := mk_timedelta 0 0 0 |};
     registry := fun _ _ => Ok {| json_load := Ok data |} |}.

(** What a dry run for an [age] of 9 leaves behind with that clock. *)
Definition after_slow_run : world :=
  {| stdout := "ansible/demo:v1  259210  [4 days, 0:00:10]" ++ nl
               ++ "ansible/demo:v2  432011  [6 days, 0:00:11]" ++ nl
               ++ "ansible/demo:v3  604790  [7 days, 23:59:50]" ++ nl;
     requests := [list_request Example.endpoint Example.headers];
     clock_reads := 9 |}.

End Sample.

(** * Facts about the model *)

Section FloatFacts.
Import Float.

Lemma pow2_pos (e : Z) : 0 <= e -> 0 < 2 ^ e.
Proof. intros H. apply Z.pow_pos_nonneg; lia. Qed.

Lemma ge_pow2_true (n d l : Z) :
  ge_pow2 n d l = true ->
  if 0 <=? l then d * 2 ^ l <= n else d <= n * 2 ^ (- l).
Proof. unfold ge_pow2. destruct (0 <=? l); intros H; apply Z.leb_le; exact H. Qed.

Lemma ge_pow2_false (n d l : Z) :
  ge_pow2 n d l = false ->
  if 0 <=? l then n < d * 2 ^ l else n * 2 ^ (- l) < d.
Proof. unfold ge_pow2. destruct (0 <=? l); intros H; apply Z.leb_gt; exact H. Qed.

(** The exponent [ilog2] finds for a multiple [n * k] of [k] is that of [n]. *)
Lemma ilog2_multiple (n k : Z) :
  0 < n -> 0 < k ->
  let e := ilog2 (n * k) k in 0 <= e /\ 2 ^ e <= n < 2 ^ (e + 1).
Proof.
  intros Hn Hk.
  assert (HN : 0 < n * k) by nia.
  pose proof (Z.log2_spec (n * k) HN) as [Ha1 Ha2].
  pose proof (Z.log2_spec k Hk) as [Hb1 Hb2].
  pose proof (Z.log2_nonneg (n * k)) as Ha0.
  pose proof (Z.log2_nonneg k) as Hb0.
  assert (Hmono : Z.log2 k <= Z.log2 (n * k)) by (apply Z.log2_le_mono; nia).
  set (a := Z.log2 (n * k)) in *. set (b := Z.log2 k) in *.
  cbv zeta. unfold ilog2. fold a b.
  assert (Hl : 0 <= a - b) by lia.
  (* 2^a = 2^b * 2^(a-b) *)
  assert (Hsplit : 2 ^ a = 2 ^ b * 2 ^ (a - b)).
  { rewrite <- Z.pow_add_r by lia. f_equal. lia. }
  assert (Hp : 0 < 2 ^ (a - b)) by (apply pow2_pos; lia).
  assert (Hpb : 0 < 2 ^ b) by (apply pow2_pos; lia).
  assert (Hup : n < 2 ^ (a - b + 1)).
  { rewrite Z.pow_add_r by lia. change (2 ^ 1) with 2.
    replace (Z.succ a) with (a + 1) in Ha2 by lia.
    rewrite Z.pow_add_r in Ha2 by lia. change (2 ^ 1) with 2 in Ha2.
    rewrite Hsplit in Ha2. nia. }
  destruct (ge_pow2 (n * k) k (a - b)) eqn:Hge.
  - apply ge_pow2_true in Hge.
    destruct (0 <=? a - b) eqn:Hs; [| apply Z.leb_gt in Hs; lia].
    split; [lia |]. split; [nia | exact Hup].
  - apply ge_pow2_false in Hge.
    destruct (0 <=? a - b) eqn:Hs; [| apply Z.leb_gt in Hs; lia].
    assert (Hlt : n < 2 ^ (a - b)) by nia.
    (* a - b >= 1, since n >= 1 *)
    assert (H1 : 1 <= a - b).
    { destruct (Z.eq_dec (a - b) 0) as [E | E]; [| lia].
      rewrite E in Hlt. change (2 ^ 0) with 1 in Hlt. lia. }
    split; [lia |].
    replace (a - b - 1 + 1) with (a - b) by lia.
    split; [| exact Hlt].
    (* 2^(a-b-1) <= n: from 2^a <= n*k < n * 2^(b+1) *)
    replace (Z.succ b) with (b + 1) in Hb2 by lia.
    rewrite Z.pow_add_r in Hb2 by lia. change (2 ^ 1) with 2 in Hb2.
    assert (Hs2 : 2 ^ (a - b) = 2 * 2 ^ (a - b - 1)).
    { replace (a - b) with (1 + (a - b - 1)) at 1 by lia.
      rewrite Z.pow_add_r by lia. reflexivity. }
    assert (Hp1 : 0 < 2 ^ (a - b - 1)) by (apply pow2_pos; lia).
    rewrite Hsplit, Hs2 in Ha1. nia.
Qed.

Lemma round_half_even_multiple (q d : Z) : 0 < d -> round_half_even (q * d) d = q.
Proof.
  intros Hd. unfold round_half_even.
  rewrite Z.div_mul by lia. rewrite Z.mod_mul by lia.
  destruct (2 * 0 <? d) eqn:E; [reflexivity | apply Z.ltb_ge in E; lia].
Qed.

(** The quotient of [n * k] by [k] is exactly [n] when [n] fits in 53 bits. *)
Lemma true_divide_multiple (n k : Z) :
  0 < k -> Z.abs n < 2 ^ 53 ->
  exists p, 0 <= p /\ true_divide (n * k) k = {| mant := n * 2 ^ p; expo := - p |}.
Proof.
  intros Hk Hn. unfold true_divide.
  destruct (n * k =? 0) eqn:E0.
  - apply Z.eqb_eq in E0. assert (n = 0) by nia. subst n.
    exists 0. split; [lia | reflexivity].
  - apply Z.eqb_neq in E0. assert (Hn0 : n <> 0) by (intros ->; lia).
    assert (Habs : Z.abs (n * k) = Z.abs n * k) by (rewrite Z.abs_mul; f_equal; lia).
    rewrite Habs.
    assert (Hpos : 0 < Z.abs n) by lia.
    destruct (ilog2_multiple (Z.abs n) k Hpos Hk) as [He0 [Hlo Hhi]].
    set (e0 := ilog2 (Z.abs n * k) k) in *.
    assert (He52 : e0 < 53).
    { apply (Z.pow_lt_mono_r_iff 2); lia. }
    assert (Hmax : Z.max (e0 - 52) (-1074) = e0 - 52) by lia.
    rewrite Hmax.
    assert (Hsgn : Z.sgn (n * k) = Z.sgn n).
    { rewrite Z.sgn_mul. rewrite (Z.sgn_pos k) by lia. lia. }
    rewrite Hsgn.
    exists (52 - e0). split; [lia |].
    destruct (0 <=? e0 - 52) eqn:Es.
    + apply Z.leb_le in Es. assert (e0 = 52) by lia.
      replace (e0 - 52) with 0 by lia. replace (52 - e0) with 0 by lia.
      change (2 ^ 0) with 1. rewrite Z.mul_1_r.
      rewrite round_half_even_multiple by lia.
      f_equal. rewrite Z.mul_1_r. rewrite Z.mul_comm. apply Z.abs_sgn.
    + replace (- (e0 - 52)) with (52 - e0) by lia.
      replace (Z.abs n * k * 2 ^ (52 - e0)) with (Z.abs n * 2 ^ (52 - e0) * k) by ring.
      rewrite round_half_even_multiple by lia.
      f_equal; [| lia].
      rewrite Z.mul_assoc. f_equal. rewrite Z.mul_comm. apply Z.abs_sgn.
Qed.

Lemma to_int_scaled (n p : Z) : 0 <= p -> to_int {| mant := n * 2 ^ p; expo := - p |} = n.
Proof.
  intros Hp. unfold to_int. cbn [mant expo].
  pose proof (pow2_pos p Hp).
  destruct (0 <=? - p) eqn:E.
  - apply Z.leb_le in E. assert (p = 0) by lia. subst p. cbn. lia.
  - rewrite Z.opp_involutive. apply Z.quot_mul. lia.
Qed.

Lemma gt_int_scaled (n p m : Z) :
  0 <= p -> gt_int {| mant := n * 2 ^ p; expo := - p |} m = (m <? n).
Proof.
  intros Hp. unfold gt_int. cbn [mant expo].
  pose proof (pow2_pos p Hp).
  destruct (0 <=? - p) eqn:E.
  - apply Z.leb_le in E. assert (p = 0) by lia. subst p. cbn. f_equal; lia.
  - rewrite Z.opp_involutive.
    destruct (m <? n) eqn:F.
    + apply Z.ltb_lt in F. apply Z.ltb_lt. nia.
    + apply Z.ltb_ge in F. apply Z.ltb_ge. nia.
Qed.

Lemma to_Q_scaled (n p : Z) :
  0 <= p -> (to_Q {| mant := n * 2 ^ p; expo := - p |} == inject_Z n)%Q.
Proof.
  intros Hp. unfold to_Q. cbn [mant expo].
  pose proof (pow2_pos p Hp).
  destruct (0 <=? - p) eqn:E.
  - apply Z.leb_le in E. assert (p = 0) by lia. subst p.
    unfold Qeq, inject_Z. cbn. lia.
  - rewrite Z.opp_involutive. unfold Qeq, inject_Z. cbn [Qnum Qden].
    rewrite Z2Pos.id by lia. ring.
Qed.

(** [x > n] in Python is the order of the rationals. *)
Lemma gt_int_spec (x : float) (n : Z) :
  gt_int x n = true <-> (inject_Z n < to_Q x)%Q.
Proof.
  unfold gt_int, to_Q. destruct (0 <=? expo x) eqn:E.
  - rewrite Z.ltb_lt. rewrite <- Zlt_Qlt. reflexivity.
  - apply Z.leb_gt in E.
    assert (H : 0 < 2 ^ (- expo x)) by (apply pow2_pos; lia).
    rewrite Z.ltb_lt. unfold Qlt, inject_Z. cbn [Qnum Qden].
    rewrite Z2Pos.id by lia. lia.
Qed.

End FloatFacts.

Section DatetimeFacts.
Import Py Datetime.

Lemma to_of_microseconds (us : Z) : to_microseconds (of_microseconds us) = us.
Proof.
  unfold to_microseconds, of_microseconds. cbn [days seconds microseconds].
  pose proof (Z.div_mod us 1000000 ltac:(lia)) as H1.
  pose proof (Z.div_mod (us / 1000000) 86400 ltac:(lia)) as H2.
  assert (H3 : us / 86400000000 = us / 1000000 / 86400).
  { rewrite Z.div_div by lia. reflexivity. }
  rewrite H3. lia.
Qed.

Lemma microseconds_of_microseconds (us : Z) :
  microseconds (of_microseconds us) = us mod 1000000.
Proof. reflexivity. Qed.

Lemma to_microseconds_mk (d s us : Z) :
  to_microseconds (mk_timedelta d s us) = (d * 86400 + s) * 1000000 + us.
Proof. unfold mk_timedelta. apply to_of_microseconds. Qed.

Lemma to_microseconds_add (a b : timedelta) :
  to_microseconds (timedelta_add a b) = to_microseconds a + to_microseconds b.
Proof. unfold timedelta_add. rewrite to_microseconds_mk. unfold to_microseconds. ring. Qed.

Lemma to_microseconds_sub (a b : timedelta) :
  to_microseconds (timedelta_sub a b) = to_microseconds a - to_microseconds b.
Proof. unfold timedelta_sub. rewrite to_microseconds_mk. unfold to_microseconds. ring. Qed.

Lemma timedelta_eqb_eq (a b : timedelta) :
  timedelta_eqb a b = true -> to_microseconds a = to_microseconds b.
Proof.
  unfold timedelta_eqb. rewrite !andb_true_iff, !Z.eqb_eq.
  intros [[H1 H2] H3]. unfold to_microseconds. rewrite H1, H2, H3. reflexivity.
Qed.

Lemma to_microseconds_datetime_sub (a b : datetime) :
  to_microseconds (sub a b) = instant a - instant b.
Proof.
  unfold sub, instant.
  destruct (timedelta_eqb (utcoffset a) (utcoffset b)) eqn:E.
  - apply timedelta_eqb_eq in E. rewrite to_microseconds_mk. lia.
  - rewrite to_microseconds_sub, to_microseconds_add, to_microseconds_mk. lia.
Qed.

(** A difference of datetimes is normalised. *)
Lemma datetime_sub_normal (a b : datetime) :
  sub a b = of_microseconds (instant a - instant b).
Proof.
  rewrite <- to_microseconds_datetime_sub.
  unfold sub. destruct (timedelta_eqb (utcoffset a) (utcoffset b));
    unfold timedelta_sub, mk_timedelta; rewrite to_of_microseconds; reflexivity.
Qed.

Lemma total_seconds_eq (d : timedelta) :
  total_seconds d = Float.true_divide (to_microseconds d) 1000000.
Proof. reflexivity. Qed.

Lemma days_before_year_bound (y : Z) :
  1 <= y <= 9999 -> 0 <= days_before_year y <= 3652059.
Proof.
  intros H. unfold days_before_year.
  pose proof (Z.div_mod (y - 1) 4 ltac:(lia)).
  pose proof (Z.mod_pos_bound (y - 1) 4 ltac:(lia)).
  pose proof (Z.div_mod (y - 1) 100 ltac:(lia)).
  pose proof (Z.mod_pos_bound (y - 1) 100 ltac:(lia)).
  pose proof (Z.div_mod (y - 1) 400 ltac:(lia)).
  pose proof (Z.mod_pos_bound (y - 1) 400 ltac:(lia)).
  lia.
Qed.

Lemma days_before_month_bound (y m : Z) :
  1 <= m <= 12 -> 0 <= days_before_month y m <= 335.
Proof.
  intros H. unfold days_before_month.
  assert (Hm : m = 1 \/ m = 2 \/ m = 3 \/ m = 4 \/ m = 5 \/ m = 6 \/ m = 7 \/ m = 8
               \/ m = 9 \/ m = 10 \/ m = 11 \/ m = 12) by lia.
  generalize (is_leap y); intros leap.
  repeat (destruct Hm as [-> | Hm]); try subst m;
    destruct leap; vm_compute; try (split; discriminate); discriminate.
Qed.

Lemma days_in_month_bound (y m : Z) : 1 <= m <= 12 -> days_in_month y m <= 31.
Proof.
  intros H. unfold days_in_month.
  assert (Hm : m = 1 \/ m = 2 \/ m = 3 \/ m = 4 \/ m = 5 \/ m = 6 \/ m = 7 \/ m = 8
               \/ m = 9 \/ m = 10 \/ m = 11 \/ m = 12) by lia.
  generalize (is_leap y); intros leap.
  repeat (destruct Hm as [-> | Hm]); try subst m;
    destruct leap; vm_compute; try (split; discriminate); discriminate.
Qed.

Lemma valid_fields (t : datetime) :
  valid t = true ->
  (1 <= year t <= 9999 /\ 1 <= month t <= 12 /\ 1 <= day t <= days_in_month (year t) (month t))
  /\ (0 <= hour t <= 23 /\ 0 <= minute t <= 59 /\ 0 <= second t <= 59
      /\ 0 <= microsecond t <= 999999)
  /\ - 86400000000 < to_microseconds (utcoffset t) < 86400000000.
Proof.
  unfold valid, check_date_fields, check_time_fields, check_offset.
  rewrite !andb_true_iff, !Z.leb_le, !Z.ltb_lt. tauto.
Qed.

(** A valid datetime lies within the 10000 years the type covers. *)
Lemma instant_bound (t : datetime) :
  valid t = true -> 0 < instant t < 320000000000000000.
Proof.
  intros H. apply valid_fields in H.
  destruct H as [[Hy [Hm Hd]] [[Hh [Hmi [Hs Hus]]] Hoff]].
  pose proof (days_before_year_bound _ Hy).
  pose proof (days_before_month_bound (year t) _ Hm).
  pose proof (days_in_month_bound (year t) _ Hm).
  unfold instant, toordinal, ymd2ord. lia.
Qed.

Lemma replace_microsecond_0_valid (t : datetime) :
  valid t = true -> valid (replace_microsecond_0 t) = true.
Proof.
  intros H. pose proof (valid_fields t H) as [Hd [Ht Ho]].
  unfold valid in *. cbn [replace_microsecond_0 year month day hour minute second microsecond utcoffset].
  unfold check_time_fields in *.
  rewrite !andb_true_iff in *. rewrite !Z.leb_le in *. 
  repeat split; try tauto; lia.
Qed.

End DatetimeFacts.

Section Runs.

Lemma advance_0 (w : world) : advance 0 w = w.
Proof. destruct w; reflexivity. Qed.

Lemma advance_advance (j k : nat) (w : world) :
  advance j (advance k w) = advance (j + k) w.
Proof. unfold advance; cbn. f_equal. lia. Qed.

Lemma mask_sublist {A : Type} (keep : list bool) (l : list A) : sublist (mask keep l) l.
Proof.
  revert keep. induction l as [| x l IH]; intros keep.
  - destruct keep as [| [] ?]; constructor.
  - destruct keep as [| [] keep]; cbn.
    + clear IH. induction (x :: l); constructor; assumption.
    + constructor. apply IH.
    + constructor. apply IH.
Qed.

Lemma age_run (tag : Tag.t) (env : environment) (w : world) :
  Tag.age tag env w = (Tag.age_at (utcnow env (clock_reads w)) tag, advance 1 w).
Proof. reflexivity. Qed.

(** Whether the age of a tag can be computed does not depend on the clock. *)
Lemma age_at_ok (now now' : datetime) (tag : Tag.t) (a : timedelta) :
  Tag.age_at now tag = Ok a -> exists a', Tag.age_at now' tag = Ok a'.
Proof.
  unfold Tag.age_at. destruct (Tag.last_modified_datetime tag); [eauto | discriminate].
Qed.

Lemma filterM_cons {A : Type} (p : A -> M bool) (x : A) (l : list A)
    (env : environment) (w : world) :
  filterM p (x :: l) env w =
  match p x env w with
  | (Ok b, w1) =>
      match filterM p l env w1 with
      | (Ok xs, w2) => (Ok (if b then x :: xs else xs), w2)
      | (Raise e, w2) => (Raise e, w2)
      end
  | (Raise e, w1) => (Raise e, w1)
  end.
Proof. reflexivity. Qed.

Lemma is_expired_run (config : Config.t) (tag : Tag.t) (env : environment) (w : world) :
  is_expired config tag env w
  = (is_expired_at config (utcnow env (clock_reads w)) tag, advance 1 w).
Proof.
  unfold is_expired, is_expired_at, bind. rewrite age_run.
  destruct (Tag.age_at (utcnow env (clock_reads w)) tag); reflexivity.
Qed.

Lemma select_expired_filterM (config : Config.t) (tags : list Tag.t) :
  select_expired config tags = filterM (is_expired config) tags.
Proof. reflexivity. Qed.

(** What a successful run of line 38 has done. *)
Lemma select_expired_inv (config : Config.t) (env : environment) (tags : list Tag.t) :
  forall (w w' : world) (expired : list Tag.t),
    select_expired config tags env w = (Ok expired, w') ->
    w' = advance (List.length tags) w
    /\ exists keep : list bool,
         List.length keep = List.length tags
         /\ expired = mask keep tags
         /\ forall (i : nat) (tag : Tag.t),
              nth_error tags i = Some tag ->
              is_expired_at config (utcnow env (i + clock_reads w)) tag
              = Ok (nth i keep false).
Proof.
  rewrite select_expired_filterM.
  induction tags as [| tag tags IH]; intros w w' expired H.
  - cbn in H. injection H as <- <-. split; [symmetry; apply advance_0 |].
    exists []. repeat split. intros [| i] tag' Hn; discriminate.
  - rewrite filterM_cons, is_expired_run in H.
    destruct (is_expired_at config (utcnow env (clock_reads w)) tag) as [b | e] eqn:Hb;
      [| discriminate].
    destruct (filterM (is_expired config) tags env (advance 1 w)) as [[rest | e] w1] eqn:Hrest;
      [| discriminate].
    injection H as <- <-.
    destruct (IH _ _ _ Hrest) as [Hw [keep [Hlen [Hmask Hnth]]]].
    split.
    + rewrite Hw, advance_advance. f_equal. cbn. lia.
    + exists (b :: keep). split; [cbn; congruence |]. split.
      * cbn. rewrite Hmask. destruct b; reflexivity.
      * intros [| i] tag' Hn.
        -- injection Hn as <-. exact Hb.
        -- cbn in Hn. specialize (Hnth i tag' Hn).
           cbn [advance clock_reads] in Hnth.
           replace (S i + clock_reads w)%nat with (i + (1 + clock_reads w))%nat by lia.
           exact Hnth.
Qed.

(** The other direction: when the condition is defined for every tag,
    line 38 succeeds. *)
Lemma select_expired_run (config : Config.t) (env : environment) (tags : list Tag.t) :
  forall (w : world) (keep : list bool),
    List.length keep = List.length tags ->
    (forall (i : nat) (tag : Tag.t),
       nth_error tags i = Some tag ->
       is_expired_at config (utcnow env (i + clock_reads w)) tag = Ok (nth i keep false)) ->
    select_expired config tags env w = (Ok (mask keep tags), advance (List.length tags) w).
Proof.
  rewrite select_expired_filterM.
  induction tags as [| tag tags IH]; intros w keep Hlen H.
  - destruct keep; [| discriminate]. cbn. rewrite advance_0. reflexivity.
  - destruct keep as [| b keep]; [discriminate |].
    rewrite filterM_cons, is_expired_run.
    pose proof (H 0%nat tag eq_refl) as H0. cbn [nth Nat.add] in H0. rewrite H0.
    rewrite (IH (advance 1 w) keep).
    + rewrite advance_advance. cbn [mask List.length].
      replace (List.length tags + 1)%nat with (S (List.length tags)) by lia.
      destruct b; reflexivity.
    + cbn in Hlen. lia.
    + intros i tag' Hn. specialize (H (S i) tag' Hn). cbn [nth] in H.
      cbn [advance clock_reads].
      replace (i + (1 + clock_reads w))%nat with (S i + clock_reads w)%nat by lia.
      exact H.
Qed.

Lemma append_assoc (a b c : string) : (a ++ b) ++ c = a ++ b ++ c.
Proof. induction a as [| x a IH]; cbn; [reflexivity | rewrite IH; reflexivity]. Qed.

Lemma append_nil_r (a : string) : a ++ EmptyString = a.
Proof. induction a as [| x a IH]; cbn; [reflexivity | rewrite IH; reflexivity]. Qed.

Lemma forM_cons {A : Type} (x : A) (l : list A) (body : A -> M unit)
    (env : environment) (w : world) :
  forM (x :: l) body env w =
  match body x env w with
  | (Ok _, w1) => forM l body env w1
  | (Raise e, w1) => (Raise e, w1)
  end.
Proof. reflexivity. Qed.

(** One turn of the loop, when the two ages of the tag can be computed. *)
Lemma report_tag_run (config : Config.t) (endpoint : string)
    (headers : list (string * string)) (tag : Tag.t) (env : environment) (w : world)
    (a1 a2 : timedelta) :
  Tag.age_at (utcnow env (clock_reads w)) tag = Ok a1 ->
  Tag.age_at (utcnow env (S (clock_reads w))) tag = Ok a2 ->
  report_tag config endpoint headers tag env w =
  if truth (Config.purge config) then
    match registry env (List.length (requests w)) (delete_request endpoint headers tag) with
    | Ok _ =>
        (Ok tt,
         {| stdout := (stdout w ++ report_line config tag a1 a2 ++ "  ") ++ "deleted" ++ nl;
            requests := (requests w ++ [delete_request endpoint headers tag])%list;
            clock_reads := 2 + clock_reads w |})
    | Raise e =>
        (Raise e,
         {| stdout := stdout w ++ report_line config tag a1 a2 ++ "  ";
            requests := (requests w ++ [delete_request endpoint headers tag])%list;
            clock_reads := 2 + clock_reads w |})
    end
  else
    (Ok tt,
     {| stdout := stdout w ++ report_line config tag a1 a2 ++ nl;
        requests := requests w;
        clock_reads := 2 + clock_reads w |}).
Proof.
  intros H1 H2. unfold report_tag, bind.
  rewrite age_run, H1. cbv beta iota.
  rewrite age_run. cbn [advance clock_reads Nat.add]. rewrite H2.
  destruct (truth (Config.purge config)); cbn; [| reflexivity].
  fold (delete_request endpoint headers tag).
  destruct (registry env (List.length (requests w)) (delete_request endpoint headers tag));
    reflexivity.
Qed.

(** A turn of the loop raises what the age of the tag raises. *)
Lemma report_tag_no_age (config : Config.t) (endpoint : string)
    (headers : list (string * string)) (tag : Tag.t) (env : environment) (w : world)
    (e : exn) :
  Tag.last_modified_datetime tag = Raise e ->
  report_tag config endpoint headers tag env w = (Raise e, advance 1 w).
Proof.
  intros H. unfold report_tag, bind. rewrite age_run.
  unfold Tag.age_at. rewrite H. reflexivity.
Qed.

Lemma age_at_cases (tag : Tag.t) :
  (exists m, Tag.last_modified_datetime tag = Ok m
             /\ forall now, Tag.age_at now tag = Ok (sub (replace_microsecond_0 now) m))
  \/ (exists e, Tag.last_modified_datetime tag = Raise e).
Proof.
  unfold Tag.age_at. destruct (Tag.last_modified_datetime tag) as [m | e]; eauto.
Qed.

(** What a turn of the loop that ends normally has done. *)
Lemma report_tag_ok (config : Config.t) (endpoint : string)
    (headers : list (string * string)) (tag : Tag.t) (env : environment) (w w' : world) :
  report_tag config endpoint headers tag env w = (Ok tt, w') ->
  exists a1 a2 : timedelta,
    Tag.age_at (utcnow env (clock_reads w)) tag = Ok a1
    /\ Tag.age_at (utcnow env (S (clock_reads w))) tag = Ok a2
    /\ stdout w' = stdout w ++ report_line config tag a1 a2 ++ terminator config
    /\ clock_reads w' = (2 + clock_reads w)%nat
    /\ requests w' = if truth (Config.purge config)
                     then (requests w ++ [delete_request endpoint headers tag])%list
                     else requests w.
Proof.
  intros H. destruct (age_at_cases tag) as [[m [Hm Hage]] | [e He]].
  - exists (sub (replace_microsecond_0 (utcnow env (clock_reads w))) m),
           (sub (replace_microsecond_0 (utcnow env (S (clock_reads w)))) m).
    rewrite (report_tag_run _ _ _ _ _ _ _ _ (Hage _) (Hage _)) in H.
    split; [apply Hage |]. split; [apply Hage |].
    unfold terminator. destruct (truth (Config.purge config)).
    + destruct (registry env _ _); [| discriminate].
      injection H as <-. cbn [stdout requests clock_reads].
      rewrite !append_assoc. repeat split; reflexivity.
    + injection H as <-. cbn [stdout requests clock_reads]. repeat split; reflexivity.
  - rewrite (report_tag_no_age _ _ _ _ _ _ _ He) in H. discriminate.
Qed.

(** What a loop that ends normally has done: one line per tag, in order. *)
Lemma report_ok (config : Config.t) (endpoint : string)
    (headers : list (string * string)) (env : environment) (l : list Tag.t) :
  forall w w' : world,
    report config endpoint headers l env w = (Ok tt, w') ->
    exists lines : list string,
      Forall2 (is_line_of env config) l lines
      /\ stdout w' = stdout w ++ concat_all (map (fun ln => ln ++ terminator config) lines)
      /\ requests w' = if truth (Config.purge config)
                       then (requests w ++ map (delete_request endpoint headers) l)%list
                       else requests w.
Proof.
  unfold report. induction l as [| tag l IH]; intros w w' H.
  - cbn in H. injection H as <-. exists []. split; [constructor |].
    cbn. rewrite append_nil_r, app_nil_r. destruct (truth _); auto.
  - rewrite forM_cons in H.
    destruct (report_tag config endpoint headers tag env w) as [[[] | e] w1] eqn:Htag;
      [| discriminate].
    apply report_tag_ok in Htag. destruct Htag as [a1 [a2 [H1 [H2 [Hout [_ Hreq]]]]]].
    destruct (IH _ _ H) as [lines [Hlines [Hout' Hreq']]].
    exists (report_line config tag a1 a2 :: lines). split; [| split].
    + constructor; [| assumption]. do 2 eexists. exists a1, a2. eauto.
    + rewrite Hout', Hout. cbn [map concat_all]. rewrite !append_assoc. reflexivity.
    + rewrite Hreq', Hreq. destruct (truth _); [| reflexivity].
      cbn [map]. rewrite <- app_assoc. reflexivity.
Qed.

End Runs.


Section ArgparseFacts.
Import Argparse ArgparseSpec.

Lemma match_partial_length (run : list item) :
  forall (n : nat) (lead : list string) (cur : option (list string)),
    (List.length (fst (match_partial n lead cur run))
     <= count_positional run + match cur with Some _ => 1 | None => 0 end)%nat.
Proof.
  induction run as [| it run IH]; intros n lead cur.
  - cbn. destruct cur; cbn; lia.
  - destruct it as [a | | t]; cbn [match_partial].
    + destruct n as [| n'].
      * destruct cur; cbn; lia.
      * specialize (IH n' [] (Some (lead ++ [a])%list)).
        destruct (match_partial n' [] (Some (lead ++ [a])%list) run) as [groups left].
        cbn [fst] in *. rewrite length_app.
        unfold count_positional in *. cbn [filter is_positional List.length].
        destruct cur; cbn [List.length]; lia.
    + destruct cur as [g |].
      * specialize (IH n lead (Some (g ++ ["--"])%list)).
        unfold count_positional in *. cbn [filter is_positional]. exact IH.
      * specialize (IH n (lead ++ ["--"])%list None).
        unfold count_positional in *. cbn [filter is_positional]. exact IH.
    + destruct cur; cbn; lia.
Qed.

Lemma get_value_all_usage (p : positional) (l : list string) :
  usage_or (fun _ => True) (get_value_all p l).
Proof.
  induction l as [| a l IH]; cbn; [exact I |].
  destruct (type_ p a); [| reflexivity].
  destruct (get_value_all p l); [exact I | exact IH].
Qed.

Lemma get_values_usage (p : positional) (l : list string) :
  usage_or (fun _ => True) (get_values p l).
Proof.
  unfold get_values.
  pose proof (get_value_all_usage p (remove_first "--" l)) as H.
  destruct (remove_first "--" l) as [| a [| b l']].
  - destruct (get_value_all p []); [exact I | exact H].
  - destruct (type_ p a); [exact I | reflexivity].
  - destruct (get_value_all p (a :: b :: l')); [exact I | exact H].
Qed.

Lemma take_positionals_usage (groups : list (list string)) :
  forall (ps : list positional) (ns : namespace),
    usage_or (fun r => List.length ps <= List.length (fst r) + List.length groups)%nat
             (take_positionals ps groups ns).
Proof.
  induction groups as [| g groups IH]; intros ps ns.
  - destruct ps; cbn; lia.
  - destruct ps as [| p ps]; cbn [take_positionals].
    + cbn. lia.
    + pose proof (get_values_usage p g) as Hv.
      destruct (get_values p g) as [v | e]; [| exact Hv].
      specialize (IH ps (setattr ns (dest p) v)).
      destruct (take_positionals ps groups (setattr ns (dest p) v)) as [[ps' ns'] | e];
        cbn in *; [lia | exact IH].
Qed.

Lemma consume_positionals_usage (run : list item) (st : state) :
  usage_or (fun st' => List.length (positionals st)
                       <= List.length (positionals st') + count_positional run)%nat
           (consume_positionals run st).
Proof.
  unfold consume_positionals.
  pose proof (match_partial_length run (List.length (positionals st)) [] None) as Hlen.
  destruct (match_partial (List.length (positionals st)) [] None run) as [groups left].
  pose proof (take_positionals_usage groups (positionals st) (values st)) as Ht.
  destruct (take_positionals (positionals st) groups (values st)) as [[ps ns] | e];
    cbn in *; [lia | exact Ht].
Qed.

Lemma chain_usage (e : string) : usage_or (fun _ => True) (chain e).
Proof.
  induction e as [| c e IH]; [exact I |].
  cbn [chain].
  destruct (lookup_option (String "-" (str1 c)) option_string_actions); [| reflexivity].
  destruct e as [| d e]; [exact I |].
  destruct (c =? "-")%char; [reflexivity |].
  destruct (chain (String d e)); [exact I | exact IH].
Qed.

Lemma take_actions_no_help (l : list action) (ns : namespace) :
  existsb is_help l = false -> exists ns', take_actions l ns = Ok ns'.
Proof.
  revert ns. induction l as [| a l IH]; intros ns H; cbn; [eauto |].
  destruct a; cbn in H; [discriminate |]. apply IH. exact H.
Qed.

Lemma consume_optional_usage (t : option_tuple) (st : state) :
  asks_help (IO t) = false ->
  usage_or (fun st' => positionals st' = positionals st) (consume_optional t st).
Proof.
  destruct t as [[[a |] option_string] explicit_arg]; cbn [asks_help consume_optional];
    [| intros _; reflexivity].
  intros H.
  assert (Hu : usage_or (fun _ => True) (actions_of a option_string explicit_arg)).
  { unfold actions_of. destruct explicit_arg as [e |]; [| exact I].
    destruct (_ && _); [| reflexivity].
    pose proof (chain_usage e). destruct (chain e); [exact I | assumption]. }
  destruct (actions_of a option_string explicit_arg) as [l | e]; [| exact Hu].
  destruct (take_actions_no_help l (values st) H) as [ns' ->]. reflexivity.
Qed.

Lemma consume_usage (segs : list (option_tuple * list item)) :
  forall st : state,
    forallb (fun seg => negb (asks_help (IO (fst seg)))) segs = true ->
    usage_or (fun st' => List.length (positionals st)
                         <= List.length (positionals st') + count_in_segments segs)%nat
             (consume segs st).
Proof.
  induction segs as [| [t run] segs IH]; intros st H.
  - cbn. lia.
  - cbn [forallb fst] in H. apply andb_true_iff in H. destruct H as [Ht Hrest].
    apply negb_true_iff in Ht.
    cbn [consume count_in_segments].
    pose proof (consume_optional_usage t st Ht) as H1.
    destruct (consume_optional t st) as [st1 | e]; [| exact H1].
    pose proof (consume_positionals_usage run st1) as H2.
    destruct (consume_positionals run st1) as [st2 | e]; [| exact H2].
    specialize (IH st2 Hrest).
    destruct (consume segs st2) as [st3 | e]; [| exact IH].
    cbn in *. rewrite H1 in H2. lia.
Qed.

Lemma segments_count (items : list item) :
  count_positional items
  = (count_positional (fst (segments items)) + count_in_segments (snd (segments items)))%nat.
Proof.
  induction items as [| it items IH]; [reflexivity |].
  cbn [segments]. destruct (segments items) as [run segs]. cbn [fst snd] in IH.
  unfold count_positional in *.
  destruct it; cbn [fst snd filter is_positional List.length count_in_segments];
    unfold count_positional; lia.
Qed.

Lemma segments_no_help (items : list item) :
  existsb asks_help items = false ->
  forallb (fun seg => negb (asks_help (IO (fst seg)))) (snd (segments items)) = true.
Proof.
  induction items as [| it items IH]; [reflexivity |].
  cbn [existsb]. intros H. apply orb_false_iff in H. destruct H as [Hit Hrest].
  specialize (IH Hrest). cbn [segments]. destruct (segments items) as [run segs].
  destruct it; cbn [snd forallb fst] in *; try exact IH.
  rewrite Hit, IH. reflexivity.
Qed.


(** Two positional strings and nothing else: the second one is
    converted by [int]. *)
Lemma parse_args_two (max_str_digits : nat) (r a : string) :
  parse_optional r = Ok None -> parse_optional a = Ok None ->
  r <> "--" -> a <> "--" ->
  parse_args max_str_digits [r; a]
  = match int_of_str max_str_digits a with
    | Some n => Ok [("repository", PyStr r); ("age", PyInt n); ("purge", PyBool false)]
    | None => Raise (SystemExit 2)
    end.
Proof.
  intros Hr Ha Hr' Ha'. apply String.eqb_neq in Hr', Ha'.
  unfold parse_args. cbn [classify]. rewrite Hr', Ha', Hr, Ha.
  cbn [segments]. unfold consume_positionals.
  cbn [initial positionals List.length match_partial app fst snd values].
  cbn [take_positionals]. unfold get_values at 1. cbn [remove_first]. rewrite Hr'.
  cbn [repository_action type_ dest].
  unfold get_values. cbn [remove_first]. rewrite Ha'.
  cbn [age_action type_ dest option_map].
  destruct (int_of_str max_str_digits a); reflexivity.
Qed.


(** On a run of plain positional strings, [match_partial] gives each
    positional one string. *)
Lemma match_partial_plain (rs : list string) :
  forall (n : nat) (cur : option (list string)),
    match_partial n [] cur (map IA rs)
    = ((match cur with Some g => [g] | None => [] end
        ++ map (fun s => [s]) (firstn n rs))%list,
       (n <? List.length rs)%nat).
Proof.
  induction rs as [| r rs IH]; intros n cur.
  - rewrite firstn_nil. cbn. rewrite app_nil_r. reflexivity.
  - cbn [map match_partial]. destruct n as [| n].
    + cbn. rewrite app_nil_r. reflexivity.
    + rewrite IH. cbn. reflexivity.
Qed.

Lemma get_values_plain (p : positional) (s : string) :
  s <> "--" ->
  get_values p [s] = match type_ p s with Some v => Ok v | None => Raise (SystemExit 2) end.
Proof.
  intros H. apply String.eqb_neq in H. unfold get_values. cbn [remove_first].
  rewrite H. reflexivity.
Qed.




Lemma is_run_map (run : list item) :
  is_run run ->
  run = map IA (positional_strings run)
  /\ Forall (fun s => s <> "--") (positional_strings run).
Proof.
  induction 1 as [| it run Hit Hrun [IH1 IH2]]; [split; [reflexivity | constructor] |].
  destruct it as [s | | t]; try contradiction.
  cbn. split; [f_equal; exact IH1 | constructor; assumption].
Qed.


Lemma segments_plain (items : list item) :
  Forall plain items ->
  is_run (fst (segments items))
  /\ Forall (fun seg => is_run (snd seg)) (snd (segments items))
  /\ positional_strings items
     = (positional_strings (fst (segments items))
        ++ strings_in_segments (snd (segments items)))%list.
Proof.
  induction 1 as [| it items Hit Hitems [IH1 [IH2 IH3]]].
  - cbn. repeat split; constructor.
  - cbn [segments]. destruct (segments items) as [run segs]. cbn [fst snd] in *.
    destruct it as [s | | t]; cbn [fst snd positional_strings strings_in_segments].
    + repeat split; [constructor; assumption | assumption | cbn; f_equal; exact IH3].
    + contradiction.
    + repeat split; [constructor | constructor; assumption | exact IH3].
Qed.



End ArgparseFacts.

Section MainRuns.

Lemma mapM_lift {A B : Type} (f : A -> result B) (l : list A) (env : environment) (w : world) :
  mapM (fun x => lift (f x)) l env w = (traverse f l, w).
Proof.
  induction l as [| x l IH]; [reflexivity |].
  cbn [mapM traverse]. unfold bind at 1. unfold lift at 1.
  destruct (f x) as [y | e]; [| reflexivity].
  unfold bind. rewrite IH. destruct (traverse f l); reflexivity.
Qed.

Lemma list_tags_run (headers : list (string * string)) (endpoint : string)
    (env : environment) (w : world) :
  list_tags headers endpoint env w
  = (match answer env w (list_request endpoint headers) with
     | Ok data => tags_of data
     | Raise e => Raise e
     end, issued (list_request endpoint headers) w).
Proof.
  unfold list_tags, answer, tags_of. fold (list_request endpoint headers).
  unfold bind at 1. unfold urlopen. fold (issued (list_request endpoint headers) w).
  destruct (registry env (List.length (requests w)) (list_request endpoint headers))
    as [resp | e]; [| reflexivity].
  unfold bind at 1. unfold lift at 1.
  destruct (json_load resp) as [data | e]; [| reflexivity].
  unfold bind at 1. unfold lift at 1.
  destruct (getitem data "tags") as [v | e]; [| reflexivity].
  destruct (iter v) as [values | e]; [| reflexivity].
  apply mapM_lift.
Qed.

Lemma deserialize_config (args : Argparse.namespace) :
  deserialize (T := Config.t) (PyDict args) = Ok (config_of args).
Proof. reflexivity. Qed.

Lemma configure_run (env : environment) (w : world) :
  configure env w
  = match Argparse.parse_args (int_max_str_digits env) (argv env) with
    | Ok args =>
        match lookup "QUAY_TOKEN" (environ env) with
        | Some token =>
            (Ok (config_of args, headers_of token, endpoint_of (config_of args)), w)
        | None => (Raise (KeyError "QUAY_TOKEN"), w)
        end
    | Raise (SystemExit 0) =>
        (Raise (SystemExit 0),
         {| stdout := stdout w ++ help_message env ++ EmptyString;
            requests := requests w; clock_reads := clock_reads w |})
    | Raise e => (Raise e, w)
    end.
Proof.
  unfold configure. unfold bind at 1. unfold parse_args.
  destruct (Argparse.parse_args (int_max_str_digits env) (argv env)) as [args | e].
  - unfold bind at 1. unfold environ_getitem.
    destruct (lookup "QUAY_TOKEN" (environ env)); reflexivity.
  - destruct e as [status | | | | | | | |]; try reflexivity.
    destruct status as [| p | p]; try reflexivity.
Qed.

Lemma main_run (env : environment) (w : world) :
  main env w
  = match configure env w with
    | (Ok (config, headers, endpoint), w1) => list_filter_report config headers endpoint env w1
    | (Raise e, w1) => (Raise e, w1)
    end.
Proof.
  unfold main, bind. destruct (configure env w) as [[[[config headers] endpoint] | e] w1];
    reflexivity.
Qed.

Lemma list_filter_report_run (config : Config.t) (headers : list (string * string))
    (endpoint : string) (env : environment) (w : world) :
  list_filter_report config headers endpoint env w
  = match list_tags headers endpoint env w with
    | (Ok tags, w1) =>
        match select_expired config tags env w1 with
        | (Ok expired, w2) => report config endpoint headers expired env w2
        | (Raise e, w2) => (Raise e, w2)
        end
    | (Raise e, w1) => (Raise e, w1)
    end.
Proof. reflexivity. Qed.

(** The loop with [--purge] when the registry refuses a delete: the
    tags before it are deleted and reported, the tag itself is reported
    but not marked deleted, nothing is done for the tags after it. *)
Lemma report_delete_fails (config : Config.t) (endpoint : string)
    (headers : list (string * string)) (env : environment) (e : exn)
    (tag : Tag.t) (post : list Tag.t) (pre : list Tag.t) :
  forall w : world,
    truth (Config.purge config) = true ->
    (forall t, In t (pre ++ [tag])%list -> exists m, Tag.last_modified_datetime t = Ok m) ->
    (forall j t, nth_error pre j = Some t ->
       exists resp, registry env (List.length (requests w) + j)
                             (delete_request endpoint headers t) = Ok resp) ->
    registry env (List.length (requests w) + List.length pre)
             (delete_request endpoint headers tag) = Raise e ->
    exists (w' : world) (lines : list string) (ln : string),
      report config endpoint headers (pre ++ tag :: post)%list env w = (Raise e, w')
      /\ requests w' = (requests w ++ map (delete_request endpoint headers) (pre ++ [tag]))%list
      /\ Forall2 (is_line_of env config) pre lines
      /\ is_line_of env config tag ln
      /\ stdout w' = stdout w
                     ++ concat_all (map (fun l => l ++ "  " ++ "deleted" ++ nl) lines)
                     ++ ln ++ "  ".
Proof.
  induction pre as [| t pre IH]; intros w Hp Hparse Hok Hfail.
  - destruct (Hparse tag (or_introl eq_refl)) as [m Hm].
    assert (Hage : forall now, Tag.age_at now tag = Ok (sub (replace_microsecond_0 now) m)).
    { intros now. unfold Tag.age_at. rewrite Hm. reflexivity. }
    cbn [app]. unfold report. rewrite forM_cons.
    rewrite (report_tag_run _ _ _ _ _ _ _ _ (Hage _) (Hage _)), Hp.
    cbn [List.length] in Hfail. rewrite Nat.add_0_r in Hfail. rewrite Hfail.
    eexists; exists []; eexists. split; [reflexivity |].
    cbn [requests stdout map concat_all app]. split; [reflexivity |].
    split; [constructor |]. split.
    + do 2 eexists. eexists; eexists. split; [apply Hage |]. split; [apply Hage | reflexivity].
    + reflexivity.
  - destruct (Hparse t (or_introl eq_refl)) as [m Hm].
    assert (Hage : forall now, Tag.age_at now t = Ok (sub (replace_microsecond_0 now) m)).
    { intros now. unfold Tag.age_at. rewrite Hm. reflexivity. }
    cbn [app]. unfold report. rewrite forM_cons.
    rewrite (report_tag_run _ _ _ _ _ _ _ _ (Hage _) (Hage _)), Hp.
    destruct (Hok 0%nat t eq_refl) as [resp Hresp]. rewrite Nat.add_0_r in Hresp.
    rewrite Hresp.
    match goal with |- context [forM _ _ env ?w1] => set (w1' := w1) end.
    destruct (IH w1') as [w' [lines [ln [Hrun [Hreq [Hlines [Hln Hout]]]]]]].
    + exact Hp.
    + intros t' Hin. apply Hparse. right. exact Hin.
    + intros j t' Hn. subst w1'. cbn [requests]. rewrite length_app. cbn [List.length].
      destruct (Hok (S j) t' Hn) as [resp' Hr]. exists resp'.
      replace (List.length (requests w) + 1 + j)%nat
        with (List.length (requests w) + S j)%nat by lia.
      exact Hr.
    + subst w1'. cbn [requests]. rewrite length_app. cbn [List.length].
      replace (List.length (requests w) + 1 + List.length pre)%nat
        with (List.length (requests w) + List.length (t :: pre))%nat by (cbn; lia).
      exact Hfail.
    + exists w', (report_line config t
                    (sub (replace_microsecond_0 (utcnow env (clock_reads w))) m)
                    (sub (replace_microsecond_0 (utcnow env (S (clock_reads w)))) m) :: lines), ln.
      split; [exact Hrun |]. split; [| split; [| split]].
      * rewrite Hreq. subst w1'. cbn [requests app map]. rewrite <- app_assoc. reflexivity.
      * constructor; [| exact Hlines].
        do 2 eexists. eexists; eexists. split; [apply Hage |]. split; [apply Hage | reflexivity].
      * exact Hln.
      * rewrite Hout. subst w1'. cbn [stdout map concat_all].
        rewrite !append_assoc. reflexivity.
Qed.

End MainRuns.


(** * The properties of the specification *)


Section Claims.

Lemma is_expired_at_int (config : Config.t) (n : Z) (now : datetime) (tag : Tag.t) (b : bool) :
  Config.age config = PyInt n ->
  is_expired_at config now tag = Ok b ->
  exists a, Tag.age_at now tag = Ok a /\ b = Float.gt_int (total_seconds a) n.
Proof.
  intros Hn. unfold is_expired_at. rewrite Hn.
  destruct (Tag.age_at now tag) as [a | e]; [| discriminate].
  cbn. intros H. injection H as <-. eauto.
Qed.

End Claims.

(** C2.  The tags line 38 keeps are the fetched tags with some left out,
    in the order of the registry; a complete run of the loop prints one
    report line per tag kept, in that same order. *)
Theorem expired_order_and_lines (config : Config.t) (env : environment)
    (endpoint : string) (headers : list (string * string))
    (tags expired : list Tag.t) (w w1 w2 : world) :
  select_expired config tags env w = (Ok expired, w1) ->
  report config endpoint headers expired env w1 = (Ok tt, w2) ->
  sublist expired tags
  /\ exists lines : list string,
       Forall2 (is_line_of env config) expired lines
       /\ stdout w2 = stdout w ++ concat_all (map (fun ln => ln ++ terminator config) lines).
Proof.
  intros Hsel Hrep.
  destruct (select_expired_inv _ _ _ _ _ _ Hsel) as [Hw [keep [_ [Hmask _]]]].
  split.
  - rewrite Hmask. apply mask_sublist.
  - destruct (report_ok _ _ _ _ _ _ _ Hrep) as [lines [Hlines [Hout _]]].
    exists lines. split; [exact Hlines |]. rewrite Hout, Hw. reflexivity.
Qed.

Lemma expired_order_and_lines_witness :
  sublist [Example.v1; Example.v2] [Example.v1; Example.v2; Example.v3]
  /\ exists lines : list string,
       Forall2 (is_line_of (Example.env [] 9) (Example.config 0 false))
               [Example.v1; Example.v2] lines
       /\ "ansible/demo:v1  10  [0:00:10]" ++ nl ++ "ansible/demo:v2  11  [0:00:11]" ++ nl
          = EmptyString ++ concat_all (map (fun ln => ln ++ terminator (Example.config 0 false)) lines).
Proof.
  exact (expired_order_and_lines (Example.config 0 false) (Example.env [] 9)
           Example.endpoint Example.headers
           [Example.v1; Example.v2; Example.v3] [Example.v1; Example.v2]
           start (advance 3 start)
           {| stdout := "ansible/demo:v1  10  [0:00:10]" ++ nl
                        ++ "ansible/demo:v2  11  [0:00:11]" ++ nl;
              requests := []; clock_reads := 7 |}
           ltac:(vm_compute; reflexivity) ltac:(vm_compute; reflexivity)).
Defined.

(** C5.  One turn of the loop prints
    [{repository}:{tag name}  {age in whole seconds}  [{age}]].  Without
    [--purge] the line ends with a newline and no request is issued.
    With [--purge] the line is followed by two spaces, one DELETE
    request for the tag is issued, and [deleted] and a newline are
    printed if, and only once, that request has succeeded. *)
Theorem report_tag_line_and_delete (config : Config.t) (endpoint : string)
    (headers : list (string * string)) (tag : Tag.t) (env : environment) (w : world)
    (a1 a2 : timedelta) :
  Tag.age_at (utcnow env (clock_reads w)) tag = Ok a1 ->
  Tag.age_at (utcnow env (S (clock_reads w))) tag = Ok a2 ->
  let line := str (Config.repository config) ++ ":" ++ str (Tag.name tag) ++ "  "
              ++ int_str (Float.to_int (total_seconds a1)) ++ "  ["
              ++ timedelta_str a2 ++ "]" in
  let delete := {| url := endpoint ++ str (Tag.name tag); method := "DELETE";
                   headers := headers |} in
  (truth (Config.purge config) = false ->
   report_tag config endpoint headers tag env w
   = (Ok tt, {| stdout := stdout w ++ line ++ nl;
                requests := requests w;
                clock_reads := 2 + clock_reads w |}))
  /\ (truth (Config.purge config) = true ->
      forall resp, registry env (List.length (requests w)) delete = Ok resp ->
      report_tag config endpoint headers tag env w
      = (Ok tt, {| stdout := (stdout w ++ line ++ "  ") ++ "deleted" ++ nl;
                   requests := (requests w ++ [delete])%list;
                   clock_reads := 2 + clock_reads w |}))
  /\ (truth (Config.purge config) = true ->
      forall e, registry env (List.length (requests w)) delete = Raise e ->
      report_tag config endpoint headers tag env w
      = (Raise e, {| stdout := stdout w ++ line ++ "  ";
                     requests := (requests w ++ [delete])%list;
                     clock_reads := 2 + clock_reads w |})).
Proof.
  intros H1 H2 line delete.
  pose proof (report_tag_run config endpoint headers tag env w a1 a2 H1 H2) as Hrun.
  fold (report_line config tag a1 a2) in line.
  fold (delete_request endpoint headers tag) in delete.
  repeat split.
  - intros Hp. rewrite Hrun, Hp. reflexivity.
  - intros Hp resp Hresp. rewrite Hrun, Hp. subst delete. rewrite Hresp. reflexivity.
  - intros Hp e He. rewrite Hrun, Hp. subst delete. rewrite He. reflexivity.
Qed.

Lemma report_tag_line_and_delete_witness :
  report_tag (Example.config 0 false) Example.endpoint Example.headers Example.v1
             (Example.env [] 9) start
  = (Ok tt, {| stdout := "ansible/demo:v1  10  [0:00:10]" ++ nl;
               requests := []; clock_reads := 2 |})
  /\ report_tag (Example.config 0 true) Example.endpoint Example.headers Example.v1
                (Example.env [] 9) start
     = (Ok tt, {| stdout := "ansible/demo:v1  10  [0:00:10]  deleted" ++ nl;
                  requests := [{| url := "https://quay.io/api/v1/repository/ansible/demo/tag/v1";
                                  method := "DELETE"; headers := Example.headers |}];
                  clock_reads := 2 |})
  /\ report_tag (Example.config 0 true) Example.endpoint Example.headers Example.v1
                (Example.env [] 0) start
     = (Raise (HTTPError 401),
        {| stdout := "ansible/demo:v1  10  [0:00:10]  ";
           requests := [{| url := "https://quay.io/api/v1/repository/ansible/demo/tag/v1";
                           method := "DELETE"; headers := Example.headers |}];
           clock_reads := 2 |}).
Proof.
  pose (a := {| days := 0; seconds := 10; microseconds := 0 |}).
  split; [| split].
  - exact (proj1 (report_tag_line_and_delete (Example.config 0 false) Example.endpoint
                    Example.headers Example.v1 (Example.env [] 9) start a a
                    ltac:(vm_compute; reflexivity) ltac:(vm_compute; reflexivity))
                 eq_refl).
  - exact (proj1 (proj2 (report_tag_line_and_delete (Example.config 0 true) Example.endpoint
                    Example.headers Example.v1 (Example.env [] 9) start a a
                    ltac:(vm_compute; reflexivity) ltac:(vm_compute; reflexivity)))
                 eq_refl {| json_load := Ok Example.listing |} eq_refl).
  - exact (proj2 (proj2 (report_tag_line_and_delete (Example.config 0 true) Example.endpoint
                    Example.headers Example.v1 (Example.env [] 0) start a a
                    ltac:(vm_compute; reflexivity) ltac:(vm_compute; reflexivity)))
                 eq_refl (HTTPError 401) eq_refl).
Defined.

Section ClaimLemmas.

Lemma mask_In {A : Type} (keep : list bool) (l : list A) (x : A) :
  In x (mask keep l) -> In x l.
Proof.
  revert keep. induction l as [| y l IH]; intros keep H.
  - destruct keep as [| [] ?]; destruct H.
  - destruct keep as [| [] keep]; cbn in H.
    + destruct H.
    + destruct H as [-> | H]; [left; reflexivity | right; eapply IH; exact H].
    + right. eapply IH. exact H.
Qed.

(** Every tag line 38 has gone through has a last-modified time. *)
Lemma select_expired_parsed (config : Config.t) (env : environment)
    (tags expired : list Tag.t) (w w' : world) :
  select_expired config tags env w = (Ok expired, w') ->
  forall t, In t tags -> exists m, Tag.last_modified_datetime t = Ok m.
Proof.
  intros Hsel t Hin.
  destruct (select_expired_inv _ _ _ _ _ _ Hsel) as [_ [keep [_ [_ Hnth]]]].
  destruct (In_nth_error _ _ Hin) as [i Hi].
  specialize (Hnth i t Hi). unfold is_expired_at, Tag.age_at in Hnth.
  destruct (Tag.last_modified_datetime t) as [m | e]; [eauto | discriminate].
Qed.

Lemma configure_ok (env : environment) (w w0 : world)
    (c : Config.t * list (string * string) * string) :
  configure env w = (Ok c, w0) -> w0 = w.
Proof.
  rewrite configure_run.
  destruct (Argparse.parse_args _ _) as [args | e].
  - destruct (lookup _ _); intros H; [injection H as _ <-; reflexivity | discriminate].
  - destruct e as [[| p | p] | | | | | | | |]; discriminate.
Qed.

End ClaimLemmas.

(** C6.  When the list request fails -- [urlopen] raises, as it does for
    an HTTP status outside 2xx or for a network error, or the body is
    not JSON -- the run ends with that exception, having printed nothing
    and issued no other request.  When, with [--purge], the registry
    refuses the delete of an expired tag, the run ends with that
    exception: the tags before it have been deleted and reported, the
    tag itself is reported without [deleted], and no request is issued
    for the tags after it, nor a second one for any tag. *)
Theorem failures_abort (env : environment) (w : world) (config : Config.t)
    (headers : list (string * string)) (endpoint : string) (e : exn) :
  configure env w = (Ok (config, headers, endpoint), w) ->
  (answer env w (list_request endpoint headers) = Raise e ->
   main env w
   = (Raise e, {| stdout := stdout w;
                  requests := (requests w ++ [list_request endpoint headers])%list;
                  clock_reads := clock_reads w |}))
  /\ (forall (tags pre post : list Tag.t) (tag : Tag.t) (w0 w1 : world),
        truth (Config.purge config) = true ->
        list_tags headers endpoint env w = (Ok tags, w0) ->
        select_expired config tags env w0 = (Ok (pre ++ tag :: post)%list, w1) ->
        (forall j t, nth_error pre j = Some t ->
           exists resp, registry env (S (List.length (requests w)) + j)
                                 (delete_request endpoint headers t) = Ok resp) ->
        registry env (S (List.length (requests w)) + List.length pre)
                 (delete_request endpoint headers tag) = Raise e ->
        exists (w' : world) (lines : list string) (ln : string),
          main env w = (Raise e, w')
          /\ requests w'
             = (requests w ++ list_request endpoint headers
                  :: map (delete_request endpoint headers) (pre ++ [tag]))%list
          /\ Forall2 (is_line_of env config) pre lines
          /\ is_line_of env config tag ln
          /\ stdout w' = stdout w
                         ++ concat_all (map (fun l => l ++ "  " ++ "deleted" ++ nl) lines)
                         ++ ln ++ "  ").
Proof.
  intros Hconf. split.
  - intros Hans. rewrite main_run, Hconf, list_filter_report_run, list_tags_run, Hans.
    reflexivity.
  - intros tags pre post tag w0 w1 Hp Hlist Hsel Hok Hfail.
    pose proof Hlist as Hw0. rewrite list_tags_run in Hw0. injection Hw0 as _ Hw0.
    destruct (select_expired_inv _ _ _ _ _ _ Hsel) as [Hw1 [keep [_ [Hmask _]]]].
    assert (Hreq1 : requests w1 = (requests w ++ [list_request endpoint headers])%list).
    { rewrite Hw1, <- Hw0. reflexivity. }
    assert (Hout1 : stdout w1 = stdout w).
    { rewrite Hw1, <- Hw0. reflexivity. }
    assert (Hlen1 : List.length (requests w1) = S (List.length (requests w))).
    { rewrite Hreq1, length_app. cbn. lia. }
    destruct (report_delete_fails config endpoint headers env e tag post pre w1 Hp)
      as [w' [lines [ln [Hrun [Hreq [Hlines [Hln Hout]]]]]]].
    + intros t Hin. apply (select_expired_parsed _ _ _ _ _ _ Hsel).
      apply (mask_In keep). rewrite <- Hmask.
      apply in_app_iff. apply in_app_iff in Hin.
      destruct Hin as [Hin | [<- | []]]; [left; exact Hin | right; left; reflexivity].
    + intros j t Hn. rewrite Hlen1. apply Hok. exact Hn.
    + rewrite Hlen1. exact Hfail.
    + exists w', lines, ln.
      split; [| split; [| split; [| split]]].
      * rewrite main_run, Hconf, list_filter_report_run, Hlist, Hsel. exact Hrun.
      * rewrite Hreq, Hreq1, <- app_assoc. reflexivity.
      * exact Hlines.
      * exact Hln.
      * rewrite Hout, Hout1. reflexivity.
Qed.

Lemma failures_abort_witness :
  main (Example.env ["ansible/demo"; "0"; "--purge"] 0) start
  = (Raise (HTTPError 401),
     {| stdout := EmptyString;
        requests := [list_request Example.endpoint Example.headers];
        clock_reads := 0 |})
  /\ exists (w' : world) (lines : list string) (ln : string),
       main (Example.env ["ansible/demo"; "0"; "--purge"] 2) start
       = (Raise (HTTPError 401), w')
       /\ requests w'
          = [list_request Example.endpoint Example.headers;
             delete_request Example.endpoint Example.headers Example.v1;
             delete_request Example.endpoint Example.headers Example.v2]
       /\ Forall2 (is_line_of (Example.env ["ansible/demo"; "0"; "--purge"] 2)
                              (Example.config 0 true)) [Example.v1] lines
       /\ is_line_of (Example.env ["ansible/demo"; "0"; "--purge"] 2)
                     (Example.config 0 true) Example.v2 ln
       /\ stdout w' = EmptyString
                      ++ concat_all (map (fun l => l ++ "  " ++ "deleted" ++ nl) lines)
                      ++ ln ++ "  ".
Proof.
  split.
  - exact (proj1 (failures_abort (Example.env ["ansible/demo"; "0"; "--purge"] 0) start
                    (Example.config 0 true) Example.headers Example.endpoint
                    (HTTPError 401) ltac:(vm_compute; reflexivity))
                 ltac:(vm_compute; reflexivity)).
  - refine (proj2 (failures_abort (Example.env ["ansible/demo"; "0"; "--purge"] 2) start
                     (Example.config 0 true) Example.headers Example.endpoint
                     (HTTPError 401) ltac:(vm_compute; reflexivity))
                  [Example.v1; Example.v2; Example.v3] [Example.v1] [] Example.v2
                  (issued (list_request Example.endpoint Example.headers) start)
                  (advance 3 (issued (list_request Example.endpoint Example.headers) start))
                  eq_refl ltac:(vm_compute; reflexivity) ltac:(vm_compute; reflexivity)
                  _ ltac:(vm_compute; reflexivity)).
    intros j t Hn. destruct j as [| j]; [| destruct j; discriminate].
    eexists. vm_compute. reflexivity.
Defined.




Section MoreLemmas.

Lemma round_half_even_nonneg (num den : Z) :
  0 <= num -> 0 < den -> 0 <= Float.round_half_even num den.
Proof.
  intros Hn Hd. unfold Float.round_half_even.
  pose proof (Z.div_pos num den Hn Hd).
  destruct (2 * (num mod den) <? den); [assumption |].
  destruct (den <? 2 * (num mod den)); [lia |].
  destruct (Z.even (num / den)); lia.
Qed.

(** A duration that is not negative exceeds every negative threshold. *)
Lemma gt_int_negative (a : timedelta) (n : Z) :
  0 <= to_microseconds a -> n < 0 -> Float.gt_int (total_seconds a) n = true.
Proof.
  intros Ha Hn. rewrite total_seconds_eq. unfold Float.true_divide.
  destruct (to_microseconds a =? 0) eqn:E0.
  - cbn. apply Z.ltb_lt. lia.
  - apply Z.eqb_neq in E0.
    rewrite Z.sgn_pos by lia. rewrite Z.abs_eq by lia.
    set (e := Z.max (Float.ilog2 (to_microseconds a) 1000000 - 52) (-1074)).
    unfold Float.gt_int. cbn [Float.mant Float.expo].
    destruct (0 <=? e) eqn:Ee.
    + apply Z.leb_le in Ee.
      pose proof (round_half_even_nonneg (to_microseconds a) (1000000 * 2 ^ e) Ha
                    ltac:(pose proof (pow2_pos e Ee); lia)).
      pose proof (pow2_pos e Ee). apply Z.ltb_lt. nia.
    + apply Z.leb_gt in Ee.
      pose proof (pow2_pos (- e) ltac:(lia)) as Hp.
      pose proof (round_half_even_nonneg (to_microseconds a * 2 ^ (- e)) 1000000
                    ltac:(nia) ltac:(lia)).
      apply Z.ltb_lt. nia.
Qed.

Lemma mask_all {A : Type} (l : list A) : mask (repeat true (List.length l)) l = l.
Proof. induction l as [| x l IH]; cbn; [reflexivity | rewrite IH; reflexivity]. Qed.

Lemma nth_repeat_true (i n : nat) : (i < n)%nat -> nth i (repeat true n) false = true.
Proof.
  revert i. induction n as [| n IH]; intros i H; [lia |].
  destruct i as [| i]; cbn; [reflexivity | apply IH; lia].
Qed.

(** What [strptime] returns is a valid datetime of whole seconds. *)
Lemma strptime_valid (v : pyval) (m : datetime) :
  Strptime.strptime v = Ok m -> valid m = true /\ microsecond m = 0.
Proof.
  unfold Strptime.strptime. destruct v as [| | | s | |]; try discriminate.
  destruct (Strptime.re_match Strptime.format_regex s) as [[[| c rest] found] |];
    try discriminate.
  destruct (Strptime.of_groups found) as [t |] eqn:Hg; [| discriminate].
  intros H. injection H as <-.
  unfold Strptime.of_groups, Strptime.bind in Hg. cbv zeta in Hg.
  repeat match type of Hg with
         | match ?x with _ => _ end = Some _ => destruct x eqn:?; [| discriminate]
         end.
  injection Hg as <-. split; [assumption | reflexivity].
Qed.

Lemma mask_nth_In {A : Type} (x : A) (l : list A) :
  forall (keep : list bool) (i : nat),
    nth_error l i = Some x -> nth i keep false = true -> In x (mask keep l).
Proof.
  induction l as [| y l IH]; intros keep i Hi Hk.
  - destruct i; discriminate.
  - destruct keep as [| b keep]; [destruct i; discriminate |].
    destruct i as [| i]; cbn in Hi, Hk.
    + injection Hi as ->. subst b. left. reflexivity.
    + cbn [mask]. destruct b; [right |]; apply (IH keep i Hi Hk).
Qed.

(** [replace(microsecond=0)] takes the microseconds off the instant ... *)
Lemma instant_replace_microsecond_0 (now : datetime) :
  instant (replace_microsecond_0 now) = instant now - microsecond now.
Proof. unfold instant, toordinal. cbn. lia. Qed.

(** ... which, for a reading of the UTC clock, leaves the instant
    truncated to whole seconds. *)
Lemma instant_truncated (now : datetime) :
  valid now = true ->
  utcoffset now = mk_timedelta 0 0 0 ->
  instant now - microsecond now = 1000000 * (instant now / 1000000).
Proof.
  intros Hv Hutc. apply valid_fields in Hv.
  destruct Hv as [_ [[_ [_ [_ Hus]]] _]].
  unfold instant. rewrite Hutc. change (to_microseconds (mk_timedelta 0 0 0)) with 0.
  set (s := toordinal now * 86400 + (second now + minute now * 60 + hour now * 3600)).
  replace (s * 1000000 + microsecond now - 0) with (microsecond now + s * 1000000) by lia.
  rewrite Z.div_add by lia. rewrite (Z.div_small (microsecond now)) by lia. lia.
Qed.

End MoreLemmas.

(** C3, as the code has it.  A negative [age] is accepted like any
    other integer.  When line 38 goes through, each fetched tag whose
    age, at the moment the tag is examined, is not negative -- a tag not
    modified after that moment -- is selected, whatever the other tags
    are; so all tags are selected when none has a negative age. *)
Theorem negative_age_selects_tags_not_in_future :
  (forall (max_str_digits : nat) (r a : string) (n : Z),
     Argparse.parse_optional r = Ok None -> Argparse.parse_optional a = Ok None ->
     r <> "--" -> a <> "--" ->
     int_of_str max_str_digits a = Some n ->
     Argparse.parse_args max_str_digits [r; a]
     = Ok [("repository", PyStr r); ("age", PyInt n); ("purge", PyBool false)])
  /\ (forall (config : Config.t) (env : environment) (tags expired : list Tag.t)
             (w w' : world) (n : Z),
        Config.age config = PyInt n ->
        n < 0 ->
        select_expired config tags env w = (Ok expired, w') ->
        forall (i : nat) (tag : Tag.t),
          nth_error tags i = Some tag ->
          exists a, Tag.age_at (utcnow env (i + clock_reads w)) tag = Ok a
                    /\ (0 <= to_microseconds a -> In tag expired))
  /\ (forall (config : Config.t) (env : environment) (tags : list Tag.t) (w : world) (n : Z),
        Config.age config = PyInt n ->
        n < 0 ->
        (forall (i : nat) (tag : Tag.t),
           nth_error tags i = Some tag ->
           exists a, Tag.age_at (utcnow env (i + clock_reads w)) tag = Ok a
                     /\ 0 <= to_microseconds a) ->
        select_expired config tags env w = (Ok tags, advance (List.length tags) w)).
Proof.
  split; [| split].
  - intros max_str_digits r a n Hr Ha Hr' Ha' Hint.
    rewrite (parse_args_two _ _ _ Hr Ha Hr' Ha'), Hint. reflexivity.
  - intros config env tags expired w w' n Hn Hneg Hsel i tag Hi.
    destruct (select_expired_inv _ _ _ _ _ _ Hsel) as [_ [keep [_ [Hmask Hnth]]]].
    destruct (is_expired_at_int _ _ _ _ _ Hn (Hnth i tag Hi)) as [a [Ha Hb]].
    exists a. split; [exact Ha |]. intros Hpos.
    rewrite Hmask. apply (mask_nth_In tag tags keep i Hi).
    rewrite Hb. apply gt_int_negative; assumption.
  - intros config env tags w n Hn Hneg Hages.
    rewrite <- (mask_all tags) at 2.
    apply select_expired_run; [apply repeat_length |].
    intros i tag Hi. destruct (Hages i tag Hi) as [a [Ha Hpos]].
    unfold is_expired_at. rewrite Ha, Hn. cbn [float_gt].
    rewrite (gt_int_negative a n Hpos Hneg).
    rewrite nth_repeat_true; [reflexivity |].
    apply nth_error_Some. rewrite Hi. discriminate.
Qed.

Lemma negative_age_selects_tags_not_in_future_witness :
  Argparse.parse_args 4300%nat ["ansible/demo"; "-5"]
  = Ok [("repository", PyStr "ansible/demo"); ("age", PyInt (-5)); ("purge", PyBool false)]
  /\ (exists a, Tag.age_at Example.now Example.v1 = Ok a
                /\ (0 <= to_microseconds a -> In Example.v1 [Example.v1]))
  /\ select_expired (Example.config (-5) false) [Example.v1; Example.v2]
                    (Example.env [] 9) start
     = (Ok [Example.v1; Example.v2], advance 2 start).
Proof.
  split; [| split].
  - refine (proj1 negative_age_selects_tags_not_in_future 4300%nat "ansible/demo" "-5" (-5)
              ltac:(vm_compute; reflexivity) ltac:(vm_compute; reflexivity) _ _
              ltac:(vm_compute; reflexivity)); discriminate.
  - exact (proj1 (proj2 negative_age_selects_tags_not_in_future) (Example.config (-1) false)
             (Example.env [] 9) [Example.v3; Example.v1] [Example.v1] start (advance 2 start)
             (-1) eq_refl eq_refl ltac:(vm_compute; reflexivity) 1%nat Example.v1 eq_refl).
  - refine (proj2 (proj2 negative_age_selects_tags_not_in_future) (Example.config (-5) false)
              (Example.env [] 9) [Example.v1; Example.v2] start (-5) eq_refl eq_refl _).
    intros i tag Hi.
    destruct i as [| [| i]]; [| | destruct i; discriminate];
      injection Hi as <-;
      eexists; (split; [vm_compute; reflexivity | vm_compute; discriminate]).
Defined.

(** C3, as the specification words it, fails: with [age] -1 a tag
    modified ten seconds after the clock reading is not selected. *)
Lemma negative_age_leaves_future_tag_out :
  Config.age (Example.config (-1) false) = PyInt (-1)
  /\ -1 < 0
  /\ select_expired (Example.config (-1) false) [Example.v3] (Example.env [] 9) start
     = (Ok [], advance 1 start).
Proof. split; [reflexivity | split; [reflexivity | vm_compute; reflexivity]]. Qed.

(** C4, as the code has it.  [deserialize] gives each declared field the
    value the record binds to its name and [None] when the record has
    no such key; it never raises on a record, and keys that are not
    declared fields do not matter. *)
Theorem deserialize_reads_declared_fields (d : list (string * pyval)) :
  deserialize (T := Tag.t) (PyDict d)
  = Ok {| Tag.name := dict_get "name" d;
          Tag.reversion := dict_get "reversion" d;
          Tag.start_ts := dict_get "start_ts" d;
          Tag.manifest_digest := dict_get "manifest_digest" d;
          Tag.is_manifest_list := dict_get "is_manifest_list" d;
          Tag.size := dict_get "size" d;
          Tag.last_modified := dict_get "last_modified" d |}
  /\ deserialize (T := Config.t) (PyDict d)
     = Ok {| Config.repository := dict_get "repository" d;
             Config.age := dict_get "age" d;
             Config.purge := dict_get "purge" d |}
  /\ (forall key, dict_lookup key d = None -> dict_get key d = PyNone)
  /\ (forall key v, dict_lookup key d = Some v -> dict_get key d = v)
  /\ (forall d',
        (forall key, In key (fields (T := Tag.t)) -> dict_lookup key d' = dict_lookup key d) ->
        deserialize (T := Tag.t) (PyDict d') = deserialize (T := Tag.t) (PyDict d))
  /\ (forall d',
        (forall key, In key (fields (T := Config.t)) -> dict_lookup key d' = dict_lookup key d) ->
        deserialize (T := Config.t) (PyDict d') = deserialize (T := Config.t) (PyDict d)).
Proof.
  split; [reflexivity |]. split; [reflexivity |].
  split; [intros key H; unfold dict_get; rewrite H; reflexivity |].
  split; [intros key v H; unfold dict_get; rewrite H; reflexivity |].
  split; intros d' H; unfold deserialize; f_equal; f_equal;
    apply map_ext_in; intros key Hin; unfold dict_get; rewrite (H key Hin); reflexivity.
Qed.

Lemma deserialize_reads_declared_fields_witness :
  dict_get "size" [("name", PyStr "v1"); ("color", PyStr "red")] = PyNone
  /\ deserialize (T := Tag.t) (PyDict [("color", PyStr "red"); ("name", PyStr "v1")])
     = deserialize (T := Tag.t) (PyDict [("name", PyStr "v1"); ("color", PyStr "red")]).
Proof.
  split.
  - exact (proj1 (proj2 (proj2 (deserialize_reads_declared_fields
                                  [("name", PyStr "v1"); ("color", PyStr "red")])))
                 "size" eq_refl).
  - refine (proj1 (proj2 (proj2 (proj2 (proj2 (deserialize_reads_declared_fields
                                  [("name", PyStr "v1"); ("color", PyStr "red")])))))
                  [("color", PyStr "red"); ("name", PyStr "v1")] _).
    intros key Hin. cbn in Hin.
    repeat (destruct Hin as [<- | Hin]; [reflexivity |]). destruct Hin.
Defined.

(** C4, as the specification words it, fails: a field absent from the
    record is [None], not the empty string or zero. *)
Lemma absent_field_is_not_a_type_default :
  exists tag, deserialize (T := Tag.t) (PyDict []) = Ok tag
              /\ Tag.name tag = PyNone /\ Tag.name tag <> PyStr EmptyString
              /\ Tag.size tag = PyNone /\ Tag.size tag <> PyInt 0.
Proof.
  eexists. split; [reflexivity |]. cbn. repeat split; discriminate.
Qed.

(** C9.  Deserializing the record of a tag gives the tag back: the same
    [name], the same [last_modified], and the same age at every reading
    of the clock.  That age is the reading with its microseconds taken
    off -- for a reading of the UTC clock, the instant truncated to
    whole seconds -- minus the instant [last_modified] parses to; it is
    the error of [strptime] when [last_modified] does not parse. *)
Theorem tag_roundtrip (tag : Tag.t) :
  exists tag' : Tag.t,
    deserialize (T := Tag.t) (serialize tag) = Ok tag'
    /\ tag' = tag
    /\ Tag.name tag' = Tag.name tag
    /\ Tag.last_modified tag' = Tag.last_modified tag
    /\ (forall now, Tag.age_at now tag' = Tag.age_at now tag)
    /\ (forall env w, Tag.age tag' env w = Tag.age tag env w)
    /\ (forall now modified,
          Tag.last_modified_datetime tag = Ok modified ->
          exists a,
            Tag.age_at now tag' = Ok a
            /\ to_microseconds a = (instant now - microsecond now) - instant modified
            /\ (valid now = true -> utcoffset now = mk_timedelta 0 0 0 ->
                to_microseconds a = 1000000 * (instant now / 1000000) - instant modified))
    /\ (forall now e,
          Tag.last_modified_datetime tag = Raise e -> Tag.age_at now tag' = Raise e).
Proof.
  exists tag.
  split; [destruct tag; reflexivity |].
  split; [reflexivity |]. split; [reflexivity |]. split; [reflexivity |].
  split; [reflexivity |]. split; [reflexivity |]. split.
  - intros now modified Hm. unfold Tag.age_at. rewrite Hm. eexists. split; [reflexivity |].
    rewrite to_microseconds_datetime_sub, instant_replace_microsecond_0.
    split; [reflexivity |]. intros Hv Hutc. rewrite (instant_truncated now Hv Hutc). reflexivity.
  - intros now e He. unfold Tag.age_at. rewrite He. reflexivity.
Qed.

Lemma tag_roundtrip_witness :
  exists tag' : Tag.t,
    deserialize (T := Tag.t) (serialize Example.v1) = Ok tag'
    /\ exists a,
         Tag.age_at Example.now tag' = Ok a
         /\ to_microseconds a
            = 1000000 * (instant Example.now / 1000000) - instant Sample.modified_utc
         /\ to_microseconds a = 10 * 1000000.
Proof.
  destruct (tag_roundtrip Example.v1) as [tag' [Hd [_ [_ [_ [_ [_ [Hage _]]]]]]]].
  destruct (Hage Example.now Sample.modified_utc ltac:(vm_compute; reflexivity))
    as [a [Ha [_ Htrunc]]].
  exists tag'. split; [exact Hd |]. exists a. split; [exact Ha |].
  rewrite (Htrunc ltac:(vm_compute; reflexivity) ltac:(vm_compute; reflexivity)).
  split; vm_compute; reflexivity.
Defined.

(** C10, as the code has it.  When the UTC offset in [last_modified]
    has no fraction of a second, the age is a whole number of seconds
    and [int(tag.age.total_seconds())] is that number, exactly. *)
Theorem whole_offset_age_exact (tag : Tag.t) (now modified : datetime) (a : timedelta) :
  valid now = true ->
  utcoffset now = mk_timedelta 0 0 0 ->
  Tag.last_modified_datetime tag = Ok modified ->
  microseconds (utcoffset modified) = 0 ->
  Tag.age_at now tag = Ok a ->
  exists secs : Z,
    to_microseconds a = secs * 1000000
    /\ microseconds a = 0
    /\ Float.to_int (total_seconds a) = secs
    /\ (Float.to_Q (total_seconds a) == inject_Z secs)%Q.
Proof.
  intros Hvalid Hutc Hlm Hoff Hage.
  unfold Tag.age_at in Hage. rewrite Hlm in Hage. injection Hage as <-.
  destruct (strptime_valid _ _ Hlm) as [Hvm Hus].
  pose proof (instant_bound _ (replace_microsecond_0_valid _ Hvalid)) as Hb1.
  pose proof (instant_bound _ Hvm) as Hb2.
  rewrite datetime_sub_normal.
  set (now' := replace_microsecond_0 now) in *.
  (* both instants are whole seconds *)
  assert (H1 : exists k1, instant now' = k1 * 1000000).
  { exists (toordinal now' * 86400 + (second now' + minute now' * 60 + hour now' * 3600)).
    unfold instant. replace (utcoffset now') with (mk_timedelta 0 0 0) by (symmetry; exact Hutc).
    change (microsecond now') with 0.
    change (to_microseconds (mk_timedelta 0 0 0)) with 0. ring. }
  assert (H2 : exists k2, instant modified = k2 * 1000000).
  { exists (toordinal modified * 86400
            + (second modified + minute modified * 60 + hour modified * 3600)
            - (days (utcoffset modified) * 86400 + seconds (utcoffset modified))).
    unfold instant. rewrite Hus. unfold to_microseconds. rewrite Hoff. ring. }
  destruct H1 as [k1 Hk1]. destruct H2 as [k2 Hk2].
  exists (k1 - k2).
  assert (Hd : instant now' - instant modified = (k1 - k2) * 1000000) by (rewrite Hk1, Hk2; ring).
  rewrite Hd.
  assert (Hsmall : Z.abs (k1 - k2) < 2 ^ 53).
  { change (2 ^ 53) with 9007199254740992. lia. }
  split; [apply to_of_microseconds |].
  split; [rewrite microseconds_of_microseconds; apply Z.mod_mul; lia |].
  rewrite total_seconds_eq, to_of_microseconds.
  destruct (true_divide_multiple (k1 - k2) 1000000 ltac:(lia) Hsmall) as [p [Hp ->]].
  split; [apply to_int_scaled; exact Hp | apply to_Q_scaled; exact Hp].
Qed.

Lemma whole_offset_age_exact_witness :
  exists secs : Z,
    to_microseconds {| days := 0; seconds := 11; microseconds := 0 |} = secs * 1000000
    /\ microseconds {| days := 0; seconds := 11; microseconds := 0 |} = 0
    /\ Float.to_int (total_seconds {| days := 0; seconds := 11; microseconds := 0 |}) = secs
    /\ (Float.to_Q (total_seconds {| days := 0; seconds := 11; microseconds := 0 |})
        == inject_Z secs)%Q.
Proof.
  exact (whole_offset_age_exact Example.v2 Example.now
           {| year := 2006; month := 1; day := 2; hour := 16; minute := 4; second := 4;
              microsecond := 0; utcoffset := {| days := 0; seconds := 3600; microseconds := 0 |} |}
           {| days := 0; seconds := 11; microseconds := 0 |}
           ltac:(vm_compute; reflexivity) ltac:(vm_compute; reflexivity)
           ltac:(vm_compute; reflexivity) ltac:(vm_compute; reflexivity)
           ltac:(vm_compute; reflexivity)).
Defined.

(** C10, as the specification words it, fails: [%z] admits an offset
    with a fraction of a second, the age is then no whole number of
    seconds and [int] drops the fraction. *)
Lemma fractional_offset_age_not_whole :
  exists (modified : datetime) (a : timedelta),
    Strptime.strptime (Tag.last_modified Example.v4) = Ok modified
    /\ Tag.age_at Example.now Example.v4 = Ok a
    /\ to_microseconds a = 10500000
    /\ microseconds a = 500000
    /\ Float.to_int (total_seconds a) = 10
    /\ Float.to_int (total_seconds a) * 1000000 <> to_microseconds a.
Proof.
  do 2 eexists. split; [vm_compute; reflexivity |].
  split; [vm_compute; reflexivity |].
  vm_compute. repeat split; discriminate.
Qed.

Section TwoRuns.

Variables env1 env2 : environment.
Variable now : datetime.
Hypothesis clock1 : forall k, utcnow env1 k = now.
Hypothesis clock2 : forall k, utcnow env2 k = now.

Lemma select_expired_same (config : Config.t) (tags : list Tag.t) :
  forall w1 w2,
    fst (select_expired config tags env1 w1) = fst (select_expired config tags env2 w2).
Proof.
  rewrite select_expired_filterM.
  induction tags as [| tag tags IH]; intros w1 w2; [reflexivity |].
  rewrite !filterM_cons, !is_expired_run, clock1, clock2.
  destruct (is_expired_at config now tag) as [b | e]; [| reflexivity].
  specialize (IH (advance 1 w1) (advance 1 w2)).
  destruct (filterM (is_expired config) tags env1 (advance 1 w1)) as [[l1 | e1] w1'],
           (filterM (is_expired config) tags env2 (advance 1 w2)) as [[l2 | e2] w2'];
    cbn [fst snd] in *; try discriminate; try (injection IH as ->); reflexivity.
Qed.

Lemma report_dry_same (config : Config.t) (endpoint1 endpoint2 : string)
    (headers1 headers2 : list (string * string)) (l : list Tag.t) :
  truth (Config.purge config) = false ->
  forall w1 w2,
    stdout w1 = stdout w2 ->
    fst (report config endpoint1 headers1 l env1 w1)
    = fst (report config endpoint2 headers2 l env2 w2)
    /\ stdout (snd (report config endpoint1 headers1 l env1 w1))
       = stdout (snd (report config endpoint2 headers2 l env2 w2))
    /\ requests (snd (report config endpoint1 headers1 l env1 w1)) = requests w1
    /\ requests (snd (report config endpoint2 headers2 l env2 w2)) = requests w2.
Proof.
  intros Hp. unfold report. induction l as [| tag l IH]; intros w1 w2 Hout.
  - cbn. auto.
  - rewrite !forM_cons.
    destruct (age_at_cases tag) as [[m [Hm Hage]] | [e He]].
    + rewrite (report_tag_run _ _ _ _ env1 _ _ _ (Hage _) (Hage _)).
      rewrite (report_tag_run _ _ _ _ env2 _ _ _ (Hage _) (Hage _)).
      rewrite Hp, !clock1, !clock2.
      match goal with
      | |- context [forM l _ env1 ?a] => set (w1' := a)
      end.
      match goal with
      | |- context [forM l _ env2 ?a] => set (w2' := a)
      end.
      destruct (IH w1' w2') as [H1 [H2 [H3 H4]]].
      { subst w1' w2'. cbn [stdout]. rewrite Hout. reflexivity. }
      rewrite H1, H2, H3, H4. subst w1' w2'. cbn [requests]. auto.
    + rewrite !(report_tag_no_age _ _ _ _ _ _ _ He). cbn. auto.
Qed.

End TwoRuns.

Lemma select_expired_quiet (config : Config.t) (env : environment) (tags : list Tag.t) :
  forall w,
    stdout (snd (select_expired config tags env w)) = stdout w
    /\ requests (snd (select_expired config tags env w)) = requests w.
Proof.
  rewrite select_expired_filterM.
  induction tags as [| tag tags IH]; intros w; [cbn; auto |].
  rewrite filterM_cons, is_expired_run.
  destruct (is_expired_at config (utcnow env (clock_reads w)) tag) as [b | e]; [| cbn; auto].
  specialize (IH (advance 1 w)).
  destruct (filterM (is_expired config) tags env (advance 1 w)) as [[l | e] w'];
    cbn in *; exact IH.
Qed.

(** C8.  Without [--purge], listing, filtering and reporting issue the
    list request and no other, and two runs given the same answer to
    the list request and the same clock reading end the same way and
    print the same text. *)
Theorem dry_run_reads_only_and_repeats (config : Config.t) (now : datetime)
    (env1 env2 : environment) (headers1 headers2 : list (string * string))
    (endpoint1 endpoint2 : string) (w1 w2 : world) :
  truth (Config.purge config) = false ->
  (forall k, utcnow env1 k = now) ->
  (forall k, utcnow env2 k = now) ->
  answer env1 w1 (list_request endpoint1 headers1)
  = answer env2 w2 (list_request endpoint2 headers2) ->
  stdout w1 = stdout w2 ->
  let run1 := list_filter_report config headers1 endpoint1 env1 w1 in
  let run2 := list_filter_report config headers2 endpoint2 env2 w2 in
  fst run1 = fst run2
  /\ stdout (snd run1) = stdout (snd run2)
  /\ requests (snd run1) = (requests w1 ++ [list_request endpoint1 headers1])%list
  /\ requests (snd run2) = (requests w2 ++ [list_request endpoint2 headers2])%list.
Proof.
  intros Hp Hc1 Hc2 Hans Hout run1 run2. subst run1 run2.
  rewrite !list_filter_report_run, !list_tags_run, Hans.
  destruct (match answer env2 w2 (list_request endpoint2 headers2) with
            | Ok data => tags_of data
            | Raise e => Raise e
            end) as [tags | e]; [| cbn; auto].
  set (u1 := issued (list_request endpoint1 headers1) w1).
  set (u2 := issued (list_request endpoint2 headers2) w2).
  pose proof (select_expired_same env1 env2 now Hc1 Hc2 config tags u1 u2) as Hsame.
  destruct (select_expired_quiet config env1 tags u1) as [Ho1 Hr1].
  destruct (select_expired_quiet config env2 tags u2) as [Ho2 Hr2].
  destruct (select_expired config tags env1 u1) as [[l1 | e1] v1],
           (select_expired config tags env2 u2) as [[l2 | e2] v2];
    cbn [fst snd] in *; try discriminate.
  - injection Hsame as <-.
    destruct (report_dry_same env1 env2 now Hc1 Hc2 config endpoint1 endpoint2
                headers1 headers2 l1 Hp v1 v2) as [H1 [H2 [H3 H4]]].
    { rewrite Ho1, Ho2. subst u1 u2. cbn. exact Hout. }
    rewrite H1, H2, H3, H4, Hr1, Hr2. subst u1 u2. cbn. auto.
  - injection Hsame as <-. rewrite Ho1, Ho2, Hr1, Hr2. subst u1 u2. cbn. auto.
Qed.

Lemma dry_run_reads_only_and_repeats_witness :
  let run1 := list_filter_report (Example.config 0 false) Example.headers Example.endpoint
                                 (Example.env ["ansible/demo"; "0"] 9) start in
  let run2 := list_filter_report (Example.config 0 false) [("Authorization", "Bearer other")]
                                 Example.endpoint
                                 (Example.env_without_token []) (advance 5 start) in
  fst run1 = fst run2
  /\ stdout (snd run1) = stdout (snd run2)
  /\ requests (snd run1) = [list_request Example.endpoint Example.headers]
  /\ requests (snd run2)
     = [list_request Example.endpoint [("Authorization", "Bearer other")]].
Proof.
  exact (dry_run_reads_only_and_repeats (Example.config 0 false) Example.now
           (Example.env ["ansible/demo"; "0"] 9) (Example.env_without_token [])
           Example.headers [("Authorization", "Bearer other")]
           Example.endpoint Example.endpoint start (advance 5 start)
           eq_refl (fun _ => eq_refl) (fun _ => eq_refl)
           ltac:(vm_compute; reflexivity) eq_refl).
Defined.

(** * Further properties of the program *)

Section MoreRuns.

Lemma nth_repeat_false (i n : nat) : nth i (repeat false n) false = false.
Proof.
  revert i. induction n as [| n IH]; intros i; destruct i; cbn; auto.
Qed.

Lemma mask_none {A : Type} (l : list A) : mask (repeat false (List.length l)) l = [].
Proof. induction l as [| x l IH]; cbn; [reflexivity | exact IH]. Qed.

(** Line 38 stops at the first tag whose age cannot be computed. *)
Lemma select_expired_raises (config : Config.t) (env : environment) (e : exn)
    (bad : Tag.t) (post : list Tag.t) (pre : list Tag.t) :
  forall w : world,
    (forall i tag, nth_error pre i = Some tag ->
       exists b, is_expired_at config (utcnow env (i + clock_reads w)) tag = Ok b) ->
    Tag.last_modified_datetime bad = Raise e ->
    select_expired config (pre ++ bad :: post)%list env w
    = (Raise e, advance (S (List.length pre)) w).
Proof.
  rewrite select_expired_filterM.
  induction pre as [| tag pre IH]; intros w Hpre Hbad.
  - cbn [app]. rewrite filterM_cons, is_expired_run.
    unfold is_expired_at, Tag.age_at. rewrite Hbad. reflexivity.
  - cbn [app]. rewrite filterM_cons, is_expired_run.
    destruct (Hpre 0%nat tag eq_refl) as [b Hb]. cbn [Nat.add] in Hb. rewrite Hb.
    rewrite (IH (advance 1 w)).
    + rewrite advance_advance. cbn [List.length].
      replace (S (List.length pre) + 1)%nat with (S (S (List.length pre))) by lia.
      reflexivity.
    + intros i tag' Hi. destruct (Hpre (S i) tag' Hi) as [b' Hb']. exists b'.
      cbn [advance clock_reads].
      replace (i + (1 + clock_reads w))%nat with (S i + clock_reads w)%nat by lia.
      exact Hb'.
    + exact Hbad.
Qed.

End MoreRuns.

(** X1.  When no fetched tag is older than [config.age] -- in
    particular when the registry lists no tag -- the run ends normally
    after the list request, whether [--purge] is set or not: nothing is
    printed and nothing is deleted. *)
Theorem nothing_expired_nothing_done (env : environment) (w : world) (config : Config.t)
    (headers : list (string * string)) (endpoint : string) (data : pyval)
    (tags : list Tag.t) :
  configure env w = (Ok (config, headers, endpoint), w) ->
  answer env w (list_request endpoint headers) = Ok data ->
  tags_of data = Ok tags ->
  (forall i tag, nth_error tags i = Some tag ->
     is_expired_at config (utcnow env (i + clock_reads w)) tag = Ok false) ->
  main env w
  = (Ok tt, {| stdout := stdout w;
               requests := (requests w ++ [list_request endpoint headers])%list;
               clock_reads := List.length tags + clock_reads w |}).
Proof.
  intros Hconf Hans Htags Hnone.
  rewrite main_run, Hconf, list_filter_report_run, list_tags_run, Hans, Htags.
  rewrite (select_expired_run config env tags _ (repeat false (List.length tags))).
  - rewrite mask_none. reflexivity.
  - apply repeat_length.
  - intros i tag Hi. rewrite nth_repeat_false. apply Hnone. exact Hi.
Qed.

Lemma nothing_expired_nothing_done_witness :
  main (Example.env ["ansible/demo"; "60"; "--purge"] 9) start
  = (Ok tt, {| stdout := EmptyString;
               requests := [list_request Example.endpoint Example.headers];
               clock_reads := 3 |}).
Proof.
  refine (nothing_expired_nothing_done
            (Example.env ["ansible/demo"; "60"; "--purge"] 9) start
            (Example.config 60 true) Example.headers Example.endpoint Example.listing
            [Example.v1; Example.v2; Example.v3]
            ltac:(vm_compute; reflexivity) ltac:(vm_compute; reflexivity)
            ltac:(vm_compute; reflexivity) _).
  intros i tag Hi.
  destruct i as [| [| [| i]]]; [| | | destruct i; discriminate];
    injection Hi as <-; vm_compute; reflexivity.
Defined.

(** X2.  A fetched tag whose [last_modified] is absent or does not
    parse ends the run while line 38 goes through the tags, hence before
    any line is printed and before any tag is deleted, also with
    [--purge] and also when tags before it are expired. *)
Theorem unparseable_tag_aborts_before_output (env : environment) (w : world)
    (config : Config.t) (headers : list (string * string)) (endpoint : string)
    (data : pyval) (pre post : list Tag.t) (bad : Tag.t) (e : exn) :
  answer env w (list_request endpoint headers) = Ok data ->
  tags_of data = Ok (pre ++ bad :: post)%list ->
  (forall i tag, nth_error pre i = Some tag ->
     exists b, is_expired_at config (utcnow env (i + clock_reads w)) tag = Ok b) ->
  Tag.last_modified_datetime bad = Raise e ->
  list_filter_report config headers endpoint env w
  = (Raise e, {| stdout := stdout w;
                 requests := (requests w ++ [list_request endpoint headers])%list;
                 clock_reads := S (List.length pre) + clock_reads w |}).
Proof.
  intros Hans Htags Hpre Hbad.
  rewrite list_filter_report_run, list_tags_run, Hans, Htags.
  rewrite (select_expired_raises config env e bad post pre
             (issued (list_request endpoint headers) w) Hpre Hbad).
  reflexivity.
Qed.

Lemma unparseable_tag_aborts_before_output_witness :
  list_filter_report (Example.config 0 true) Example.headers Example.endpoint
    (Sample.env [] Sample.listing) start
  = (Raise TypeError,
     {| stdout := EmptyString;
        requests := [list_request Example.endpoint Example.headers];
        clock_reads := 2 |}).
Proof.
  refine (unparseable_tag_aborts_before_output (Sample.env [] Sample.listing) start
            (Example.config 0 true) Example.headers Example.endpoint Sample.listing
            [Example.v1] [] Sample.bare TypeError
            ltac:(vm_compute; reflexivity) ltac:(vm_compute; reflexivity) _
            ltac:(vm_compute; reflexivity)).
  intros i tag Hi. destruct i as [| i]; [| destruct i; discriminate].
  injection Hi as <-. exists true. vm_compute. reflexivity.
Defined.

Section MoreFacts.

Lemma traverse_not_object (x : pyval) (values : list pyval) :
  In x values -> (forall d, x <> PyDict d) ->
  traverse (deserialize (T := Tag.t)) values = Raise AttributeError.
Proof.
  intros Hin Hx. induction values as [| y values IH]; [destruct Hin |].
  cbn [traverse]. destruct y as [| b | n | s | l | d]; try reflexivity.
  destruct Hin as [Heq | Hin]; [exfalso; apply (Hx d); symmetry; exact Heq |].
  cbn [deserialize]. rewrite (IH Hin). reflexivity.
Qed.

Lemma tags_of_malformed (data : pyval) (e : exn) : malformed data e -> tags_of data = Raise e.
Proof.
  intros H. unfold tags_of. destruct H as [data H | d H | d v e H Hv | d v x values H Hv Hin Hx].
  - destruct data as [| b | n | s | l | d]; try reflexivity.
    exfalso. apply (H d). reflexivity.
  - cbn [getitem]. rewrite H. reflexivity.
  - cbn [getitem]. rewrite H, Hv. reflexivity.
  - cbn [getitem]. rewrite H, Hv. apply (traverse_not_object x); assumption.
Qed.

Lemma gt_int_antitone (x : Float.float) (n n' : Z) :
  n <= n' -> Float.gt_int x n' = true -> Float.gt_int x n = true.
Proof.
  unfold Float.gt_int. intros Hn. destruct (0 <=? Float.expo x) eqn:E.
  - rewrite !Z.ltb_lt. lia.
  - apply Z.leb_gt in E. pose proof (pow2_pos (- Float.expo x) ltac:(lia)).
    rewrite !Z.ltb_lt. nia.
Qed.

(** [int(x)] is not below an [int] that [x] exceeds. *)
Lemma gt_int_to_int (x : Float.float) (n : Z) :
  Float.gt_int x n = true -> n <= Float.to_int x.
Proof.
  unfold Float.gt_int, Float.to_int. destruct (0 <=? Float.expo x) eqn:E.
  - rewrite Z.ltb_lt. lia.
  - apply Z.leb_gt in E. pose proof (pow2_pos (- Float.expo x) ltac:(lia)) as Hp.
    rewrite Z.ltb_lt. set (b := 2 ^ (- Float.expo x)) in *. intros H.
    destruct (Z.le_gt_cases 0 (Float.mant x)) as [Hm | Hm].
    + rewrite Z.quot_div_nonneg by lia. apply Z.div_le_lower_bound; lia.
    + rewrite <- (Z.opp_involutive (Float.mant x)).
      rewrite Z.quot_opp_l by lia. rewrite Z.quot_div_nonneg by lia.
      assert (- Float.mant x / b < - n) by (apply Z.div_lt_upper_bound; lia).
      lia.
Qed.

Lemma In_mask_nth {A : Type} (x : A) (l : list A) :
  forall keep : list bool,
    In x (mask keep l) -> exists i, nth_error l i = Some x /\ nth i keep false = true.
Proof.
  induction l as [| y l IH]; intros keep H.
  - destruct keep; destruct H.
  - destruct keep as [| b keep]; [destruct H |]. cbn [mask] in H.
    destruct b.
    + destruct H as [-> | H]; [exists 0%nat; split; reflexivity |].
      destruct (IH keep H) as [i [Hi Hk]]. exists (S i). split; assumption.
    + destruct (IH keep H) as [i [Hi Hk]]. exists (S i). split; assumption.
Qed.

End MoreFacts.

(** X3.  When the decoded answer to the list request is not an object
    ([TypeError]), has no [tags] ([KeyError]), has a [tags] that cannot
    be iterated ([TypeError]), or lists something that is not an object
    -- a [tags] that is a string or an object included -- ([AttributeError]),
    the run ends in that exception after the list request alone. *)
Theorem malformed_listing_aborts (env : environment) (w : world) (config : Config.t)
    (headers : list (string * string)) (endpoint : string) (data : pyval) (e : exn) :
  answer env w (list_request endpoint headers) = Ok data ->
  malformed data e ->
  list_filter_report config headers endpoint env w
  = (Raise e, issued (list_request endpoint headers) w).
Proof.
  intros Hans Hbad.
  rewrite list_filter_report_run, list_tags_run, Hans, (tags_of_malformed data e Hbad).
  reflexivity.
Qed.

Lemma malformed_listing_aborts_witness :
  list_filter_report (Example.config 0 true) Example.headers Example.endpoint
    (Sample.env [] (PyDict [("tags", PyStr "v1")])) start
  = (Raise AttributeError, issued (list_request Example.endpoint Example.headers) start).
Proof.
  refine (malformed_listing_aborts (Sample.env [] (PyDict [("tags", PyStr "v1")])) start
            (Example.config 0 true) Example.headers Example.endpoint
            (PyDict [("tags", PyStr "v1")]) AttributeError
            ltac:(vm_compute; reflexivity)
            (element_not_object [("tags", PyStr "v1")] (PyStr "v1") (PyStr "v")
               [PyStr "v"; PyStr "1"] ltac:(vm_compute; reflexivity)
               ltac:(vm_compute; reflexivity) ltac:(left; reflexivity) _)).
  intros d' H. discriminate H.
Defined.

(** X4.  Raising the threshold can only shrink the selection: for the
    same tags and the same readings of the clock, the tags line 38
    selects for an [age] of [n'] are among those it selects for an
    [age] of [n <= n'], in the same order. *)
Theorem higher_threshold_selects_fewer (config config' : Config.t) (n n' : Z)
    (env : environment) (tags : list Tag.t) :
  Config.age config = PyInt n -> Config.age config' = PyInt n' -> n <= n' ->
  forall (w w1 : world) (expired : list Tag.t),
    select_expired config tags env w = (Ok expired, w1) ->
    exists expired' : list Tag.t,
      select_expired config' tags env w = (Ok expired', w1)
      /\ sublist expired' expired.
Proof.
  intros Hn Hn' Hle. rewrite !select_expired_filterM.
  induction tags as [| tag tags IH]; intros w w1 expired H.
  - cbn in H. injection H as <- <-. exists []. split; [reflexivity | constructor].
  - rewrite filterM_cons, is_expired_run in H. rewrite filterM_cons, is_expired_run.
    destruct (is_expired_at config (utcnow env (clock_reads w)) tag) as [b | e] eqn:Hb;
      [| discriminate].
    destruct (filterM (is_expired config) tags env (advance 1 w)) as [[rest | e] w2] eqn:Hrest;
      [| discriminate].
    injection H as <- <-.
    destruct (IH _ _ _ Hrest) as [rest' [Hrest' Hsub]].
    destruct (is_expired_at_int config n _ tag b Hn Hb) as [a [Ha ->]].
    unfold is_expired_at. rewrite Ha, Hn'. cbn [float_gt]. rewrite Hrest'.
    destruct (Float.gt_int (total_seconds a) n') eqn:G'.
    + rewrite (gt_int_antitone _ n n' Hle G'). eexists. split; [reflexivity |].
      constructor. exact Hsub.
    + eexists. split; [reflexivity |].
      destruct (Float.gt_int (total_seconds a) n); [constructor |]; exact Hsub.
Qed.

Lemma higher_threshold_selects_fewer_witness :
  exists expired' : list Tag.t,
    select_expired (Example.config 10 false) [Example.v1; Example.v2; Example.v3]
      (Example.env [] 9) start
    = (Ok expired', advance 3 start)
    /\ sublist expired' [Example.v1; Example.v2].
Proof.
  exact (higher_threshold_selects_fewer (Example.config 9 false) (Example.config 10 false)
           9 10 (Example.env [] 9) [Example.v1; Example.v2; Example.v3]
           eq_refl eq_refl ltac:(lia) start (advance 3 start) [Example.v1; Example.v2]
           ltac:(vm_compute; reflexivity)).
Defined.

(** X5.  The age of a tag depends on the instant of its
    [last_modified] only, not on the UTC offset it is written with: two
    tags last modified at the same instant have, at every reading of the
    clock, the same age, and line 38 treats them alike. *)
Theorem age_depends_on_instant_only (tag1 tag2 : Tag.t) (m1 m2 : datetime) :
  Tag.last_modified_datetime tag1 = Ok m1 ->
  Tag.last_modified_datetime tag2 = Ok m2 ->
  instant m1 = instant m2 ->
  forall (now : datetime) (config : Config.t),
    Tag.age_at now tag1 = Tag.age_at now tag2
    /\ is_expired_at config now tag1 = is_expired_at config now tag2.
Proof.
  intros H1 H2 Hi now config.
  assert (H : Tag.age_at now tag1 = Tag.age_at now tag2).
  { unfold Tag.age_at. rewrite H1, H2, !datetime_sub_normal, Hi. reflexivity. }
  split; [exact H |]. unfold is_expired_at. rewrite H. reflexivity.
Qed.

Lemma age_depends_on_instant_only_witness :
  Tag.age_at Example.now Example.v1 = Tag.age_at Example.now Sample.v1_cet
  /\ is_expired_at (Example.config 9 false) Example.now Example.v1
     = is_expired_at (Example.config 9 false) Example.now Sample.v1_cet.
Proof.
  exact (age_depends_on_instant_only Example.v1 Sample.v1_cet
           Sample.modified_utc Sample.modified_cet
           ltac:(vm_compute; reflexivity) ltac:(vm_compute; reflexivity)
           ltac:(vm_compute; reflexivity) Example.now (Example.config 9 false)).
Defined.

Section LoopFacts.

Lemma starts_nil {A : Type} (l : list A) : starts [] l.
Proof. exists l. reflexivity. Qed.

Lemma starts_cons {A : Type} (x : A) (l1 l2 : list A) : starts l1 l2 -> starts (x :: l1) (x :: l2).
Proof. intros [rest ->]. exists rest. reflexivity. Qed.

(** However the loop ends, it has asked to delete the tags of a
    beginning of its list, one request each, and none in a dry run. *)
Lemma report_any (config : Config.t) (endpoint : string) (headers : list (string * string))
    (env : environment) (l : list Tag.t) :
  forall (w w' : world) (r : result unit),
    report config endpoint headers l env w = (r, w') ->
    exists attempted : list Tag.t,
      starts attempted l
      /\ requests w' = (requests w ++ map (delete_request endpoint headers) attempted)%list
      /\ (truth (Config.purge config) = false -> attempted = []).
Proof.
  unfold report. induction l as [| tag l IH]; intros w w' r H.
  - cbn in H. injection H as <- <-. exists []. rewrite app_nil_r.
    repeat split. apply starts_nil.
  - rewrite forM_cons in H.
    destruct (age_at_cases tag) as [[m [Hm Hage]] | [e He]].
    + rewrite (report_tag_run _ _ _ _ _ _ _ _ (Hage _) (Hage _)) in H.
      destruct (truth (Config.purge config)) eqn:P.
      * destruct (registry env _ _) as [resp | e].
        -- destruct (IH _ _ _ H) as [att [Hs [Hr _]]].
           exists (tag :: att). split; [apply starts_cons; exact Hs |].
           split; [| discriminate].
           rewrite Hr. cbn [requests map]. rewrite <- app_assoc. reflexivity.
        -- injection H as <- <-. exists [tag]. split; [apply starts_cons, starts_nil |].
           split; [reflexivity | discriminate].
      * destruct (IH _ _ _ H) as [att [Hs [Hr Hnone]]].
        rewrite (Hnone eq_refl) in *. exists []. split; [apply starts_nil |].
        split; [exact Hr | reflexivity].
    + rewrite (report_tag_no_age _ _ _ _ _ _ _ He) in H. injection H as <- <-.
      exists []. split; [apply starts_nil |]. cbn. rewrite app_nil_r. split; reflexivity.
Qed.

Lemma select_expired_requests (config : Config.t) (env : environment) (tags : list Tag.t)
    (w w' : world) (r : result (list Tag.t)) :
  select_expired config tags env w = (r, w') -> requests w' = requests w.
Proof.
  intros H. pose proof (select_expired_quiet config env tags w) as [_ Hq].
  rewrite H in Hq. exact Hq.
Qed.


Lemma Forall2_impl_In {A B : Type} (R R' : A -> B -> Prop) (l : list A) (l' : list B) :
  (forall x y, In x l -> R x y -> R' x y) -> Forall2 R l l' -> Forall2 R' l l'.
Proof.
  intros H F. induction F as [| x y l l' Hxy F IH]; constructor.
  - apply H; [left; reflexivity | exact Hxy].
  - apply IH. intros x' y' Hin. apply H. right. exact Hin.
Qed.

End LoopFacts.


(** X6.  However lines 32 to 46 end, the requests they have issued are
    the list request followed by one delete request for each tag of a
    beginning of the list line 38 selected, in its order; none in a dry
    run.  A tag line 38 did not select is never deleted, and no tag is
    asked to be deleted twice for one entry of the listing. *)
Theorem deletes_only_selected_tags (config : Config.t) (headers : list (string * string))
    (endpoint : string) (env : environment) (w : world) :
  exists attempted : list Tag.t,
    requests (snd (list_filter_report config headers endpoint env w))
    = (requests w ++ list_request endpoint headers
                     :: map (delete_request endpoint headers) attempted)%list
    /\ (truth (Config.purge config) = false -> attempted = [])
    /\ (attempted = []
        \/ exists (data : pyval) (tags expired : list Tag.t) (w1 : world),
             answer env w (list_request endpoint headers) = Ok data
             /\ tags_of data = Ok tags
             /\ select_expired config tags env (issued (list_request endpoint headers) w)
                = (Ok expired, w1)
             /\ sublist expired tags
             /\ starts attempted expired).
Proof.
  rewrite list_filter_report_run, list_tags_run.
  destruct (answer env w (list_request endpoint headers)) as [data | e] eqn:Hans.
  2:{ exists []. cbn. auto. }
  destruct (tags_of data) as [tags | e] eqn:Htags.
  2:{ exists []. cbn. auto. }
  destruct (select_expired config tags env (issued (list_request endpoint headers) w))
    as [[expired | e] w1] eqn:Hsel.
  2:{ exists []. cbn [snd]. rewrite (select_expired_requests _ _ _ _ _ _ Hsel). cbn. auto. }
  destruct (report config endpoint headers expired env w1) as [r w2] eqn:Hrep.
  destruct (report_any _ _ _ _ _ _ _ _ Hrep) as [att [Hs [Hr Hnone]]].
  exists att. cbn [snd]. rewrite Hr, (select_expired_requests _ _ _ _ _ _ Hsel).
  cbn [issued requests]. rewrite <- app_assoc. split; [reflexivity |].
  split; [exact Hnone |]. right. exists data, tags, expired, w1.
  repeat split; try assumption.
  destruct (select_expired_inv _ _ _ _ _ _ Hsel) as [_ [keep [_ [-> _]]]].
  apply mask_sublist.
Qed.


Section DryAndPurge.

Variables (dry purging : Config.t) (endpoint : string) (headers : list (string * string))
          (env : environment).
Hypothesis same_repository : Config.repository dry = Config.repository purging.
Hypothesis same_age : Config.age dry = Config.age purging.
Hypothesis is_dry : truth (Config.purge dry) = false.
Hypothesis is_purging : truth (Config.purge purging) = true.

Lemma select_expired_age : forall tags, select_expired dry tags = select_expired purging tags.
Proof. intros tags. unfold select_expired. rewrite same_age. reflexivity. Qed.

Lemma report_line_repository (tag : Tag.t) (a1 a2 : timedelta) :
  report_line dry tag a1 a2 = report_line purging tag a1 a2.
Proof. unfold report_line. rewrite same_repository. reflexivity. Qed.

(** The loop of a purge that the registry lets through, beside the loop
    of a dry run over the same tags at the same readings of the clock. *)
Lemma report_dry_purge (l : list Tag.t) :
  forall wd wp wd' : world,
    clock_reads wd = clock_reads wp ->
    (forall k r, (List.length (requests wp) <= k)%nat -> exists resp, registry env k r = Ok resp) ->
    report dry endpoint headers l env wd = (Ok tt, wd') ->
    exists (lines : list string) (wp' : world),
      Forall2 (is_line_of env dry) l lines
      /\ stdout wd' = stdout wd ++ concat_all (map (fun ln => ln ++ nl) lines)
      /\ requests wd' = requests wd
      /\ report purging endpoint headers l env wp = (Ok tt, wp')
      /\ stdout wp' = stdout wp ++ concat_all (map (fun ln => ln ++ "  " ++ "deleted" ++ nl) lines)
      /\ requests wp' = (requests wp ++ map (delete_request endpoint headers) l)%list.
Proof.
  unfold report. induction l as [| tag l IH]; intros wd wp wd' Hclock Hreg H.
  - cbn in H. injection H as <-. exists [], wp. cbn.
    rewrite !append_nil_r, app_nil_r. repeat split. constructor.
  - rewrite forM_cons in H.
    destruct (report_tag dry endpoint headers tag env wd) as [[[] | e] wd1] eqn:Htag;
      [| discriminate].
    apply report_tag_ok in Htag.
    destruct Htag as [a1 [a2 [H1 [H2 [Hout [Hck Hreq]]]]]].
    unfold terminator in Hout. rewrite is_dry in Hout, Hreq.
    rewrite forM_cons. rewrite Hclock in H1, H2.
    rewrite (report_tag_run purging endpoint headers tag env wp a1 a2 H1 H2), is_purging.
    destruct (Hreg (List.length (requests wp)) (delete_request endpoint headers tag)
                (Nat.le_refl _)) as [resp ->].
    match goal with
    | |- context [forM l _ env ?w] => set (wp1 := w)
    end.
    destruct (IH wd1 wp1 wd') as [lines [wp' [Hl [Ho [Hr [Hp [Hop Hrp]]]]]]].
    + rewrite Hck, Hclock. reflexivity.
    + intros k r Hk. apply Hreg. subst wp1. cbn [requests] in Hk.
      rewrite length_app in Hk. lia.
    + exact H.
    + exists (report_line dry tag a1 a2 :: lines), wp'.
      split.
      { constructor; [| exact Hl].
        do 2 eexists. exists a1, a2. rewrite <- Hclock in *. eauto. }
      split; [rewrite Ho, Hout; cbn [map concat_all]; rewrite !append_assoc; reflexivity |].
      split; [rewrite Hr; exact Hreq |].
      split; [exact Hp |].
      split.
      * rewrite Hop. subst wp1. cbn [stdout map concat_all].
        rewrite <- report_line_repository. rewrite !append_assoc. reflexivity.
      * rewrite Hrp. subst wp1. cbn [requests map]. rewrite <- app_assoc. reflexivity.
Qed.

End DryAndPurge.

(** X8.  [--purge] changes nothing but the deletes and the end of each
    line: when a dry run ends normally, the same run with [--purge] --
    same registry answer, same readings of the clock, and a registry
    that accepts the deletes -- prints the same lines, each followed by
    [deleted], and asks to delete exactly the tags the dry run reported,
    in the order of the report. *)
Theorem purge_deletes_what_dry_run_reports (dry purging : Config.t) (endpoint : string)
    (headers : list (string * string)) (env : environment) (w wd : world) :
  Config.repository dry = Config.repository purging ->
  Config.age dry = Config.age purging ->
  truth (Config.purge dry) = false ->
  truth (Config.purge purging) = true ->
  (forall k r, (List.length (requests w) < k)%nat -> exists resp, registry env k r = Ok resp) ->
  list_filter_report dry headers endpoint env w = (Ok tt, wd) ->
  exists (expired : list Tag.t) (lines : list string) (wp : world),
    Forall2 (is_line_of env dry) expired lines
    /\ stdout wd = stdout w ++ concat_all (map (fun ln => ln ++ nl) lines)
    /\ requests wd = (requests w ++ [list_request endpoint headers])%list
    /\ list_filter_report purging headers endpoint env w = (Ok tt, wp)
    /\ stdout wp = stdout w ++ concat_all (map (fun ln => ln ++ "  " ++ "deleted" ++ nl) lines)
    /\ requests wp = (requests w ++ list_request endpoint headers
                                   :: map (delete_request endpoint headers) expired)%list.
Proof.
  intros Hrepo Hage Hdry Hpurge Hreg H.
  rewrite list_filter_report_run in H. rewrite list_filter_report_run.
  destruct (list_tags headers endpoint env w) as [[tags | e] w0] eqn:Hlist; [| discriminate].
  rewrite <- (select_expired_age dry purging Hage).
  destruct (select_expired dry tags env w0) as [[expired | e] w1] eqn:Hsel; [| discriminate].
  rewrite list_tags_run in Hlist. injection Hlist as _ <-.
  pose proof (select_expired_requests _ _ _ _ _ _ Hsel) as Hr1.
  destruct (select_expired_inv _ _ _ _ _ _ Hsel) as [Hw1 _].
  destruct (report_dry_purge dry purging endpoint headers env Hrepo Hdry Hpurge
              expired w1 w1 wd eq_refl) as [lines [wp [Hl [Ho [Hr [Hp [Hop Hrp]]]]]]].
  - intros k r Hk. apply Hreg. rewrite Hr1 in Hk. cbn [issued requests] in Hk.
    rewrite length_app in Hk. cbn in Hk. lia.
  - exact H.
  - exists expired, lines, wp. rewrite Hw1 in Ho, Hop. cbn [advance issued stdout] in Ho, Hop.
    rewrite Hr, Hrp, Hr1. cbn [issued requests]. rewrite <- app_assoc.
    repeat split; assumption.
Qed.

Lemma purge_deletes_what_dry_run_reports_witness :
  exists (expired : list Tag.t) (lines : list string) (wp : world),
    Forall2 (is_line_of (Sample.env [] Example.listing) (Example.config 9 false)) expired lines
    /\ stdout Sample.after_dry_run
       = stdout start ++ concat_all (map (fun ln => ln ++ nl) lines)
    /\ requests Sample.after_dry_run
       = (requests start ++ [list_request Example.endpoint Example.headers])%list
    /\ list_filter_report (Example.config 9 true) Example.headers Example.endpoint
         (Sample.env [] Example.listing) start = (Ok tt, wp)
    /\ stdout wp
       = stdout start ++ concat_all (map (fun ln => ln ++ "  " ++ "deleted" ++ nl) lines)
    /\ requests wp
       = (requests start ++ list_request Example.endpoint Example.headers
            :: map (delete_request Example.endpoint Example.headers) expired)%list.
Proof.
  refine (purge_deletes_what_dry_run_reports (Example.config 9 false) (Example.config 9 true)
            Example.endpoint Example.headers (Sample.env [] Example.listing) start
            Sample.after_dry_run
            eq_refl eq_refl eq_refl eq_refl _ ltac:(vm_compute; reflexivity)).
  intros k r _. eexists. reflexivity.
Defined.

Section HelpFacts.
Import Argparse ArgparseSpec.

Lemma classify_app (pre rest : list string) (items : list item) :
  Forall positional_string pre ->
  classify rest = Ok items ->
  classify (pre ++ rest) = Ok (map IA pre ++ items)%list.
Proof.
  intros Hpre Hrest. induction Hpre as [| s pre [Hs Hd] Hpre IH]; [exact Hrest |].
  cbn [app map classify]. apply String.eqb_neq in Hd. rewrite Hd, Hs, IH. reflexivity.
Qed.

Lemma segments_app (pre : list string) (t : option_tuple) (post : list item) :
  segments (map IA pre ++ IO t :: post)
  = (map IA pre, (t, fst (segments post)) :: snd (segments post)).
Proof.
  induction pre as [| s pre IH].
  - cbn. destruct (segments post). reflexivity.
  - cbn [map app segments]. rewrite IH. reflexivity.
Qed.

(** The positionals before the first option are taken when the second
    of them, if there is one, is an integer. *)
Lemma consume_positionals_initial (max_str_digits : nat) (pre : list string) :
  Forall positional_string pre ->
  (forall a, nth_error pre 1 = Some a -> int_of_str max_str_digits a <> None) ->
  exists st, consume_positionals (map IA pre) (initial max_str_digits) = Ok st.
Proof.
  intros Hpre Hage. unfold consume_positionals.
  rewrite match_partial_plain. cbn [app initial positionals values List.length].
  destruct pre as [| r [| a pre]].
  - cbn. eauto.
  - cbn [firstn map take_positionals].
    inversion Hpre as [| ? ? [_ Hr] _]; subst.
    rewrite (get_values_plain _ _ Hr). cbn. eauto.
  - cbn [firstn map take_positionals].
    inversion Hpre as [| ? ? [_ Hr] Hpre']; subst.
    inversion Hpre' as [| ? ? [_ Ha] _]; subst.
    rewrite (get_values_plain _ _ Hr). cbn [repository_action type_ dest].
    rewrite (get_values_plain _ _ Ha). cbn [age_action type_ dest].
    destruct (int_of_str max_str_digits a) as [n |] eqn:E.
    + cbn. eauto.
    + exfalso. apply (Hage a eq_refl). exact E.
Qed.

Lemma parse_args_help (max_str_digits : nat) (pre rest : list string) (h : string)
    (post : list item) :
  Forall positional_string pre ->
  (forall a, nth_error pre 1 = Some a -> int_of_str max_str_digits a <> None) ->
  h = "-h" \/ h = "--help" ->
  classify rest = Ok post ->
  parse_args max_str_digits (pre ++ h :: rest) = Raise (SystemExit 0).
Proof.
  intros Hpre Hage Hh Hrest. unfold parse_args.
  assert (Hc : classify (h :: rest) = Ok (IO (Some help, h, None) :: post)).
  { destruct Hh as [-> | ->]; cbn; rewrite Hrest; reflexivity. }
  rewrite (classify_app pre (h :: rest) _ Hpre Hc), segments_app.
  destruct (consume_positionals_initial max_str_digits pre Hpre Hage) as [st ->].
  reflexivity.
Qed.

End HelpFacts.

(** X9.  When [-h] or [--help] is the first option of the command line,
    the positional strings before it can be taken (at most their second
    one is converted, and is an integer) and [argparse] can classify
    the argument strings after it (none of them is an ambiguous
    abbreviation such as [--=x], which ends the run with a usage error
    instead), the run prints the help message and exits with status 0:
    it never looks at [QUAY_TOKEN] and issues no request. *)
Theorem help_exits_before_anything_else (env : environment) (w : world)
    (pre rest : list string) (h : string) (post : list Argparse.item) :
  argv env = (pre ++ h :: rest)%list ->
  h = "-h" \/ h = "--help" ->
  Forall positional_string pre ->
  (forall a, nth_error pre 1 = Some a -> int_of_str (int_max_str_digits env) a <> None) ->
  Argparse.classify rest = Ok post ->
  main env w
  = (Raise (SystemExit 0),
     {| stdout := stdout w ++ help_message env;
        requests := requests w; clock_reads := clock_reads w |}).
Proof.
  intros Hargv Hh Hpre Hage Hrest.
  rewrite main_run, configure_run, Hargv.
  rewrite (parse_args_help _ pre rest h post Hpre Hage Hh Hrest).
  rewrite append_nil_r. reflexivity.
Qed.

Lemma help_exits_before_anything_else_witness :
  main (Example.env_without_token ["ansible/demo"; "--help"; "--purge"; "x"; "y"; "z"]) start
  = (Raise (SystemExit 0),
     {| stdout := "usage: purge.py [-h] [--purge] repository age";
        requests := []; clock_reads := 0 |}).
Proof.
  refine (help_exits_before_anything_else
            (Example.env_without_token ["ansible/demo"; "--help"; "--purge"; "x"; "y"; "z"])
            start ["ansible/demo"] ["--purge"; "x"; "y"; "z"] "--help"
            [Argparse.IO (Some Argparse.store_purge, "--purge", None);
             Argparse.IA "x"; Argparse.IA "y"; Argparse.IA "z"]
            eq_refl (or_intror eq_refl) _ _ ltac:(vm_compute; reflexivity)).
  - constructor; [| constructor]. split; [vm_compute; reflexivity | discriminate].
  - intros a Ha. discriminate Ha.
Defined.

Section ParseFacts.
Import Argparse ArgparseSpec.

Variable max_str_digits : nat.
Variables (r a : string) (n : Z).
Hypothesis age_is_int : int_of_str max_str_digits a = Some n.

Lemma consume_positionals_taken (k : nat) (purge : bool) (rs later : list string) :
  Forall (fun s => s <> "--") rs ->
  skipn k [r; a] = (rs ++ later)%list ->
  consume_positionals (map IA rs) (taken max_str_digits r n k purge)
  = Ok (taken max_str_digits r n (k + List.length rs) purge).
Proof.
  intros Hrs Hk. unfold consume_positionals. rewrite match_partial_plain.
  cbn [app taken positionals values extras].
  destruct k as [| [| k]].
  - destruct rs as [| x [| y rs]]; cbn [skipn app] in Hk.
    + reflexivity.
    + injection Hk as <- _. inversion Hrs as [| ? ? Hx _]; subst.
      cbn [List.length firstn map take_positionals skipn].
      rewrite (get_values_plain _ _ Hx). reflexivity.
    + injection Hk as <- <- Hk.
      destruct rs; [| discriminate].
      inversion Hrs as [| ? ? Hx Hrs']; subst. inversion Hrs' as [| ? ? Hy _]; subst.
      cbn [List.length firstn map take_positionals skipn].
      rewrite (get_values_plain _ _ Hx). cbn [repository_action type_ dest].
      rewrite (get_values_plain _ _ Hy). cbn [age_action type_ dest].
      rewrite age_is_int. reflexivity.
  - destruct rs as [| y rs]; cbn [skipn app] in Hk.
    + reflexivity.
    + injection Hk as <- Hk. destruct rs; [| discriminate].
      inversion Hrs as [| ? ? Hy _]; subst.
      cbn [List.length firstn map take_positionals skipn].
      rewrite (get_values_plain _ _ Hy). cbn [age_action type_ dest].
      rewrite age_is_int. reflexivity.
  - assert (rs = []) as ->.
    { destruct k; cbn in Hk; destruct rs; try discriminate; reflexivity. }
    destruct k; reflexivity.
Qed.

Lemma skipn_app_length {A : Type} (k : nat) (l rs later : list A) :
  skipn k l = (rs ++ later)%list -> skipn (k + List.length rs) l = later.
Proof.
  intros H. rewrite Nat.add_comm, <- skipn_skipn, H. clear H.
  induction rs as [| x rs IH]; [reflexivity | exact IH].
Qed.

Lemma consume_taken (segs : list (option_tuple * list item)) :
  forall (k : nat) (purge : bool),
    Forall (fun seg => exists o, fst seg = (Some store_purge, o, None)) segs ->
    Forall (fun seg => is_run (snd seg)) segs ->
    skipn k [r; a] = strings_in_segments segs ->
    consume segs (taken max_str_digits r n k purge)
    = Ok (taken max_str_digits r n 2 (purge || match segs with [] => false | _ => true end)).
Proof.
  induction segs as [| [t run] segs IH]; intros k purge Hopt Hrun Hk.
  - cbn [strings_in_segments] in Hk. rewrite orb_false_r. cbn [consume].
    destruct k as [| [| [| k]]]; try discriminate; reflexivity.
  - inversion Hopt as [| ? ? [o Ht] Hopt']; subst. cbn [fst] in Ht. subst t.
    inversion Hrun as [| ? ? Hr Hrun']; subst. cbn [snd] in Hr.
    cbn [strings_in_segments] in Hk.
    destruct (is_run_map run Hr) as [Hmap Hplain].
    cbn [consume consume_optional actions_of take_actions taken values positionals extras].
    change (setattr _ "purge" (PyBool true)) with (values (taken max_str_digits r n k true)).
    change {| positionals := skipn k [repository_action; age_action max_str_digits];
              values := values (taken max_str_digits r n k true); extras := false |}
      with (taken max_str_digits r n k true).
    rewrite Hmap at 1.
    rewrite (consume_positionals_taken k true _ _ Hplain Hk).
    rewrite (IH _ true Hopt' Hrun' ).
    + rewrite orb_true_r. reflexivity.
    + apply (skipn_app_length _ _ _ _ Hk).
Qed.

End ParseFacts.

Section ParseFacts2.
Import Argparse ArgparseSpec.

Lemma positional_or_purge_plain (items : list item) :
  Forall positional_or_purge items -> Forall plain items.
Proof.
  intros H. induction H as [| it items Hit _ IH]; constructor; [| exact IH].
  destruct it; cbn in *; auto.
Qed.

Lemma segments_purge (items : list item) :
  Forall positional_or_purge items ->
  Forall (fun seg => exists o, fst seg = (Some store_purge, o, None)) (snd (segments items))
  /\ existsb is_option items = match snd (segments items) with [] => false | _ => true end.
Proof.
  intros H. induction H as [| it items Hit _ [IH1 IH2]]; [split; [constructor | reflexivity] |].
  cbn [segments]. destruct (segments items) as [run segs]. cbn [snd] in *.
  destruct it as [s | | t]; cbn [snd existsb is_option orb].
  - split; assumption.
  - destruct Hit.
  - split; [| reflexivity]. constructor; [exact Hit | exact IH1].
Qed.

Lemma parse_args_accepts (max_str_digits : nat) (arg_strings : list string)
    (items : list item) (r a : string) (n : Z) :
  classify arg_strings = Ok items ->
  Forall positional_or_purge items ->
  positional_strings items = [r; a] ->
  int_of_str max_str_digits a = Some n ->
  parse_args max_str_digits arg_strings
  = Ok [("repository", PyStr r); ("age", PyInt n); ("purge", PyBool (existsb is_option items))].
Proof.
  intros Hc Hitems Hstr Hage. unfold parse_args. rewrite Hc.
  destruct (segments_plain items (positional_or_purge_plain items Hitems)) as [Hrun [Hsegs Hs]].
  destruct (segments_purge items Hitems) as [Hopt ->].
  destruct (segments items) as [run segs]. cbn [fst snd] in *.
  destruct (is_run_map run Hrun) as [Hmap Hplain].
  rewrite Hstr in Hs.
  change (initial max_str_digits) with (taken max_str_digits r n 0 false).
  rewrite Hmap at 1.
  rewrite (consume_positionals_taken max_str_digits r a n Hage 0 false _ _ Hplain Hs).
  rewrite (consume_taken max_str_digits r a n Hage segs _ false Hopt Hsegs
             (skipn_app_length 0 _ _ _ Hs)).
  reflexivity.
Qed.

(** [positionals] that are left, when no argument string was left over. *)
Lemma match_partial_groups (run : list item) :
  forall (k : nat) (lead : list string) (cur : option (list string)),
    (List.length (fst (match_partial k lead cur run))
     <= k + match cur with Some _ => 1 | None => 0 end)%nat
    /\ (snd (match_partial k lead cur run) = false ->
        List.length (fst (match_partial k lead cur run))
        = (count_positional run + match cur with Some _ => 1 | None => 0 end)%nat).
Proof.
  induction run as [| it run IH]; intros k lead cur.
  - cbn. destruct cur; cbn; split; intros; lia.
  - destruct it as [s | | t]; cbn [match_partial].
    + destruct k as [| k'].
      * cbn [fst snd]. split; [destruct cur; cbn; lia | discriminate].
      * specialize (IH k' [] (Some (lead ++ [s])%list)).
        destruct (match_partial k' [] (Some (lead ++ [s])%list) run) as [groups left].
        cbn [fst snd] in *. rewrite length_app.
        unfold count_positional in *. cbn [filter is_positional List.length].
        destruct IH as [IH1 IH2]. split.
        -- destruct cur; cbn [List.length]; lia.
        -- intros Hl. specialize (IH2 Hl). destruct cur; cbn [List.length]; lia.
    + destruct cur as [g |].
      * specialize (IH k lead (Some (g ++ ["--"])%list)).
        unfold count_positional in *. cbn [filter is_positional]. exact IH.
      * specialize (IH k (lead ++ ["--"])%list None).
        unfold count_positional in *. cbn [filter is_positional]. exact IH.
    + cbn [fst snd]. split; [destruct cur; cbn; lia | discriminate].
Qed.

Lemma take_positionals_length (groups : list (list string)) :
  forall (ps ps' : list positional) (ns ns' : namespace),
    take_positionals ps groups ns = Ok (ps', ns') ->
    (List.length groups <= List.length ps)%nat ->
    List.length ps = (List.length ps' + List.length groups)%nat.
Proof.
  induction groups as [| g groups IH]; intros ps ps' ns ns' H Hlen.
  - destruct ps; cbn in H; injection H as <- _; cbn; lia.
  - destruct ps as [| p ps]; [cbn in Hlen; lia |].
    cbn [take_positionals] in H. destruct (get_values p g) as [v | e]; [| discriminate].
    apply IH in H; cbn [List.length] in *; lia.
Qed.

Lemma consume_positionals_exact (run : list item) (st st' : state) :
  consume_positionals run st = Ok st' ->
  extras st' = false ->
  extras st = false
  /\ List.length (positionals st)
     = (List.length (positionals st') + count_positional run)%nat.
Proof.
  unfold consume_positionals.
  pose proof (match_partial_groups run (List.length (positionals st)) [] None) as [H1 H2].
  destruct (match_partial (List.length (positionals st)) [] None run) as [groups left].
  cbn [fst snd] in *.
  destruct (take_positionals (positionals st) groups (values st)) as [[ps ns] | e] eqn:Ht;
    [| discriminate].
  intros H. injection H as <-. cbn [extras positionals]. intros He.
  apply orb_false_iff in He. destruct He as [He Hl]. split; [exact He |].
  specialize (H2 Hl). apply take_positionals_length in Ht; lia.
Qed.

Lemma consume_optional_exact (t : option_tuple) (st st' : state) :
  consume_optional t st = Ok st' ->
  extras st' = false ->
  extras st = false /\ positionals st' = positionals st.
Proof.
  destruct t as [[[act |] option_string] explicit_arg]; cbn [consume_optional].
  - destruct (actions_of act option_string explicit_arg) as [l | e]; [| discriminate].
    destruct (take_actions l (values st)) as [ns | e]; [| discriminate].
    intros H. injection H as <-. cbn. auto.
  - intros H. injection H as <-. cbn. discriminate.
Qed.

Lemma consume_exact (segs : list (option_tuple * list item)) :
  forall st st' : state,
    consume segs st = Ok st' ->
    extras st' = false ->
    extras st = false
    /\ List.length (positionals st)
       = (List.length (positionals st') + count_in_segments segs)%nat.
Proof.
  induction segs as [| [t run] segs IH]; intros st st' H He.
  - cbn in H. injection H as <-. cbn. split; [exact He | lia].
  - cbn [consume] in H.
    destruct (consume_optional t st) as [st1 | e] eqn:H1; [| discriminate].
    destruct (consume_positionals run st1) as [st2 | e] eqn:H2; [| discriminate].
    destruct (IH _ _ H He) as [He2 Hn2].
    destruct (consume_positionals_exact _ _ _ H2 He2) as [He1 Hn1].
    destruct (consume_optional_exact _ _ _ H1 He1) as [He0 Hp].
    split; [exact He0 |]. cbn [count_in_segments]. rewrite <- Hp. lia.
Qed.

(** [parse_args] returns only when the command line has exactly two
    positional strings. *)
Lemma parse_args_ok_two (max_str_digits : nat) (arg_strings : list string)
    (items : list item) (ns : namespace) :
  classify arg_strings = Ok items ->
  parse_args max_str_digits arg_strings = Ok ns ->
  count_positional items = 2%nat.
Proof.
  intros Hc. unfold parse_args. rewrite Hc.
  pose proof (segments_count items) as Hcount.
  destruct (segments items) as [run segs]. cbn [fst snd] in *.
  destruct (consume_positionals run (initial max_str_digits)) as [st1 | e] eqn:H1;
    [| discriminate].
  destruct (consume segs st1) as [st2 | e] eqn:H2; [| discriminate].
  destruct (positionals st2) as [| p ps] eqn:Hp; [| discriminate].
  destruct (extras st2) eqn:He; [discriminate |]. intros _.
  destruct (consume_exact _ _ _ H2 He) as [He1 Hn1].
  destruct (consume_positionals_exact _ _ _ H1 He1) as [_ Hn0].
  rewrite Hp in Hn1. cbn in Hn0, Hn1. lia.
Qed.

Lemma parse_args_usage (max_str_digits : nat) (arg_strings : list string)
    (items : list item) :
  classify arg_strings = Ok items ->
  existsb asks_help items = false ->
  usage_or (fun _ => True) (parse_args max_str_digits arg_strings).
Proof.
  intros Hc Hh. unfold parse_args. rewrite Hc.
  pose proof (segments_no_help items Hh) as Hno.
  destruct (segments items) as [run segs]. cbn [fst snd] in *.
  pose proof (consume_positionals_usage run (initial max_str_digits)) as H1.
  destruct (consume_positionals run (initial max_str_digits)) as [st1 | e];
    [| exact H1].
  pose proof (consume_usage segs st1 Hno) as H2.
  destruct (consume segs st1) as [st2 | e]; [| exact H2].
  destruct (positionals st2); [| reflexivity].
  destruct (extras st2); [reflexivity | exact I].
Qed.

End ParseFacts2.

(** X10.  [--purge] may stand anywhere on the command line, once or
    more, in full or abbreviated: when the other argument strings are
    exactly two positional strings [r] and [a], and [a] is an integer
    [n], lines 20 to 30 give the configuration [repository = r],
    [age = n], [purge] set if and only if the flag is there, with the
    bearer token of the environment and the tag endpoint of [r]. *)
Theorem purge_flag_anywhere (env : environment) (w : world) (items : list Argparse.item)
    (r a token : string) (n : Z) :
  Argparse.classify (argv env) = Ok items ->
  Forall positional_or_purge items ->
  ArgparseSpec.positional_strings items = [r; a] ->
  int_of_str (int_max_str_digits env) a = Some n ->
  lookup "QUAY_TOKEN" (environ env) = Some token ->
  configure env w
  = (Ok ({| Config.repository := PyStr r; Config.age := PyInt n;
            Config.purge := PyBool (existsb is_option items) |},
         [("Authorization", "Bearer " ++ token)],
         "https://quay.io/api/v1/repository/" ++ r ++ "/tag/"), w).
Proof.
  intros Hc Hitems Hstr Hage Htoken.
  rewrite configure_run, (parse_args_accepts _ _ items r a n Hc Hitems Hstr Hage), Htoken.
  reflexivity.
Qed.

Lemma purge_flag_anywhere_witness :
  configure (Example.env ["--purge"; "ansible/demo"; "--pu"; "60"] 9) start
  = (Ok ({| Config.repository := PyStr "ansible/demo"; Config.age := PyInt 60;
            Config.purge := PyBool true |},
         [("Authorization", "Bearer " ++ "s3cr3t")],
         "https://quay.io/api/v1/repository/" ++ "ansible/demo" ++ "/tag/"), start).
Proof.
  refine (purge_flag_anywhere (Example.env ["--purge"; "ansible/demo"; "--pu"; "60"] 9) start
            [Argparse.IO (Some Argparse.store_purge, "--purge", None);
             Argparse.IA "ansible/demo";
             Argparse.IO (Some Argparse.store_purge, "--purge", None);
             Argparse.IA "60"]
            "ansible/demo" "60" "s3cr3t" 60
            ltac:(vm_compute; reflexivity) _ eq_refl ltac:(vm_compute; reflexivity)
            ltac:(vm_compute; reflexivity)).
  repeat constructor; cbn; try discriminate; eexists; reflexivity.
Defined.

(** X11.  A command line with more than two positional strings, and no
    request for help, is refused: the run exits with status 2 before it
    looks at [QUAY_TOKEN] or issues a request, also when its first two
    positional strings are a repository and an integer. *)
Theorem surplus_arguments_refused (env : environment) (w : world)
    (items : list Argparse.item) :
  Argparse.classify (argv env) = Ok items ->
  existsb ArgparseSpec.asks_help items = false ->
  (2 < ArgparseSpec.count_positional items)%nat ->
  main env w = (Raise (SystemExit 2), w).
Proof.
  intros Hc Hh Hn. rewrite main_run, configure_run.
  pose proof (parse_args_usage (int_max_str_digits env) _ items Hc Hh) as Hu.
  pose proof (parse_args_ok_two (int_max_str_digits env) (argv env) items) as Htwo.
  destruct (Argparse.parse_args (int_max_str_digits env) (argv env)) as [ns | e].
  - specialize (Htwo ns Hc eq_refl). lia.
  - cbn in Hu. subst e. reflexivity.
Qed.

Lemma surplus_arguments_refused_witness :
  main (Example.env ["ansible/demo"; "60"; "--purge"; "70"] 9) start
  = (Raise (SystemExit 2), start).
Proof.
  exact (surplus_arguments_refused (Example.env ["ansible/demo"; "60"; "--purge"; "70"] 9)
           start
           [Argparse.IA "ansible/demo"; Argparse.IA "60";
            Argparse.IO (Some Argparse.store_purge, "--purge", None); Argparse.IA "70"]
           ltac:(vm_compute; reflexivity) ltac:(vm_compute; reflexivity)
           ltac:(vm_compute; lia)).
Defined.

Section StrptimeFacts.
Import Strptime.

Lemma same_but_weekday_cons (nv : string * string) (c c' : captures) :
  same_but_weekday c c' -> same_but_weekday (nv :: c) (nv :: c').
Proof.
  intros H name Hn. destruct nv as [n v]. cbn [group].
  rewrite (H name Hn). reflexivity.
Qed.

Section Related.

Variables (A B : Type) (f : A -> B).

Lemma plus_related (p : ascii -> bool) (s : string) (k k' : string -> option A) :
  (forall s', option_map f (k s') = option_map f (k' s')) ->
  option_map f (plus p s k) = option_map f (plus p s k').
Proof.
  intros Hk. induction s as [| c s IH]; [reflexivity |].
  cbn [plus]. destruct (p c); [| reflexivity].
  specialize (Hk s).
  destruct (plus p s k), (plus p s k'); cbn in *; try discriminate; assumption.
Qed.

(** Matching goes the same way whatever the weekday group holds. *)
Lemma rmatch_related (r : regex) :
  forall (s : string) (caps caps' : captures) (k k' : string -> captures -> option A),
    same_but_weekday caps caps' ->
    (forall s' c c', same_but_weekday c c' ->
       option_map f (k s' c) = option_map f (k' s' c')) ->
    option_map f (rmatch r s caps k) = option_map f (rmatch r s caps' k').
Proof.
  induction r as [| c | c | p | r1 IH1 r2 IH2 | r1 IH1 r2 IH2 | r1 IH1 | p | name r1 IH1];
    intros s caps caps' k k' Hc Hk; cbn [rmatch].
  - apply Hk. exact Hc.
  - destruct s as [| d s]; [reflexivity |]. destruct (_ =? _)%char; [apply Hk; exact Hc | reflexivity].
  - destruct s as [| d s]; [reflexivity |]. destruct (_ =? _)%char; [apply Hk; exact Hc | reflexivity].
  - destruct s as [| d s]; [reflexivity |]. destruct (p d); [apply Hk; exact Hc | reflexivity].
  - apply IH1; [exact Hc |]. intros s' c c' Hcc. apply IH2; assumption.
  - specialize (IH1 s caps caps' k k' Hc Hk). specialize (IH2 s caps caps' k k' Hc Hk).
    destruct (rmatch r1 s caps k), (rmatch r1 s caps' k'); cbn in *; try discriminate; assumption.
  - specialize (IH1 s caps caps' k k' Hc Hk). specialize (Hk s caps caps' Hc).
    destruct (rmatch r1 s caps k), (rmatch r1 s caps' k'); cbn in *; try discriminate; assumption.
  - apply plus_related. intros s'. apply Hk. exact Hc.
  - apply IH1; [exact Hc |]. intros s' c c' Hcc. apply Hk.
    apply same_but_weekday_cons. exact Hcc.
Qed.

End Related.

Lemma consumed_3 (a b c : ascii) (rest : string) :
  consumed (String a (String b (String c rest))) rest = String a (String b (String c EmptyString)).
Proof.
  unfold consumed. cbn [String.length].
  replace (S (S (S (String.length rest))) - String.length rest)%nat with 3%nat by lia.
  destruct rest; reflexivity.
Qed.

(** The weekday group takes the name and nothing else. *)
Lemma rmatch_weekday {A : Type} (d rest : string) (caps : captures)
    (k : string -> captures -> option A) :
  In d weekdays ->
  rmatch (Group "a" (alt (map word a_weekday))) (d ++ rest) caps k
  = k rest (("a", d) :: caps).
Proof.
  intros Hd. unfold weekdays in Hd. cbn [In] in Hd.
  repeat (destruct Hd as [<- | Hd]); [.. | destruct Hd];
    cbn -[consumed]; rewrite consumed_3; destruct (k rest _); reflexivity.
Qed.

Lemma rmatch_seq {A : Type} (r1 r2 : regex) (s : string) (caps : captures)
    (k : string -> captures -> option A) :
  rmatch (Seq r1 r2) s caps k = rmatch r1 s caps (fun s' caps' => rmatch r2 s' caps' k).
Proof. reflexivity. Qed.

Lemma strptime_outcome (s : string) :
  strptime (PyStr s)
  = match option_map outcome (re_match format_regex s) with
    | Some (EmptyString, Some t) => Ok t
    | _ => Raise ValueError
    end.
Proof.
  unfold strptime. destruct (re_match format_regex s) as [[rest found] |]; [| reflexivity].
  cbn [option_map outcome fst snd]. destruct rest; [| reflexivity].
  destruct (of_groups found); reflexivity.
Qed.

Lemma of_groups_same (c c' : captures) : same_but_weekday c c' -> of_groups c = of_groups c'.
Proof.
  intros H. unfold of_groups.
  rewrite (H "Y"), (H "b"), (H "d"), (H "H"), (H "M"), (H "S"), (H "z") by discriminate.
  reflexivity.
Qed.

Lemma strptime_weekday (d1 d2 rest : string) :
  In d1 weekdays -> In d2 weekdays ->
  strptime (PyStr (d1 ++ rest)) = strptime (PyStr (d2 ++ rest)).
Proof.
  intros H1 H2. rewrite !strptime_outcome.
  assert (E : option_map outcome (re_match format_regex (d1 ++ rest))
              = option_map outcome (re_match format_regex (d2 ++ rest))).
  { unfold re_match, format_regex. cbn [seq]. rewrite !rmatch_seq.
    rewrite (rmatch_weekday d1 rest [] _ H1), (rmatch_weekday d2 rest [] _ H2).
    apply rmatch_related.
    - intros name Hn. cbn [group]. apply String.eqb_neq in Hn.
      rewrite String.eqb_sym, Hn. reflexivity.
    - intros s' c c' Hc. unfold outcome. cbn [option_map fst snd].
      rewrite (of_groups_same c c' Hc). reflexivity. }
  rewrite E. reflexivity.
Qed.

End StrptimeFacts.

(** X12.  The name of the weekday in [last_modified] is read and never
    checked against the date: two tags whose [last_modified] differ in
    it only are parsed alike -- both refused, or both given the same
    date and time -- and have the same age. *)
Theorem weekday_is_not_checked (tag1 tag2 : Tag.t) (d1 d2 rest : string) :
  In d1 weekdays -> In d2 weekdays ->
  Tag.last_modified tag1 = PyStr (d1 ++ rest) ->
  Tag.last_modified tag2 = PyStr (d2 ++ rest) ->
  Tag.last_modified_datetime tag1 = Tag.last_modified_datetime tag2
  /\ forall now, Tag.age_at now tag1 = Tag.age_at now tag2.
Proof.
  intros H1 H2 E1 E2.
  assert (E : Tag.last_modified_datetime tag1 = Tag.last_modified_datetime tag2).
  { unfold Tag.last_modified_datetime. rewrite E1, E2. apply strptime_weekday; assumption. }
  split; [exact E |]. intros now. unfold Tag.age_at. rewrite E. reflexivity.
Qed.

Lemma weekday_is_not_checked_witness :
  Tag.last_modified_datetime Example.v1
  = Tag.last_modified_datetime (Example.tag "v1" "Sun, 02 Jan 2006 15:04:05 +0000")
  /\ forall now,
       Tag.age_at now Example.v1
       = Tag.age_at now (Example.tag "v1" "Sun, 02 Jan 2006 15:04:05 +0000").
Proof.
  refine (weekday_is_not_checked Example.v1
            (Example.tag "v1" "Sun, 02 Jan 2006 15:04:05 +0000")
            "Mon" "Sun" ", 02 Jan 2006 15:04:05 +0000" _ _ eq_refl eq_refl).
  - left. reflexivity.
  - do 6 right. left. reflexivity.
Defined.

Section Rounding.
Import Float.

Lemma round_half_even_scale (num den c : Z) :
  0 < den -> 0 < c -> round_half_even (num * c) (den * c) = round_half_even num den.
Proof.
  intros Hd Hc. unfold round_half_even.
  rewrite Z.div_mul_cancel_r by lia.
  rewrite Z.mul_mod_distr_r by lia.
  set (r := num mod den). set (q := num / den).
  assert (E1 : (2 * (r * c) <? den * c) = (2 * r <? den)).
  { destruct (Z.ltb_spec (2 * r) den); [apply Z.ltb_lt | apply Z.ltb_ge]; nia. }
  assert (E2 : (den * c <? 2 * (r * c)) = (den <? 2 * r)).
  { destruct (Z.ltb_spec den (2 * r)); [apply Z.ltb_lt | apply Z.ltb_ge]; nia. }
  rewrite E1, E2. reflexivity.
Qed.

Lemma round_half_even_mono (num num' den : Z) :
  0 < den -> num <= num' -> round_half_even num den <= round_half_even num' den.
Proof.
  intros Hd Hle. unfold round_half_even.
  pose proof (Z.div_mod num den ltac:(lia)) as H1.
  pose proof (Z.mod_pos_bound num den Hd) as H2.
  pose proof (Z.div_mod num' den ltac:(lia)) as H3.
  pose proof (Z.mod_pos_bound num' den Hd) as H4.
  pose proof (Z.div_le_mono num num' den Hd Hle) as Hq.
  set (q := num / den) in *. set (r := num mod den) in *.
  set (q' := num' / den) in *. set (r' := num' mod den) in *.
  destruct (Z.eq_dec q q') as [E | E].
  - rewrite <- E in *. assert (r <= r') by nia.
    destruct (Z.ltb_spec (2 * r) den), (Z.ltb_spec den (2 * r)),
             (Z.ltb_spec (2 * r') den), (Z.ltb_spec den (2 * r')),
             (Z.even q); lia.
  - assert (q + 1 <= q') by lia.
    destruct (Z.ltb_spec (2 * r) den), (Z.ltb_spec den (2 * r)),
             (Z.ltb_spec (2 * r') den), (Z.ltb_spec den (2 * r')),
             (Z.even q), (Z.even q'); lia.
Qed.

Lemma round_half_even_ge (num den k : Z) :
  0 < den -> k * den <= num -> k <= round_half_even num den.
Proof.
  intros Hd H. rewrite <- (round_half_even_multiple k den Hd) at 1.
  apply round_half_even_mono; assumption.
Qed.

Lemma round_half_even_le (num den k : Z) :
  0 < den -> num <= k * den -> round_half_even num den <= k.
Proof.
  intros Hd H. rewrite <- (round_half_even_multiple k den Hd) at 1.
  apply round_half_even_mono; assumption.
Qed.

Lemma ge_pow2_iff (n d l K : Z) :
  0 <= K -> 0 <= l + K ->
  ge_pow2 n d l = true <-> d * 2 ^ (l + K) <= n * 2 ^ K.
Proof.
  intros HK HlK. unfold ge_pow2. destruct (0 <=? l) eqn:E.
  - apply Z.leb_le in E. rewrite Z.leb_le. rewrite Z.pow_add_r by lia. rewrite Z.mul_assoc.
    apply Z.mul_le_mono_pos_r. apply pow2_pos. exact HK.
  - apply Z.leb_gt in E. rewrite Z.leb_le.
    replace K with (- l + (l + K)) at 2 by lia.
    rewrite (Z.pow_add_r 2 (- l) (l + K)) by lia. rewrite Z.mul_assoc.
    apply Z.mul_le_mono_pos_r. apply pow2_pos. exact HlK.
Qed.

(** [ilog2 n d] is the binary exponent of [n / d]. *)
Lemma ilog2_spec (n d K : Z) :
  0 < n -> 0 < d -> 0 <= K -> 0 <= ilog2 n d + K ->
  d * 2 ^ (ilog2 n d + K) <= n * 2 ^ K < d * 2 ^ (ilog2 n d + 1 + K).
Proof.
  intros Hn Hd HK. unfold ilog2.
  pose proof (Z.log2_spec n Hn) as [Ha1 Ha2].
  pose proof (Z.log2_spec d Hd) as [Hb1 Hb2].
  pose proof (Z.log2_nonneg n) as Ha0. pose proof (Z.log2_nonneg d) as Hb0.
  set (a := Z.log2 n) in *. set (b := Z.log2 d) in *.
  pose proof (pow2_pos K HK) as HpK.
  destruct (ge_pow2 n d (a - b)) eqn:G; intros HL.
  - split; [apply (ge_pow2_iff n d (a - b) K HK HL); exact G |].
    (* n < 2^(a+1) and 2^b <= d *)
    assert (E : 2 ^ (Z.succ a) * 2 ^ K = 2 ^ b * 2 ^ (a - b + 1 + K)).
    { rewrite <- !Z.pow_add_r by lia. f_equal. lia. }
    pose proof (pow2_pos (a - b + 1 + K) ltac:(lia)). nia.
  - split.
    + assert (E : 2 ^ a * 2 ^ K = 2 ^ (Z.succ b) * 2 ^ (a - b - 1 + K)).
      { rewrite <- !Z.pow_add_r by lia. f_equal. lia. }
      pose proof (pow2_pos (a - b - 1 + K) ltac:(lia)). nia.
    + replace (a - b - 1 + 1 + K) with (a - b + K) by lia.
      destruct (Z.le_gt_cases (d * 2 ^ (a - b + K)) (n * 2 ^ K)) as [C | C]; [| exact C].
      apply (ge_pow2_iff n d (a - b) K HK ltac:(lia)) in C. congruence.
Qed.

Section Quotient.

Variable b : Z.
Hypothesis b_pos : 0 < b.

(** The exponent and the mantissa of [n / b], for a positive [n]. *)
Let E (n : Z) : Z := Z.max (ilog2 n b - 52) (-1074).
Let V (K n : Z) : Z := round_half_even (n * 2 ^ K) (b * 2 ^ (E n + K)) * 2 ^ (E n + K).

Lemma true_divide_scaled (a K : Z) :
  a <> 0 -> 0 <= K -> 0 <= E (Z.abs a) + K ->
  mant (true_divide a b) * 2 ^ (expo (true_divide a b) + K) = Z.sgn a * V K (Z.abs a).
Proof.
  intros Ha HK HE. unfold true_divide. apply Z.eqb_neq in Ha. rewrite Ha.
  cbn [mant expo]. fold (E (Z.abs a)). unfold V.
  set (e := E (Z.abs a)) in *. set (n := Z.abs a).
  pose proof (pow2_pos K HK). pose proof (pow2_pos (e + K) HE).
  rewrite <- Z.mul_assoc. f_equal. f_equal.
  destruct (0 <=? e) eqn:S.
  - apply Z.leb_le in S. pose proof (pow2_pos e S).
    rewrite Z.pow_add_r, Z.mul_assoc by lia.
    symmetry. apply round_half_even_scale; nia.
  - apply Z.leb_gt in S. pose proof (pow2_pos (- e) ltac:(lia)).
    replace K with (- e + (e + K)) at 1 by lia.
    rewrite Z.pow_add_r, Z.mul_assoc by lia.
    symmetry. apply round_half_even_scale; lia.
Qed.

Lemma V_nonneg (K n : Z) : 0 < n -> 0 <= K -> 0 <= E n + K -> 0 <= V K n.
Proof.
  intros Hn HK HE. unfold V.
  pose proof (pow2_pos K HK). pose proof (pow2_pos (E n + K) HE).
  pose proof (round_half_even_nonneg (n * 2 ^ K) (b * 2 ^ (E n + K)) ltac:(nia) ltac:(nia)).
  nia.
Qed.

(** Rounding to 53 bits keeps the order of the quotients. *)
Lemma V_mono (K n1 n2 : Z) :
  0 < n1 -> n1 <= n2 -> 0 <= K ->
  0 <= ilog2 n1 b - 52 + K -> 0 <= - 1074 + K ->
  V K n1 <= V K n2.
Proof.
  intros H1 H12 HK HL1 HK'.
  assert (H2 : 0 < n2) by lia.
  pose proof (pow2_pos K HK) as HpK.
  pose proof (ilog2_spec n1 b K H1 b_pos HK ltac:(lia)) as [Hlo1 Hhi1].
  assert (HL : ilog2 n1 b <= ilog2 n2 b).
  { destruct (Z.le_gt_cases (ilog2 n1 b) (ilog2 n2 b)) as [C | C]; [exact C | exfalso].
    pose proof (ilog2_spec n2 b (K + (ilog2 n1 b - ilog2 n2 b)) H2 b_pos ltac:(lia) ltac:(lia))
      as [_ Hhi2].
    pose proof (ilog2_spec n1 b (K + (ilog2 n1 b - ilog2 n2 b)) H1 b_pos ltac:(lia) ltac:(lia))
      as [Hlo1' _].
    pose proof (pow2_pos (K + (ilog2 n1 b - ilog2 n2 b)) ltac:(lia)).
    assert (2 ^ (ilog2 n2 b + 1 + (K + (ilog2 n1 b - ilog2 n2 b)))
            <= 2 ^ (ilog2 n1 b + (K + (ilog2 n1 b - ilog2 n2 b)))).
    { apply Z.pow_le_mono_r; lia. }
    nia. }
  pose proof (ilog2_spec n2 b K H2 b_pos HK ltac:(lia)) as [Hlo2 Hhi2].
  unfold V. fold (E n1) (E n2).
  assert (HE : E n1 <= E n2) by (unfold E; lia).
  pose proof (pow2_pos (E n1 + K) ltac:(unfold E; lia)) as Hp1.
  pose proof (pow2_pos (E n2 + K) ltac:(unfold E; lia)) as Hp2.
  destruct (Z.eq_dec (E n1) (E n2)) as [Eq | Ne].
  - rewrite <- Eq.
    pose proof (round_half_even_mono (n1 * 2 ^ K) (n2 * 2 ^ K) (b * 2 ^ (E n1 + K))
                  ltac:(nia) ltac:(nia)).
    nia.
  - assert (HL' : ilog2 n1 b < ilog2 n2 b /\ E n2 = ilog2 n2 b - 52) by (unfold E in *; lia).
    destruct HL' as [HL' HE2].
    assert (Hk1 : 0 <= E n1 + K) by (unfold E; lia).
    assert (Hk2 : 0 <= E n2 + K) by (unfold E; lia).
    assert (Hk3 : ilog2 n1 b - 52 <= E n1) by (unfold E; lia).
    set (L2 := ilog2 n2 b) in *. set (e1 := E n1) in *. set (e2 := E n2) in *.
    assert (He1 : e1 < L2 - 52) by lia.
    (* both sides against 2^(L2 + K) *)
    apply Z.le_trans with (m := 2 ^ (L2 + K)).
    + assert (Hm : round_half_even (n1 * 2 ^ K) (b * 2 ^ (e1 + K)) <= 2 ^ (L2 - e1)).
      { apply round_half_even_le; [nia |].
        assert (Es : 2 ^ (L2 - e1) * (b * 2 ^ (e1 + K)) = b * 2 ^ (L2 + K)).
        { replace (L2 + K) with (L2 - e1 + (e1 + K)) by lia.
          rewrite (Z.pow_add_r 2 (L2 - e1) (e1 + K)) by lia. ring. }
        rewrite Es.
        assert (2 ^ (ilog2 n1 b + 1 + K) <= 2 ^ (L2 + K)) by (apply Z.pow_le_mono_r; lia).
        nia. }
      replace (L2 + K) with (L2 - e1 + (e1 + K)) by lia.
      rewrite (Z.pow_add_r 2 (L2 - e1) (e1 + K)) by lia.
      pose proof (pow2_pos (L2 - e1) ltac:(lia)). nia.
    + assert (Hm : 2 ^ 52 <= round_half_even (n2 * 2 ^ K) (b * 2 ^ (e2 + K))).
      { apply round_half_even_ge; [nia |].
        assert (Es : 2 ^ 52 * (b * 2 ^ (e2 + K)) = b * 2 ^ (L2 + K)).
        { replace (L2 + K) with (52 + (e2 + K)) by lia.
          rewrite (Z.pow_add_r 2 52 (e2 + K)) by lia. ring. }
        rewrite Es. exact Hlo2. }
      replace (L2 + K) with (52 + (e2 + K)) by lia.
      rewrite (Z.pow_add_r 2 52 (e2 + K)) by lia. nia.
Qed.

End Quotient.

Lemma gt_int_scaled_iff (x : float) (n K : Z) :
  0 <= K -> 0 <= expo x + K ->
  gt_int x n = true <-> n * 2 ^ K < mant x * 2 ^ (expo x + K).
Proof.
  intros HK HE. unfold gt_int. destruct (0 <=? expo x) eqn:S.
  - apply Z.leb_le in S. rewrite Z.ltb_lt. rewrite Z.pow_add_r by lia. rewrite Z.mul_assoc.
    apply Z.mul_lt_mono_pos_r. apply pow2_pos. exact HK.
  - apply Z.leb_gt in S. rewrite Z.ltb_lt.
    replace K with (- expo x + (expo x + K)) at 1 by lia.
    rewrite (Z.pow_add_r 2 (- expo x) (expo x + K)) by lia. rewrite Z.mul_assoc.
    apply Z.mul_lt_mono_pos_r. apply pow2_pos. exact HE.
Qed.

Lemma true_divide_expo (a b : Z) : - 1074 <= expo (true_divide a b).
Proof. unfold true_divide. destruct (a =? 0); cbn [expo]; lia. Qed.

(** A larger dividend gives a quotient that exceeds whatever the
    quotient of the smaller one exceeds. *)
Lemma true_divide_gt_mono (a a' b n : Z) :
  0 < b -> a <= a' ->
  gt_int (true_divide a b) n = true -> gt_int (true_divide a' b) n = true.
Proof.
  intros Hb Hle.
  set (K := 1074 + 52 + Z.abs (ilog2 (Z.abs a) b) + Z.abs (ilog2 (Z.abs a') b)).
  assert (HK : 0 <= K) by (unfold K; lia).
  pose proof (true_divide_expo a b). pose proof (true_divide_expo a' b).
  rewrite (gt_int_scaled_iff _ n K HK) by (unfold K; lia).
  rewrite (gt_int_scaled_iff _ n K HK) by (unfold K; lia).
  assert (Hs : mant (true_divide a b) * 2 ^ (expo (true_divide a b) + K)
               <= mant (true_divide a' b) * 2 ^ (expo (true_divide a' b) + K)); [| lia].
  assert (Hzero : forall z, z = 0 ->
            mant (true_divide z b) * 2 ^ (expo (true_divide z b) + K) = 0).
  { intros z ->. reflexivity. }
  assert (Hpos : forall z, z <> 0 -> (z = a \/ z = a') ->
            mant (true_divide z b) * 2 ^ (expo (true_divide z b) + K)
            = Z.sgn z * (round_half_even (Z.abs z * 2 ^ K)
                           (b * 2 ^ (Z.max (ilog2 (Z.abs z) b - 52) (-1074) + K))
                         * 2 ^ (Z.max (ilog2 (Z.abs z) b - 52) (-1074) + K))).
  { intros z Hz Hc. apply (true_divide_scaled b Hb z K Hz HK).
    destruct Hc as [-> | ->]; unfold K; lia. }
  assert (Hnn : forall z, z <> 0 -> (z = a \/ z = a') ->
            0 <= round_half_even (Z.abs z * 2 ^ K)
                   (b * 2 ^ (Z.max (ilog2 (Z.abs z) b - 52) (-1074) + K))
                 * 2 ^ (Z.max (ilog2 (Z.abs z) b - 52) (-1074) + K)).
  { intros z Hz Hc. apply (V_nonneg b Hb K (Z.abs z)); [lia | exact HK |].
    destruct Hc as [-> | ->]; unfold K; lia. }
  destruct (Z.eq_dec a 0) as [Ea | Ea]; destruct (Z.eq_dec a' 0) as [Ea' | Ea'].
  - rewrite (Hzero a Ea), (Hzero a' Ea'). lia.
  - rewrite (Hzero a Ea), (Hpos a' Ea' (or_intror eq_refl)).
    pose proof (Hnn a' Ea' (or_intror eq_refl)). rewrite Z.sgn_pos by lia. lia.
  - rewrite (Hzero a' Ea'), (Hpos a Ea (or_introl eq_refl)).
    pose proof (Hnn a Ea (or_introl eq_refl)). rewrite Z.sgn_neg by lia. lia.
  - rewrite (Hpos a Ea (or_introl eq_refl)), (Hpos a' Ea' (or_intror eq_refl)).
    pose proof (Hnn a Ea (or_introl eq_refl)). pose proof (Hnn a' Ea' (or_intror eq_refl)).
    destruct (Z.lt_trichotomy a 0) as [Na | [Na | Pa]]; [| lia |];
      destruct (Z.lt_trichotomy a' 0) as [Na' | [Na' | Pa']]; try lia.
    + (* both negative *)
      rewrite !Z.sgn_neg by lia.
      pose proof (V_mono b Hb K (Z.abs a') (Z.abs a) ltac:(lia) ltac:(lia) HK
                    ltac:(unfold K; lia) ltac:(unfold K; lia)) as Hm.
      cbv beta zeta in Hm. lia.
    + rewrite !Z.sgn_pos by lia.
      pose proof (V_mono b Hb K (Z.abs a) (Z.abs a') ltac:(lia) ltac:(lia) HK
                    ltac:(unfold K; lia) ltac:(unfold K; lia)) as Hm.
      cbv beta zeta in Hm. lia.
Qed.

End Rounding.

Section Later.

(** The age at a later reading exceeds what the age at an earlier one
    exceeds. *)
Lemma age_later_exceeds (tag : Tag.t) (now now' : datetime) (a a' : timedelta) (n : Z) :
  instant (replace_microsecond_0 now) <= instant (replace_microsecond_0 now') ->
  Tag.age_at now tag = Ok a ->
  Tag.age_at now' tag = Ok a' ->
  Float.gt_int (total_seconds a) n = true ->
  Float.gt_int (total_seconds a') n = true.
Proof.
  intros Hle. unfold Tag.age_at.
  destruct (Tag.last_modified_datetime tag) as [m | e]; [| discriminate].
  intros H H'. injection H as <-. injection H' as <-.
  rewrite !datetime_sub_normal, !total_seconds_eq, !to_of_microseconds.
  apply true_divide_gt_mono; lia.
Qed.

(** The loop, with the readings of the clock its lines come from. *)
Lemma report_ok_from (config : Config.t) (endpoint : string)
    (headers : list (string * string)) (env : environment) (l : list Tag.t) :
  forall w w' : world,
    report config endpoint headers l env w = (Ok tt, w') ->
    exists lines : list string,
      Forall2 (fun tag ln =>
                 exists (k1 k2 : nat) (a1 a2 : timedelta),
                   (clock_reads w <= k1)%nat
                   /\ Tag.age_at (utcnow env k1) tag = Ok a1
                   /\ Tag.age_at (utcnow env k2) tag = Ok a2
                   /\ ln = report_line config tag a1 a2) l lines
      /\ stdout w' = stdout w ++ concat_all (map (fun ln => ln ++ terminator config) lines).
Proof.
  unfold report. induction l as [| tag l IH]; intros w w' H.
  - cbn in H. injection H as <-. exists []. split; [constructor |].
    cbn. rewrite append_nil_r. reflexivity.
  - rewrite forM_cons in H.
    destruct (report_tag config endpoint headers tag env w) as [[[] | e] w1] eqn:Htag;
      [| discriminate].
    apply report_tag_ok in Htag. destruct Htag as [a1 [a2 [H1 [H2 [Hout [Hck _]]]]]].
    destruct (IH _ _ H) as [lines [Hlines Hout']].
    exists (report_line config tag a1 a2 :: lines). split.
    + constructor.
      * exists (clock_reads w), (S (clock_reads w)), a1, a2. auto.
      * refine (Forall2_impl_In _ _ _ _ _ Hlines).
        intros t ln _ [k1 [k2 [b1 [b2 [Hk Hrest]]]]].
        exists k1, k2, b1, b2. split; [lia | exact Hrest].
    + rewrite Hout', Hout. cbn [map concat_all]. rewrite !append_assoc. reflexivity.
Qed.

End Later.

(** X13.  With a clock that, read to the second, does not go back
    during the run, no line a run prints shows an age below
    [config.age]: each line is the line of a selected tag, and the whole
    seconds of its age, the number printed, are at least the threshold. *)
Theorem printed_ages_reach_threshold (config : Config.t) (n : Z)
    (headers : list (string * string)) (endpoint : string) (env : environment)
    (w w' : world) :
  Config.age config = PyInt n ->
  (forall k k', (k <= k')%nat ->
     instant (replace_microsecond_0 (utcnow env k))
     <= instant (replace_microsecond_0 (utcnow env k'))) ->
  list_filter_report config headers endpoint env w = (Ok tt, w') ->
  exists (expired : list Tag.t) (lines : list string),
    stdout w' = stdout w ++ concat_all (map (fun ln => ln ++ terminator config) lines)
    /\ Forall2 (fun tag ln =>
                  exists (k1 k2 : nat) (a1 a2 : timedelta),
                    Tag.age_at (utcnow env k1) tag = Ok a1
                    /\ Tag.age_at (utcnow env k2) tag = Ok a2
                    /\ ln = report_line config tag a1 a2
                    /\ n <= Float.to_int (total_seconds a1))
               expired lines.
Proof.
  intros Hn Hclock H. rewrite list_filter_report_run in H.
  destruct (list_tags headers endpoint env w) as [[tags | e] w0] eqn:Hlist; [| discriminate].
  destruct (select_expired config tags env w0) as [[expired | e] w1] eqn:Hsel; [| discriminate].
  rewrite list_tags_run in Hlist. injection Hlist as _ <-.
  destruct (select_expired_inv _ _ _ _ _ _ Hsel) as [Hw1 [keep [_ [Hmask Hkeep]]]].
  destruct (report_ok_from _ _ _ _ _ _ _ H) as [lines [Hl Ho]].
  exists expired, lines. split.
  - rewrite Ho, Hw1. reflexivity.
  - refine (Forall2_impl_In _ _ _ _ _ Hl).
    intros tag ln Hin [k1 [k2 [a1 [a2 [Hk [H1 [H2 ->]]]]]]].
    exists k1, k2, a1, a2. repeat split; try assumption.
    rewrite Hmask in Hin. destruct (In_mask_nth _ _ _ Hin) as [i [Hi Hk']].
    pose proof (nth_error_Some tags i) as Hlen. rewrite Hi in Hlen.
    assert (Hi' : (i < List.length tags)%nat) by (apply Hlen; discriminate).
    specialize (Hkeep i tag Hi). rewrite Hk' in Hkeep.
    destruct (is_expired_at_int config n _ tag true Hn Hkeep) as [a [Ha Hgt]].
    apply gt_int_to_int.
    apply (age_later_exceeds tag _ _ a a1 n
             (Hclock (i + clock_reads (issued (list_request endpoint headers) w))%nat k1
                ltac:(rewrite Hw1 in Hk; cbn [advance clock_reads] in Hk; lia))
             Ha H1).
    symmetry. exact Hgt.
Qed.

Lemma printed_ages_reach_threshold_witness :
  exists (expired : list Tag.t) (lines : list string),
    stdout Sample.after_slow_run
    = stdout start
      ++ concat_all (map (fun ln => ln ++ terminator (Example.config 9 false)) lines)
    /\ Forall2 (fun tag ln =>
                  exists (k1 k2 : nat) (a1 a2 : timedelta),
                    Tag.age_at (utcnow (Sample.advancing Example.listing) k1) tag = Ok a1
                    /\ Tag.age_at (utcnow (Sample.advancing Example.listing) k2) tag = Ok a2
                    /\ ln = report_line (Example.config 9 false) tag a1 a2
                    /\ 9 <= Float.to_int (total_seconds a1))
               expired lines.
Proof.
  refine (printed_ages_reach_threshold (Example.config 9 false) 9 Example.headers
            Example.endpoint (Sample.advancing Example.listing) start
            Sample.after_slow_run
            eq_refl _ ltac:(vm_compute; reflexivity)).
  intros k k' Hk. unfold instant, toordinal, ymd2ord.
  cbn [Sample.advancing utcnow replace_microsecond_0 year month day hour minute second
       microsecond utcoffset].
  lia.
Defined.

(** X14.  A tag that is old enough stays old enough: when the clock,
    read to the second, has not gone back between two readings, a tag
    line 38 selects at the first it selects at the second, for the same
    [age].  The rounding of [total_seconds()] to a [float] does not
    disturb the order. *)
Theorem expired_stays_expired (config : Config.t) (n : Z) (tag : Tag.t)
    (now now' : datetime) :
  Config.age config = PyInt n ->
  instant (replace_microsecond_0 now) <= instant (replace_microsecond_0 now') ->
  is_expired_at config now tag = Ok true ->
  is_expired_at config now' tag = Ok true.
Proof.
  intros Hn Hle H.
  destruct (is_expired_at_int config n now tag true Hn H) as [a [Ha Hgt]].
  destruct (age_at_ok now now' tag a Ha) as [a' Ha'].
  unfold is_expired_at. rewrite Ha', Hn. cbn [float_gt]. f_equal.
  apply (age_later_exceeds tag now now' a a' n Hle Ha Ha'). symmetry. exact Hgt.
Qed.

Lemma expired_stays_expired_witness :
  is_expired_at (Example.config 9 false) Sample.later Example.v1 = Ok true.
Proof.
  exact (expired_stays_expired (Example.config 9 false) 9 Example.v1 Example.now Sample.later
           eq_refl ltac:(apply Z.leb_le; vm_compute; reflexivity)
           ltac:(vm_compute; reflexivity)).
Defined.

(** * The selection and the age itself *)

Section ExactAge.

(** The ages of the datetimes that exist are below 320000000000 seconds. *)
Lemma age_at_bound (now : datetime) (tag : Tag.t) (a : timedelta) :
  valid now = true ->
  Tag.age_at now tag = Ok a ->
  - 320000000000 * 1000000 < to_microseconds a < 320000000000 * 1000000.
Proof.
  intros Hv. unfold Tag.age_at.
  destruct (Tag.last_modified_datetime tag) as [m | e] eqn:Hm; [| discriminate].
  intros H. injection H as <-. rewrite to_microseconds_datetime_sub.
  destruct (strptime_valid _ _ Hm) as [Hvm _].
  pose proof (instant_bound _ (replace_microsecond_0_valid _ Hv)).
  pose proof (instant_bound _ Hvm). lia.
Qed.

(** Within that range, the quotient exceeds an [int] only if the
    dividend exceeds it by more than nothing ... *)
Lemma gt_int_exact_lower (a n : Z) :
  - 320000000000 * 1000000 < a < 320000000000 * 1000000 ->
  Float.gt_int (Float.true_divide a 1000000) n = true -> n * 1000000 < a.
Proof.
  intros Ha H. destruct (Z_lt_le_dec (n * 1000000) a) as [C | C]; [exact C | exfalso].
  destruct (Z_lt_le_dec n (2 ^ 53)) as [Hn | Hn].
  - pose proof (true_divide_gt_mono a (n * 1000000) 1000000 n ltac:(lia) C H) as H'.
    assert (Habs : Z.abs n < 2 ^ 53) by (change (2 ^ 53) with 9007199254740992 in *; lia).
    destruct (true_divide_multiple n 1000000 ltac:(lia) Habs) as [p [Hp E]].
    rewrite E, (gt_int_scaled n p n Hp), Z.ltb_irrefl in H'. discriminate.
  - pose proof (true_divide_gt_mono a (320000000000 * 1000000) 1000000 n
                  ltac:(lia) ltac:(lia) H) as H'.
    destruct (true_divide_multiple 320000000000 1000000 ltac:(lia) ltac:(reflexivity))
      as [p [Hp E]].
    rewrite E, (gt_int_scaled _ p n Hp) in H'. apply Z.ltb_lt in H'.
    change (2 ^ 53) with 9007199254740992 in *. lia.
Qed.

(** ... and does exceed it when the dividend exceeds it by a unit. *)
Lemma gt_int_exact_upper (a n : Z) :
  - 320000000000 * 1000000 < a < 320000000000 * 1000000 ->
  (n + 1) * 1000000 <= a -> Float.gt_int (Float.true_divide a 1000000) n = true.
Proof.
  intros Ha C.
  destruct (Z_lt_le_dec (- 2 ^ 53) (n + 1)) as [Hn | Hn].
  - apply (true_divide_gt_mono ((n + 1) * 1000000) a 1000000 n ltac:(lia) C).
    assert (Habs : Z.abs (n + 1) < 2 ^ 53) by (change (2 ^ 53) with 9007199254740992 in *; lia).
    destruct (true_divide_multiple (n + 1) 1000000 ltac:(lia) Habs) as [p [Hp E]].
    rewrite E, (gt_int_scaled (n + 1) p n Hp). apply Z.ltb_lt. lia.
  - apply (true_divide_gt_mono (- 320000000000 * 1000000) a 1000000 n ltac:(lia) ltac:(lia)).
    destruct (true_divide_multiple (- 320000000000) 1000000 ltac:(lia) ltac:(reflexivity))
      as [p [Hp E]].
    rewrite E, (gt_int_scaled _ p n Hp). apply Z.ltb_lt.
    change (2 ^ 53) with 9007199254740992 in *. lia.
Qed.

End ExactAge.

(** C1, as the code has it.  Line 38 keeps a fetched tag exactly when
    [tag.age.total_seconds()], the age in seconds rounded to a [float],
    is strictly greater than [config.age].  Of the age itself this
    says: a tag that is kept is older than [config.age] seconds; a tag
    whose age is [config.age] seconds or less, exactly equal included,
    is left out and the report has no line for it; and a tag whose age
    is a whole number of seconds, or exceeds [config.age] by a second
    or more, is kept exactly when its age exceeds [config.age]. *)
Theorem expired_iff_total_seconds_exceeds (config : Config.t) (env : environment)
    (tags expired : list Tag.t) (w w' : world) (n : Z) :
  Config.age config = PyInt n ->
  (forall k, valid (utcnow env k) = true) ->
  select_expired config tags env w = (Ok expired, w') ->
  exists keep : list bool,
    List.length keep = List.length tags
    /\ expired = mask keep tags
    /\ (forall (i : nat) (tag : Tag.t),
          nth_error tags i = Some tag ->
          exists a,
            Tag.age_at (utcnow env (i + clock_reads w)) tag = Ok a
            /\ (nth i keep false = true <-> (inject_Z n < Float.to_Q (total_seconds a))%Q)
            /\ (nth i keep false = true -> n * 1000000 < to_microseconds a)
            /\ (to_microseconds a <= n * 1000000 -> nth i keep false = false)
            /\ ((n + 1) * 1000000 <= to_microseconds a -> nth i keep false = true)
            /\ (microseconds a = 0 ->
                (nth i keep false = true <-> n * 1000000 < to_microseconds a)))
    /\ (forall endpoint headers w'',
          report config endpoint headers expired env w' = (Ok tt, w'') ->
          exists lines,
            Forall2 (is_line_of env config) (mask keep tags) lines
            /\ stdout w'' = stdout w
                            ++ concat_all (map (fun ln => ln ++ terminator config) lines)).
Proof.
  intros Hn Hvalid Hsel.
  destruct (select_expired_inv _ _ _ _ _ _ Hsel) as [Hw [keep [Hlen [Hmask Hnth]]]].
  exists keep. split; [exact Hlen |]. split; [exact Hmask |]. split.
  - intros i tag Hi.
    destruct (is_expired_at_int _ _ _ _ _ Hn (Hnth i tag Hi)) as [a [Ha Hb]].
    pose proof (age_at_bound _ _ _ (Hvalid _) Ha) as Hbound.
    assert (Hlow : nth i keep false = true -> n * 1000000 < to_microseconds a).
    { rewrite Hb, total_seconds_eq. apply gt_int_exact_lower. exact Hbound. }
    assert (Hup : (n + 1) * 1000000 <= to_microseconds a -> nth i keep false = true).
    { rewrite Hb, total_seconds_eq. apply gt_int_exact_upper. exact Hbound. }
    exists a. split; [exact Ha |].
    split; [rewrite Hb; apply gt_int_spec |].
    split; [exact Hlow |].
    split.
    { intros Hle. destruct (nth i keep false); [| reflexivity].
      specialize (Hlow eq_refl). lia. }
    split; [exact Hup |].
    intros Hus. split; [exact Hlow |]. intros Hgt. apply Hup.
    unfold to_microseconds in *. rewrite Hus in *. lia.
  - intros endpoint headers w'' Hrep.
    destruct (report_ok _ _ _ _ _ _ _ Hrep) as [lines [Hlines [Hout _]]].
    exists lines. rewrite <- Hmask. split; [exact Hlines |].
    rewrite Hout, Hw. reflexivity.
Qed.

Lemma expired_iff_total_seconds_exceeds_witness :
  exists keep : list bool,
    List.length keep = 3%nat
    /\ [Example.v2] = mask keep [Example.v1; Example.v2; Example.v3]
    /\ (forall (i : nat) (tag : Tag.t),
          nth_error [Example.v1; Example.v2; Example.v3] i = Some tag ->
          exists a,
            Tag.age_at Example.now tag = Ok a
            /\ (nth i keep false = true <-> (inject_Z 10 < Float.to_Q (total_seconds a))%Q)
            /\ (nth i keep false = true -> 10 * 1000000 < to_microseconds a)
            /\ (to_microseconds a <= 10 * 1000000 -> nth i keep false = false)
            /\ ((10 + 1) * 1000000 <= to_microseconds a -> nth i keep false = true)
            /\ (microseconds a = 0 ->
                (nth i keep false = true <-> 10 * 1000000 < to_microseconds a)))
    /\ (forall endpoint headers w'',
          report (Example.config 10 false) endpoint headers [Example.v2]
                 (Example.env [] 9) (advance 3 start) = (Ok tt, w'') ->
          exists lines,
            Forall2 (is_line_of (Example.env [] 9) (Example.config 10 false))
                    (mask keep [Example.v1; Example.v2; Example.v3]) lines
            /\ stdout w'' = EmptyString
                            ++ concat_all
                                 (map (fun ln => ln ++ terminator (Example.config 10 false))
                                      lines)).
Proof.
  exact (expired_iff_total_seconds_exceeds (Example.config 10 false) (Example.env [] 9)
           [Example.v1; Example.v2; Example.v3] [Example.v2] start (advance 3 start) 10
           eq_refl (fun _ => eq_refl) ltac:(vm_compute; reflexivity)).
Defined.

(** C1, as the specification words it, fails: a tag whose age exceeds
    [config.age] by a microsecond has a [total_seconds()] that rounds to
    [config.age], and is left out. *)
Lemma age_a_microsecond_above_threshold_left_out :
  exists a : timedelta,
    Tag.age_at Example.now Sample.v5 = Ok a
    /\ to_microseconds a = 19123657455 * 1000000 + 1
    /\ 19123657455 * 1000000 < to_microseconds a
    /\ select_expired (Example.config 19123657455 false) [Sample.v5] (Example.env [] 9) start
       = (Ok [], advance 1 start).
Proof.
  eexists. split; [vm_compute; reflexivity |].
  split; [vm_compute; reflexivity |].
  split; [vm_compute; reflexivity | vm_compute; reflexivity].
Qed.
